(** * Toll-App-Project: the toll-zone transition engine

    A shallow embedding of [toll_logic.py], [models.py] and the location
    handler of [app.py], and the properties of the design specification
    checked against it.

    Layout:
    - [PyFloat]    : Python floats (IEEE binary64) and the built-in [round(x, 2)];
    - [Rounding]   : the vocabulary for rounding to a double, by value;
    - [PyStr]      : [str.strip], [len] and the [in] operator on strings;
    - [PyObj]      : the objects a parsed provider reply is made of;
    - [toll_logic] : [reverse_geocode], [calc_dist], [is_in_toll_zone],
                     [calculate_toll], [send_toll_bill_email];
    - [models]     : the [TollRecord] and [User] rows, and what a [Float]
                     column of SQLite keeps of a float;
    - [app]        : [get_active_toll_entry], [api_update_location], and the
                     billing and account routes;
    - [Spec]       : the notions the specification speaks in;
    - [Scenario]   : one toll plaza and one driver, to run the handler on.

    What the program meets and does not decide is an input of the model:
    the replies of the Maps client (by the count of requests), whether the
    lookup query of a request raises (by the time of the request), how a
    session with the mail server ends (by the message), and the salt of a
    password hash.  A commit that raises is not modelled.

    The properties follow: the transition engine, zone membership, the
    fare, the distance estimator, and last the monotonicity of the fare,
    which needs the theory of rounding to a double. *)

From Stdlib Require Import ZArith Lia Bool List String Ascii.
From Stdlib Require Import SpecFloat Sorted.
From stdpp Require Import base decidable option list strings gmap.

Local Open Scope Z_scope.
Set Warnings "-register-all".

(* ===================================================================== *)
(** ** Python floats *)
(* ===================================================================== *)

Module PyFloat.

(** A Python [float] is an IEEE 754 binary64 number.  The carrier and the
    arithmetic are those of the Standard Library's executable
    specification of binary floating point, at precision 53. *)
Definition float : Type := spec_float.

Definition prec : Z := 53.
Definition emax : Z := 1024.

Definition valid (x : float) : bool := valid_binary prec emax x.

Definition mul : float -> float -> float := SFmul prec emax.
Definition div : float -> float -> float := SFdiv prec emax.
Definition ltb : float -> float -> bool := SFltb.
Definition leb : float -> float -> bool := SFleb.
Definition eqb : float -> float -> bool := SFeqb.

(** The literal [0.0]. *)
Definition zero : float := S754_zero false.

(** Correctly rounded conversion of an integer literal. *)
Definition of_Z_round (z : Z) : float := binary_normalize prec emax z 0 false.

(** [float(n)] for a Python [int], and the implicit conversion of an [int]
    operand of [/]: integers that round beyond the largest double raise
    [OverflowError], which is the [None] here. *)
Definition of_int (z : Z) : option float :=
  match of_Z_round z with
  | S754_infinity _ => None
  | f => Some f
  end.

(** The literals [3.0] and [1000.0]. *)
Definition three : float := Eval vm_compute in of_Z_round 3.
Definition thousand : float := Eval vm_compute in of_Z_round 1000.

(** Truth value of a float: [bool(x)] is [x != 0.0]. *)
Definition truthy (x : float) : bool :=
  match x with
  | S754_zero _ => false
  | _ => true
  end.

(** Nearest integer to [a / b], ties to the even one ([0 <= a], [0 < b]). *)
Definition round_half_even (a b : Z) : Z :=
  let q := a / b in
  let r := a mod b in
  match 2 * r ?= b with
  | Lt => q
  | Gt => q + 1
  | Eq => if Z.even q then q else q + 1
  end.

(** The number of hundredths nearest to the exact value [m * 2^e]. *)
Definition hundredths (m : positive) (e : Z) : Z :=
  match e with
  | Zneg k => round_half_even (100 * Zpos m) (2 ^ Zpos k)
  | _ => 100 * Zpos m * 2 ^ e
  end.

(** [round(x, 2)].  CPython prints the exact binary value of [x] with two
    digits after the point, correctly rounded (ties to even), and reads the
    decimal string back as the nearest double; infinities and NaN are
    returned as they are.  Reading [n] hundredths back is the correctly
    rounded quotient of the integers [n] and [100]. *)
Definition round2 (x : float) : float :=
  match x with
  | S754_finite s m e =>
      match hundredths m e with
      | Zpos n => div (S754_finite s n 0) (S754_finite false 100 0)
      | _ => S754_zero s
      end
  | _ => x
  end.

End PyFloat.

Abbreviation float := PyFloat.float.

(* ===================================================================== *)
(** ** Rounding to a double, by value *)
(* ===================================================================== *)

(** The vocabulary for reasoning about the rounding that the float
    operations perform.  A positive rational is a pair [A / B] of integers;
    values are counted in units of [2^unit_exp]. *)
Module Rounding.
Import PyFloat.

(** [N] is the integer nearest to [a / b], the even one on a tie. *)
Definition near (a b N : Z) : Prop :=
  (2 * N - 1) * b <= 2 * a <= (2 * N + 1) * b /\
  (2 * a = (2 * N + 1) * b -> Z.even N = true) /\
  (2 * a = (2 * N - 1) * b -> Z.even N = true).

(** The shift register [mrs] holds the integer part of [a / b], and its
    round and sticky bits place the remainder against one half. *)
Definition loc_ok (a b : Z) (mrs : shr_record) : Prop :=
  0 <= a /\ 0 < b /\ shr_m mrs = a / b /\
  (shr_r mrs = true <-> b <= 2 * (a mod b)) /\
  (shr_s mrs = true <-> a mod b <> 0 /\ 2 * (a mod b) <> b).

(** The last step of [binary_round_aux]: renormalize the rounded mantissa
    and detect overflow. *)
Definition finish (s : bool) (N e : Z) : spec_float :=
  let '(mrs, e') := shr_fexp prec emax N e loc_Exact in
  match shr_m mrs with
  | Z0 => S754_zero s
  | Zpos m => if e' <=? emax - prec then S754_finite s m e' else S754_infinity s
  | Zneg _ => S754_nan
  end.

Definition unit_exp : Z := -1125.

(** The exponent and the mantissa of the double nearest to [A / B] units. *)
Definition exponent_of (A B : Z) : Z :=
  fexp prec emax (Z.log2 (A / B) + 1 + unit_exp).

Definition mantissa_of (A B : Z) : Z :=
  round_half_even A (B * 2 ^ (exponent_of A B - unit_exp)).

(** The double nearest to [A / B] units, with sign [s]. *)
Definition nearest_double (s : bool) (A B : Z) : spec_float :=
  finish s (mantissa_of A B) (exponent_of A B).

(** What [finish] leaves of a rounded mantissa [0 <= N <= 2^53]. *)
Definition normal_form (s : bool) (N e : Z) : spec_float :=
  if N =? 0 then S754_zero s
  else if N =? 2 ^ 53 then
    if e + 1 <=? 971 then S754_finite s (2 ^ 52) (e + 1) else S754_infinity s
  else
    if e <=? 971 then S754_finite s (Z.to_pos N) e else S754_infinity s.

(** The order of two rounded mantissas with their exponents. *)
Definition mantissa_le (N1 e1 N2 e2 : Z) : Prop :=
  e1 <= e2 /\ (e1 = e2 -> N1 <= N2) /\ (e1 < e2 -> 2 ^ 52 <= N2).

(** The value of a finite double in units of [2^-1074]. *)
Definition scaled_value (x : float) : Z :=
  match x with
  | S754_finite _ m e => Zpos m * 2 ^ (e + 1074)
  | _ => 0
  end.

(** [round(x, 2)] as a function of the value of [x >= 0]. *)
Definition round2_of_value (V : Z) : float :=
  match round_half_even (100 * V) (2 ^ 1074) with
  | Zpos n => nearest_double false (Zpos n * 2 ^ 1125) 100
  | _ => S754_zero false
  end.

End Rounding.

(* ===================================================================== *)
(** ** Python strings *)
(* ===================================================================== *)

Module PyStr.

(** [str.isspace] on one character, for the code points below 256:
    U+0009..U+000D, U+001C..U+0020, U+0085 and U+00A0. *)
Definition isspace (c : ascii) : bool :=
  let n := N_of_ascii c in
  (((9 <=? n) && (n <=? 13)) || ((28 <=? n) && (n <=? 32))
   || (n =? 133) || (n =? 160))%N.

Fixpoint lstrip (s : string) : string :=
  match s with
  | EmptyString => EmptyString
  | String c s' => if isspace c then lstrip s' else s
  end.

Fixpoint rstrip (s : string) : string :=
  match s with
  | EmptyString => EmptyString
  | String c s' =>
      match rstrip s' with
      | EmptyString => if isspace c then EmptyString else String c EmptyString
      | t => String c t
      end
  end.

(** [s.strip()] *)
Definition strip (s : string) : string := rstrip (lstrip s).

(** [needle in hay] *)
Fixpoint contains (needle hay : string) : bool :=
  String.prefix needle hay
  || match hay with
     | EmptyString => false
     | String _ hay' => contains needle hay'
     end.

(** [bool(s)] *)
Definition truthy (s : string) : bool :=
  match s with
  | EmptyString => false
  | _ => true
  end.

(** A byte [10xxxxxx], which continues a character in UTF-8. *)
Definition continues (c : ascii) : bool :=
  let n := N_of_ascii c in ((128 <=? n) && (n <? 192))%N.

(** [len(s)], the number of code points, of a text kept as its UTF-8 bytes
    (the way a string literal is read here): every character has exactly one
    byte that does not continue another.  Equality and emptiness of two
    texts are those of their bytes. *)
Fixpoint len (s : string) : nat :=
  match s with
  | EmptyString => O
  | String c s' => ((if continues c then 0 else 1) + len s')%nat
  end.

(** What [in] decides: the needle occurs as a contiguous block. *)
Definition substring_of (needle hay : string) : Prop :=
  exists pre post, hay = pre +:+ needle +:+ post.

End PyStr.

(* ===================================================================== *)
(** ** Python objects and exceptions *)
(* ===================================================================== *)

Module PyObj.

(** The objects a decoded provider reply, or an argument of [calc_dist],
    can be.  Tuples and lists are both [PList]; a [dict] keeps its items in
    insertion order and is read at the first item with the key. *)
Inductive pyobj : Type :=
| PNone
| PBool (b : bool)
| PInt (z : Z)
| PFloat (f : float)
| PStr (s : string)
| PList (l : list pyobj)
| PDict (items : list (string * pyobj)).

Inductive exn : Type :=
| ApiError (msg : string)
| TransportError (msg : string)
| AttributeError
| KeyError
| IndexError
| TypeError
| ValueError
| OverflowError.

(** [str(e)].  The text of an interpreter exception depends on the objects
    involved; a fixed text stands for it, and nothing below depends on which. *)
Definition exn_str (e : exn) : string :=
  match e with
  | ApiError msg => msg
  | TransportError msg => msg
  | AttributeError => "object has no attribute"
  | KeyError => "key"
  | IndexError => "index out of range"
  | TypeError => "unsupported operand"
  | ValueError => "could not convert string to float"
  | OverflowError => "int too large to convert to float"
  end.

(** A computation that returns or raises. *)
Inductive result (A : Type) : Type :=
| Ok (a : A)
| Raise (e : exn).
Arguments Ok {A} a.
Arguments Raise {A} e.

Definition bind {A B} (m : result A) (k : A -> result B) : result B :=
  match m with
  | Ok a => k a
  | Raise e => Raise e
  end.

Notation "'let*' x := m 'in' k" := (bind m (fun x => k))
  (at level 10, x name, m at level 100, k at level 200).

(** [bool(o)] *)
Definition truthy (o : pyobj) : bool :=
  match o with
  | PNone => false
  | PBool b => b
  | PInt z => negb (z =? 0)
  | PFloat f => PyFloat.truthy f
  | PStr s => PyStr.truthy s
  | PList l => match l with [] => false | _ => true end
  | PDict d => match d with [] => false | _ => true end
  end.

Fixpoint assoc (k : string) (d : list (string * pyobj)) : option pyobj :=
  match d with
  | [] => None
  | (k', v) :: d' => if String.eqb k k' then Some v else assoc k d'
  end.

(** [o.get(k)]: only a [dict] has the method. *)
Definition get (o : pyobj) (k : string) : result pyobj :=
  match o with
  | PDict d => Ok (match assoc k d with Some v => v | None => PNone end)
  | _ => Raise AttributeError
  end.

(** [o[k]] with a string key. *)
Definition getitem (o : pyobj) (k : string) : result pyobj :=
  match o with
  | PDict d => match assoc k d with Some v => Ok v | None => Raise KeyError end
  | _ => Raise TypeError
  end.

(** [o[0]] *)
Definition getitem0 (o : pyobj) : result pyobj :=
  match o with
  | PList (x :: _) => Ok x
  | PList [] => Raise IndexError
  | PStr (String c _) => Ok (PStr (String c EmptyString))
  | PStr EmptyString => Raise IndexError
  | PDict _ => Raise KeyError
  | _ => Raise TypeError
  end.

(** [o == s] for a string literal [s] *)
Definition eq_str (o : pyobj) (s : string) : bool :=
  match o with
  | PStr t => String.eqb t s
  | _ => false
  end.

(** [s in o] for a string literal [s] *)
Definition contains_str (s : string) (o : pyobj) : result bool :=
  match o with
  | PDict d => Ok (bool_decide (is_Some (assoc s d)))
  | PList l => Ok (existsb (fun x => eq_str x s) l)
  | PStr t => Ok (PyStr.contains s t)
  | _ => Raise TypeError
  end.

(** [isinstance(o, (tuple, list)) and len(o) == 2] *)
Definition is_pair (o : pyobj) : bool :=
  match o with
  | PList [_; _] => true
  | _ => false
  end.

(** [isinstance(o, (int, float))]; [bool] is a subclass of [int]. *)
Definition is_number (o : pyobj) : bool :=
  match o with
  | PBool _ | PInt _ | PFloat _ => true
  | _ => false
  end.

(** [o / y] for a number [o] and a float [y]: an [int] operand is converted
    first, and the conversion can overflow. *)
Definition truediv_float (o : pyobj) (y : float) : result float :=
  match o with
  | PFloat x => Ok (PyFloat.div x y)
  | PInt z =>
      match PyFloat.of_int z with
      | Some x => Ok (PyFloat.div x y)
      | None => Raise OverflowError
      end
  | PBool b =>
      match PyFloat.of_int (if b then 1 else 0) with
      | Some x => Ok (PyFloat.div x y)
      | None => Raise OverflowError
      end
  | _ => Raise TypeError
  end.

End PyObj.

(* ===================================================================== *)
(** ** toll_logic.py *)
(* ===================================================================== *)

Module toll_logic.
Import PyObj.

(** The Google Maps client.  A call is a network request: its reply is a
    decoded JSON object or an exception, and two calls with the same
    arguments need not agree, so a reply also depends on how many requests
    were made before it. *)
Record Client : Type := {
  reverse_geocode_reply : nat -> float -> float -> result pyobj;
  distance_matrix_reply : nat -> pyobj -> pyobj -> result pyobj
}.

(** What [send_toll_bill_email] gives to [sendmail]. *)
Record Email : Type := {
  recipient_email : string;
  subject_record_id : Z;
  entry_details : option string * option Z;
  exit_details : option string * option Z;
  email_distance_km : float;
  email_amount_due : float
}.

(** How a session with the mail server ends.  [smtplib.SMTP(...)],
    [starttls()], [login(...)] and [sendmail(...)] can each raise; the server
    has the message only when none of them did. *)
Inductive SmtpSession : Type :=
| MessageAccepted
| SMTPAuthenticationError
| SessionError.

(** The module-level names that are bound once, at import, and the mail
    server that [SMTP_SERVER] and [SMTP_PORT] name: [smtp_session] is how a
    session for a message ends. *)
Record Globals : Type := {
  gmaps : option Client;
  TOLL_ZONE_IDENTIFIERS : gset string;
  EMAIL_ADDRESS : option string;
  EMAIL_PASSWORD : option string;
  SMTP_SERVER : option string;
  SMTP_PORT : Z;
  smtp_session : Email -> SmtpSession
}.

Definition TOLL_RATE_PER_KM : option float := Some PyFloat.three.

Definition CSV_IDENTIFIER_COLUMN : string := "formatted_address".

(** The import-time load of the identifiers.  The argument is what
    [pd.read_csv] gives: [None] when it raises, otherwise the columns with
    their cells ([None] for a missing cell) already as text. *)
Definition load_toll_zone_identifiers
    (csv : option (list (string * list (option string)))) : gset string :=
  match csv with
  | None => ∅
  | Some columns =>
      match List.find (fun c => String.eqb (fst c) CSV_IDENTIFIER_COLUMN) columns with
      | Some (_, cells) =>
          let valid_identifiers := PyStr.strip <$> omap id cells in
          list_to_set (List.filter (fun s => negb (String.eqb s "")) valid_identifiers)
      | None => ∅
      end
  end.

(** Truth value of an optional string ([None] is false). *)
Definition truthy_opt (o : option string) : bool :=
  match o with
  | Some s => PyStr.truthy s
  | None => false
  end.

(** [s.strip()] on an object: only [str] has the method. *)
Definition strip_method (o : pyobj) : result string :=
  match o with
  | PStr s => Ok (PyStr.strip s)
  | _ => Raise AttributeError
  end.

(** [reverse_geocode(lat, lng)]: the pair (address, error), and the request
    counter after the call. *)
Definition reverse_geocode (g : Globals) (lat lng : float) (n : nat)
  : (option string * option string) * nat :=
  match gmaps g with
  | None => ((None, Some "Geocoding Service Unavailable"), n)
  | Some client =>
      let body : result (option string * option string) :=
        let* reverse_geocode_result := reverse_geocode_reply client n lat lng in
        if truthy reverse_geocode_result then
          let* first := getitem0 reverse_geocode_result in
          let* formatted_address := get first "formatted_address" in
          if truthy formatted_address then
            let* stripped := strip_method formatted_address in
            Ok (Some stripped, None)
          else Ok (None, Some "Address format error")
        else Ok (None, Some "No address found") in
      (match body with
       | Ok r => r
       | Raise (ApiError msg) => (None, Some ("API Error: " +:+ msg))
       | Raise e => (None, Some ("Network or Server Error: " +:+ exn_str e))
       end, S n)
  end.

(** [a and b] on raising boolean computations. *)
Definition and_then (a : result bool) (b : result bool) : result bool :=
  let* x := a in if x then b else Ok false.

(** [calc_dist(origin_coords, destination_coords)] *)
Definition calc_dist (g : Globals) (origin_coords destination_coords : pyobj) (n : nat)
  : option float * nat :=
  match gmaps g with
  | None => (None, n)
  | Some client =>
      if negb (is_pair origin_coords && is_pair destination_coords) then (None, n)
      else
        let body : result (option float) :=
          let* distance_matrix :=
            distance_matrix_reply client n origin_coords destination_coords in
          let* _ := get distance_matrix "status" in
          let element : result pyobj :=
            let* rows := getitem distance_matrix "rows" in
            let* row := getitem0 rows in
            let* elements := getitem row "elements" in
            getitem0 elements in
          let* ok :=
            and_then (let* st := get distance_matrix "status" in Ok (eq_str st "OK"))
           (and_then (let* rows := get distance_matrix "rows" in Ok (truthy rows))
           (and_then (let* rows := getitem distance_matrix "rows" in
                      let* row := getitem0 rows in
                      let* elements := get row "elements" in Ok (truthy elements))
                     (let* el := element in
                      let* st := get el "status" in Ok (eq_str st "OK")))) in
          if ok then
            let* el := element in
            let* distance_info := get el "distance" in
            let* has_value :=
              if truthy distance_info then contains_str "value" distance_info
              else Ok false in
            if has_value then
              let* distance_value_meters := getitem distance_info "value" in
              if is_number distance_value_meters then
                let* km := truediv_float distance_value_meters PyFloat.thousand in
                Ok (Some (PyFloat.round2 km))
              else Ok None
            else Ok None
          else
            (* the branch only logs; what it reads can still raise *)
            let* _ := get distance_matrix "status" in
            let* has_elements :=
              and_then (let* rows := get distance_matrix "rows" in Ok (truthy rows))
                       (let* rows := getitem distance_matrix "rows" in
                        let* row := getitem0 rows in
                        let* elements := get row "elements" in Ok (truthy elements)) in
            let* _ := if has_elements
                      then (let* el := element in get el "status")
                      else Ok PNone in
            Ok None in
        (match body with
         | Ok r => r
         | Raise _ => None
         end, S n)
  end.

(** [is_in_toll_zone(lat, lng)] *)
Definition is_in_toll_zone (g : Globals) (lat lng : float) (n : nat) : bool * nat :=
  if bool_decide (TOLL_ZONE_IDENTIFIERS g = ∅) then (false, n)
  else
    let '((address, error), n') := reverse_geocode g lat lng n in
    if truthy_opt error then (false, n')
    else
      match address with
      | None => (false, n')
      | Some address =>
          if negb (PyStr.truthy address) then (false, n')
          else
            let address := PyStr.strip address in
            let in_zone := bool_decide (address ∈ TOLL_ZONE_IDENTIFIERS g) in
            if in_zone then (true, n')
            else
              let partial_match_found :=
                existsb (fun zone_id => PyStr.truthy zone_id && PyStr.contains zone_id address)
                        (elements (TOLL_ZONE_IDENTIFIERS g)) in
              (partial_match_found, n')
      end.

(** [distance_km < 0]: the order is defined between numbers only. *)
Definition lt_zero (o : pyobj) : result bool :=
  match o with
  | PFloat x => Ok (PyFloat.ltb x PyFloat.zero)
  | PInt z => Ok (z <? 0)
  | PBool _ => Ok false
  | _ => Raise TypeError
  end.

(** [float(o)]: a number converts, an [int] beyond the largest double
    raising [OverflowError]; [None], a list and a dict raise [TypeError].  A
    [str], which [float] would parse, does not get here: [distance_km < 0]
    has raised on it before. *)
Definition float_of (o : pyobj) : result float :=
  match o with
  | PFloat x => Ok x
  | PInt z =>
      match PyFloat.of_int z with
      | Some x => Ok x
      | None => Raise OverflowError
      end
  | PBool b =>
      match PyFloat.of_int (if b then 1 else 0) with
      | Some x => Ok x
      | None => Raise OverflowError
      end
  | _ => Raise TypeError
  end.

(** [calculate_toll(distance_km)] on any object: the two tests before the
    [try], which can raise, and the [try] with its
    [except (ValueError, TypeError)] arm. *)
Definition calculate_toll_obj (distance_km : pyobj) : result float :=
  match distance_km with
  | PNone => Ok PyFloat.zero
  | _ =>
      let* negative := lt_zero distance_km in
      if negative then Ok PyFloat.zero
      else
        match TOLL_RATE_PER_KM with
        | None => Ok PyFloat.zero
        | Some rate_name =>
            match (let* rate := float_of (PFloat rate_name) in
                   let* d := float_of distance_km in
                   Ok (PyFloat.round2 (PyFloat.mul d rate))) with
            | Raise ValueError => Ok PyFloat.zero
            | Raise TypeError => Ok PyFloat.zero
            | r => r
            end
        end
  end.

(** [calculate_toll(distance_km)] at its one call site, where the argument
    is what [calc_dist] returned: [None] or a float.  There the call returns
    this value; the section on the fare compares it with
    [calculate_toll_obj]. *)
Definition calculate_toll (distance_km : option float) : float :=
  match distance_km with
  | None => PyFloat.zero
  | Some d =>
      if PyFloat.ltb d PyFloat.zero then PyFloat.zero
      else
        match TOLL_RATE_PER_KM with
        | None => PyFloat.zero
        | Some rate => PyFloat.round2 (PyFloat.mul d rate)
        end
  end.

(** [send_toll_bill_email(...)]: the message the server accepted, when the
    function returns [True]; nothing when it returns [False], which it does
    without a session when a mail setting or the recipient is missing, and
    from either [except] arm when the session raised. *)
Definition send_toll_bill_email (g : Globals) (m : Email) : option Email :=
  if negb (truthy_opt (EMAIL_ADDRESS g) && truthy_opt (EMAIL_PASSWORD g)
           && truthy_opt (SMTP_SERVER g) && negb (SMTP_PORT g =? 0))
  then None
  else if negb (PyStr.truthy (recipient_email m)) then None
  else
    match smtp_session g m with
    | MessageAccepted => Some m
    | SMTPAuthenticationError => None
    | SessionError => None
    end.

End toll_logic.

(* ===================================================================== *)
(** ** models.py *)
(* ===================================================================== *)

Module models.

(** A row of [User]: the columns the location handler reads. *)
Record User : Type := {
  user_pk : Z;
  username : string;
  email : option string
}.

(** A row of [TollRecord].  Every column but the keys is nullable. *)
Record TollRecord : Type := {
  id : Z;
  user_id : Z;
  entry_lat : option float;
  entry_lon : option float;
  entry_address : option string;
  entry_timestamp : option Z;
  exit_lat : option float;
  exit_lon : option float;
  exit_address : option string;
  exit_timestamp : option Z;
  distance_km : option float;
  amount_due : option float;
  paid : option bool;
  payment_timestamp : option Z;
  is_entry_only : option bool
}.

(** What a [Float] column holds once a float is committed to it, and gives
    back on the next load: SQLite stores NaN as NULL and reads a negative
    zero back as [0.0]; every other double comes back as it was. *)
Definition sqlite_real (x : float) : option float :=
  match x with
  | S754_nan => None
  | S754_zero _ => Some (S754_zero false)
  | _ => Some x
  end.

(** [TollRecord(user_id=..., entry_lat=..., entry_lon=..., entry_address=...,
    entry_timestamp=..., is_entry_only=...)] once committed with primary key
    [pk], as the row is loaded afterwards: the columns not given take their
    defaults ([paid] is [False]). *)
Definition new_TollRecord (pk uid : Z) (lat lon : float) (address : string)
    (timestamp : Z) (entry_only : bool) : TollRecord :=
  {| id := pk; user_id := uid;
     entry_lat := sqlite_real lat; entry_lon := sqlite_real lon;
     entry_address := Some address; entry_timestamp := Some timestamp;
     exit_lat := None; exit_lon := None; exit_address := None;
     exit_timestamp := None; distance_km := None; amount_due := None;
     paid := Some false; payment_timestamp := None;
     is_entry_only := Some entry_only |}.

End models.

(* ===================================================================== *)
(** ** app.py: the location handler *)
(* ===================================================================== *)

Module app.
Import PyObj toll_logic models.

(** What a request can change: the number of provider requests made so
    far, the [TollRecord] table in primary-key order, and the mail handed
    to the SMTP server. *)
Record World : Type := {
  requests : nat;
  table : list TollRecord;
  outbox : list Email
}.

(** [TollRecord.query.filter_by(user_id=..., is_entry_only=True)] *)
Definition is_open_for (uid : Z) (r : TollRecord) : bool :=
  (user_id r =? uid) && bool_decide (is_entry_only r = Some true).

(** [ORDER BY entry_timestamp DESC]: is [a] strictly before [b]?  NULL
    sorts as the smallest value. *)
Definition newer (a b : TollRecord) : bool :=
  match entry_timestamp a, entry_timestamp b with
  | Some x, Some y => y <? x
  | Some _, None => true
  | None, _ => false
  end.

(** [.first()] of the ordered rows; rows with equal keys stay in table order. *)
Fixpoint first_by_entry_timestamp_desc (rows : list TollRecord) : option TollRecord :=
  match rows with
  | [] => None
  | r :: rows' =>
      match first_by_entry_timestamp_desc rows' with
      | Some r' => if newer r' r then Some r' else Some r
      | None => Some r
      end
  end.

(** What the handler runs against: the names of [toll_logic] and the
    database session.  A query of the session can raise, at one time and not
    at another: [query_raises now] says whether the lookup of the open
    record does in the request that the server receives at [now]. *)
Record Env : Type := {
  toll_logic_names :> Globals;
  query_raises : Z -> bool
}.

(** [get_active_toll_entry(user_id)], called at [now]: the first row of the
    query, and [None] from the [except] arm when the query raises. *)
Definition get_active_toll_entry (g : Env) (now : Z) (uid : Z)
    (t : list TollRecord) : option TollRecord :=
  if query_raises g now then None
  else first_by_entry_timestamp_desc (List.filter (is_open_for uid) t).

(** The primary key the database gives to the next inserted row. *)
Definition next_id (t : list TollRecord) : Z :=
  1 + fold_right Z.max 0 (id <$> t).

(** [db.session.add(r); db.session.commit()] *)
Definition insert_row (r : TollRecord) (t : list TollRecord) : list TollRecord :=
  t ++ [r].

(** [db.session.commit()] after assigning to attributes of a loaded row:
    the row with that primary key is rewritten. *)
Definition update_row (r : TollRecord) (t : list TollRecord) : list TollRecord :=
  List.map (fun r' => if id r' =? id r then r else r') t.

(** Which arm of the handler's [if]/[elif]/[else] ran. *)
Inductive Outcome : Type :=
| NoChange
| Entered
| Exited (r : TollRecord)
| ExitBlocked.

(** The JSON body and the status code of the reply. *)
Record Response : Type := {
  status : string;
  message : string;
  code : Z
}.

Definition location_processed : Response :=
  {| status := "success"; message := "Location processed"; code := 200 |}.

Definition exit_not_finalized : Response :=
  {| status := "success";
     message := "Location processed, but cannot finalize exit due to missing entry data.";
     code := 200 |}.

(** [x or 0.0] *)
Definition or_zero (x : option float) : float :=
  match x with
  | Some f => if PyFloat.truthy f then f else PyFloat.zero
  | None => PyFloat.zero
  end.

(** [s or "Address Unavailable"] *)
Definition or_unavailable (s : option string) : string :=
  match s with
  | Some a => if PyStr.truthy a then a else "Address Unavailable"
  | None => "Address Unavailable"
  end.

(** The assignments of the exit arm to the loaded row, as the row is
    loaded after the commit. *)
Definition finalize (active_entry : TollRecord) (lat lon : float)
    (exit_addr : option string) (timestamp : Z)
    (dist : option float) (amount : option float) : TollRecord :=
  {| id := id active_entry; user_id := user_id active_entry;
     entry_lat := entry_lat active_entry; entry_lon := entry_lon active_entry;
     entry_address := entry_address active_entry;
     entry_timestamp := entry_timestamp active_entry;
     exit_lat := sqlite_real lat; exit_lon := sqlite_real lon;
     exit_address := Some (or_unavailable exit_addr);
     exit_timestamp := Some timestamp;
     distance_km := sqlite_real (default PyFloat.zero dist);
     amount_due := sqlite_real (default PyFloat.zero amount);
     paid := Some false;
     payment_timestamp := payment_timestamp active_entry;
     is_entry_only := Some false |}.

(** The core of [api_update_location], from the parsed coordinates on:
    [lat] and [lon] are the floats read from the request body, [timestamp]
    is the server's [datetime.utcnow()].  The replies with status 400 to a
    malformed body come before it.  A lookup that raises is caught inside
    [get_active_toll_entry] and a mail session that raises inside
    [send_toll_bill_email]; a commit that raises, which the outer [except]
    answers with a rollback and status 500, is not modelled.  The mail is
    made from the row as it is loaded after the commit.  The first component
    of the result names the arm that ran; the source announces it on
    standard output. *)
Definition api_update_location (g : Env) (current_user : User)
    (lat lon : float) (timestamp : Z) (w : World) : (Outcome * Response) * World :=
  let '(current_location_is_toll, n1) := is_in_toll_zone g lat lon (requests w) in
  let active_entry :=
    get_active_toll_entry g timestamp (user_pk current_user) (table w) in
  match current_location_is_toll, active_entry with
  | true, None =>
      (* the user entered a toll zone *)
      let '((entry_addr, geo_error), n2) := reverse_geocode g lat lon n1 in
      let new_entry :=
        new_TollRecord (next_id (table w)) (user_pk current_user) lat lon
                       (or_unavailable entry_addr) timestamp true in
      ((Entered, location_processed),
       {| requests := n2; table := insert_row new_entry (table w); outbox := outbox w |})
  | false, Some active_entry =>
      (* the user left the toll zone *)
      match entry_lat active_entry, entry_lon active_entry with
      | Some e_lat, Some e_lon =>
          let '((exit_addr, geo_error), n2) := reverse_geocode g lat lon n1 in
          let origin_coords := PList [PFloat e_lat; PFloat e_lon] in
          let destination_coords := PList [PFloat lat; PFloat lon] in
          let '(dist, n3) := calc_dist g origin_coords destination_coords n2 in
          let amount := calculate_toll dist in
          let closed := finalize active_entry lat lon exit_addr timestamp dist (Some amount) in
          let mail :=
            match email current_user with
            | Some recipient =>
                if PyStr.truthy recipient then
                  send_toll_bill_email g
                    {| recipient_email := recipient;
                       subject_record_id := id closed;
                       entry_details := (entry_address closed, entry_timestamp closed);
                       exit_details := (exit_address closed, exit_timestamp closed);
                       email_distance_km := or_zero (distance_km closed);
                       email_amount_due := or_zero (amount_due closed) |}
                else None
            | None => None
            end in
          ((Exited closed, location_processed),
           {| requests := n3; table := update_row closed (table w);
              outbox := outbox w ++ option_list mail |})
      | _, _ =>
          ((ExitBlocked, exit_not_finalized),
           {| requests := n1; table := table w; outbox := outbox w |})
      end
  | _, _ =>
      (* no state change *)
      ((NoChange, location_processed),
       {| requests := n1; table := table w; outbox := outbox w |})
  end.

(** One location update of the stream: who sent it, where from, and when. *)
Record Sample : Type := {
  subject : User;
  latitude : float;
  longitude : float;
  observed_at : Z
}.

Definition process_sample (g : Env) (s : Sample) (w : World)
  : (Outcome * Response) * World :=
  api_update_location g (subject s) (latitude s) (longitude s) (observed_at s) w.

(** The handler run over a stream of samples, one request after another. *)
Definition run (g : Env) (samples : list Sample) (w : World) : World :=
  fold_left (fun w s => snd (process_sample g s w)) samples w.

(** *** The billing routes *)

(** What [pay_bill] flashes before it redirects to the dashboard. *)
Inductive Flash : Type :=
| PaymentSuccessful (toll_id : Z)
| InvalidOrAlreadyPaid.

(** [TollRecord.query.filter_by(id=toll_id, user_id=..., paid=False)] *)
Definition is_unpaid_bill_of (uid toll_id : Z) (r : TollRecord) : bool :=
  (id r =? toll_id) && (user_id r =? uid) && bool_decide (paid r = Some false).

(** The assignments of [pay_bill] to the loaded row. *)
Definition mark_paid (toll_record : TollRecord) (now : Z) : TollRecord :=
  {| id := id toll_record; user_id := user_id toll_record;
     entry_lat := entry_lat toll_record; entry_lon := entry_lon toll_record;
     entry_address := entry_address toll_record;
     entry_timestamp := entry_timestamp toll_record;
     exit_lat := exit_lat toll_record; exit_lon := exit_lon toll_record;
     exit_address := exit_address toll_record;
     exit_timestamp := exit_timestamp toll_record;
     distance_km := distance_km toll_record;
     amount_due := amount_due toll_record;
     paid := Some true;
     payment_timestamp := Some now;
     is_entry_only := is_entry_only toll_record |}.

(** [pay_bill(toll_id)], with [now] the server's [datetime.utcnow()]: the
    flashed message and the table after the request. *)
Definition pay_bill (current_user : User) (toll_id : Z) (now : Z)
    (t : list TollRecord) : Flash * list TollRecord :=
  match List.find (is_unpaid_bill_of (user_pk current_user) toll_id) t with
  | None => (InvalidOrAlreadyPaid, t)
  | Some toll_record =>
      (PaymentSuccessful toll_id, update_row (mark_paid toll_record now) t)
  end.

(** [ORDER BY key DESC]: does a row with key [x] come strictly before one
    with key [y]?  NULL sorts as the smallest value. *)
Definition desc_before (x y : option Z) : bool :=
  match x, y with
  | Some a, Some b => b <? a
  | Some _, None => true
  | None, _ => false
  end.

Fixpoint insert_desc (key : TollRecord -> option Z) (r : TollRecord)
    (sorted : list TollRecord) : list TollRecord :=
  match sorted with
  | [] => [r]
  | x :: xs =>
      if desc_before (key x) (key r) then x :: insert_desc key r xs
      else r :: sorted
  end.

(** [.order_by(key.desc()).all()]; rows with equal keys stay in table order. *)
Definition order_by_desc (key : TollRecord -> option Z) (rows : list TollRecord)
  : list TollRecord :=
  fold_right (insert_desc key) [] rows.

(** The query of [dashboard], [payment] and [query_page] for the bills to
    show: [filter_by(user_id=..., paid=False, is_entry_only=False)
    .order_by(TollRecord.exit_timestamp.desc()).all()] *)
Definition unpaid_tolls (uid : Z) (t : list TollRecord) : list TollRecord :=
  order_by_desc exit_timestamp
    (List.filter (fun r => (user_id r =? uid) && bool_decide (paid r = Some false)
                           && bool_decide (is_entry_only r = Some false)) t).

(** The second query of [dashboard]: [filter_by(user_id=..., paid=True)
    .order_by(TollRecord.payment_timestamp.desc()).limit(10).all()] *)
Definition paid_tolls (uid : Z) (t : list TollRecord) : list TollRecord :=
  take 10 (order_by_desc payment_timestamp
             (List.filter (fun r => (user_id r =? uid) && bool_decide (paid r = Some true)) t)).

(** *** Accounts: [register], [login] and the [create-user] command *)

(** A row of [User] with its password column. *)
Record Account : Type := {
  account_user : User;
  password_hash : option string
}.

(** [werkzeug.security].  The hash is salted: [salt] stands for the random
    salt a call draws.  The one property relied on is that a hash checks
    against the password it was made from. *)
Record Werkzeug : Type := {
  generate_password_hash : string -> nat -> string;
  check_password_hash : string -> string -> bool;
  check_generated : forall password salt,
    check_password_hash (generate_password_hash password salt) password = true
}.

Inductive Method : Type := GET | POST.

Inductive Endpoint : Type :=
| to_dashboard
| to_login
| to_register
| to_url (next_page : string).

Inductive Reply : Type :=
| Redirect (target : Endpoint)
| RenderTemplate (name : string).

(** The messages [register] and [login] flash. *)
Inductive Notice : Type :=
| AllFieldsRequired
| PasswordsDoNotMatch
| PasswordTooShort
| UsernameOrEmailExists
| RegistrationSuccessful
| UsernameAndPasswordRequired
| CheckLoginDetails
| WelcomeBack (name : string)
| InternalLoginError.

(** What the [create-user] command prints. *)
Inductive Printed : Type :=
| PrintAllFieldsRequired
| PrintPasswordsDoNotMatch
| PrintUsernameOrEmailExists
| PrintCreated (name : string).

(** [request.form.get] of the four fields of the registration form. *)
Record RegisterForm : Type := {
  form_username : option string;
  form_email : option string;
  form_password : option string;
  form_confirm_password : option string
}.

(** [(User.username == username) | (User.email == email)] *)
Definition username_or_email_is (name mail : string) (a : Account) : bool :=
  String.eqb (username (account_user a)) name
  || match email (account_user a) with
     | Some e => String.eqb e mail
     | None => false
     end.

(** The primary key the database gives to the next inserted user. *)
Definition next_user_id (users : list Account) : Z :=
  1 + fold_right Z.max 0 ((fun a => user_pk (account_user a)) <$> users).

(** [User(username=..., email=..., password_hash=...)] once committed. *)
Definition new_User (users : list Account) (name mail hashed_password : string)
  : Account :=
  {| account_user := {| user_pk := next_user_id users; username := name;
                        email := Some mail |};
     password_hash := Some hashed_password |}.

(** [register()]: the reply, the flashed messages and the user table after
    the request. *)
Definition register (h : Werkzeug) (current_user : option Account)
    (method : Method) (form : RegisterForm) (salt : nat) (users : list Account)
  : Reply * list Notice * list Account :=
  match current_user with
  | Some _ => (Redirect to_dashboard, [], users)
  | None =>
      match method with
      | GET => (RenderTemplate "register.html", [], users)
      | POST =>
          if negb (truthy_opt (form_username form) && truthy_opt (form_email form)
                   && truthy_opt (form_password form)
                   && truthy_opt (form_confirm_password form))
          then (Redirect to_register, [AllFieldsRequired], users)
          else
            match form_username form, form_email form,
                  form_password form, form_confirm_password form with
            | Some name, Some mail, Some password, Some confirm_password =>
                if negb (String.eqb password confirm_password)
                then (Redirect to_register, [PasswordsDoNotMatch], users)
                else if (PyStr.len password <? 6)%nat
                then (Redirect to_register, [PasswordTooShort], users)
                else
                  match List.find (username_or_email_is name mail) users with
                  | Some existing_user =>
                      (Redirect to_register, [UsernameOrEmailExists], users)
                  | None =>
                      let hashed_password := generate_password_hash h password salt in
                      (Redirect to_login, [RegistrationSuccessful],
                       users ++ [new_User users name mail hashed_password])
                  end
            | _, _, _, _ => (Redirect to_register, [AllFieldsRequired], users)
            end
      end
  end.

(** [login()]: the reply, the flashed messages and the argument of
    [login_user], if it is called.  A row without a hash makes
    [check_password_hash] raise, which the handler catches. *)
Definition login (h : Werkzeug) (current_user : option Account) (method : Method)
    (form_name form_password form_remember next_page : option string)
    (users : list Account)
  : Reply * list Notice * option (Account * bool) :=
  match current_user with
  | Some _ => (Redirect to_dashboard, [], None)
  | None =>
      match method with
      | GET => (RenderTemplate "login.html", [], None)
      | POST =>
          let remember := truthy_opt form_remember in
          match form_name, form_password with
          | Some name, Some password =>
              if negb (PyStr.truthy name) || negb (PyStr.truthy password)
              then (Redirect to_login, [UsernameAndPasswordRequired], None)
              else
                match List.find (fun a => String.eqb (username (account_user a)) name)
                        users with
                | None => (Redirect to_login, [CheckLoginDetails], None)
                | Some user =>
                    match password_hash user with
                    | None => (Redirect to_login, [InternalLoginError], None)
                    | Some pwhash =>
                        if negb (check_password_hash h pwhash password)
                        then (Redirect to_login, [CheckLoginDetails], None)
                        else
                          (Redirect (match next_page with
                                     | Some url =>
                                         if PyStr.truthy url then to_url url
                                         else to_dashboard
                                     | None => to_dashboard
                                     end),
                           [WelcomeBack (username (account_user user))],
                           Some (user, remember))
                    end
                end
          | _, _ => (Redirect to_login, [UsernameAndPasswordRequired], None)
          end
      end
  end.

(** The [create-user] command on the four lines it reads: what it prints
    and the user table afterwards. *)
Definition create_user (h : Werkzeug) (name mail password confirm_password : string)
    (salt : nat) (users : list Account) : Printed * list Account :=
  if negb (PyStr.truthy name && PyStr.truthy mail && PyStr.truthy password
           && PyStr.truthy confirm_password)
  then (PrintAllFieldsRequired, users)
  else if negb (String.eqb password confirm_password)
  then (PrintPasswordsDoNotMatch, users)
  else
    match List.find (username_or_email_is name mail) users with
    | Some existing => (PrintUsernameOrEmailExists, users)
    | None =>
        let hashed_password := generate_password_hash h password salt in
        (PrintCreated name, users ++ [new_User users name mail hashed_password])
    end.

End app.

(* ===================================================================== *)
(** ** The vocabulary of the specification *)
(* ===================================================================== *)

Module Spec.
Import PyObj toll_logic models app.

(** A record is open while it awaits its exit sample. *)
Definition open (r : TollRecord) : Prop := is_entry_only r = Some true.

(** The open records of a subject, in table order. *)
Definition open_records (uid : Z) (t : list TollRecord) : list TollRecord :=
  List.filter (is_open_for uid) t.

(** OUTSIDE: the subject has no open record. *)
Definition outside (uid : Z) (t : list TollRecord) : Prop :=
  open_records uid t = [].

(** The column holds the float [x]: the same double, or one equal to it as
    a number (the zero of the other sign). *)
Definition holds (column : option float) (x : float) : Prop :=
  exists y, column = Some y /\ (y = x \/ PyFloat.eqb y x = true).


(** The invariant of the data model: at most one open record per subject. *)
Definition at_most_one_open (t : list TollRecord) : Prop :=
  forall uid, (length (open_records uid t) <= 1)%nat.

(** A sample is classified in-zone when the membership test, run at the
    current request count, answers [True]. *)
Definition in_zone (g : Globals) (lat lon : float) (n : nat) : bool :=
  fst (is_in_toll_zone g lat lon n).

(** The session answers the lookup of each of the samples. *)
Definition lookups_answered (g : Env) (samples : list Sample) : Prop :=
  Forall (fun s => query_raises g (observed_at s) = false) samples.

(** C1 as it is written: a location update keeps the invariant. *)
Definition invariant_kept (g : Env) (s : Sample) (w : World) : Prop :=
  at_most_one_open (table w) ->
  at_most_one_open (table (snd (process_sample g s w))).

(** C3 as it is written, for the coordinates: the record an entry creates
    holds the coordinates of the sample. *)
Definition entry_holds_coordinates (g : Env) (u : User) (lat lon : float)
    (ts : Z) (w : World) : Prop :=
  outside (user_pk u) (table w) ->
  in_zone g lat lon (requests w) = true ->
  exists r,
    table (snd (api_update_location g u lat lon ts w)) = table w ++ [r] /\
    holds (entry_lat r) lat /\ holds (entry_lon r) lon.

(** The label the handler stores for a resolved address. *)
Definition stored_label (address : option string) : string :=
  match address with
  | Some (String c s) => String c s
  | _ => "Address Unavailable"
  end.

(** Reverse geocoding failed: it gave an error, no label, or an empty one. *)
Definition resolution_failed (r : option string * option string) : Prop :=
  fst r = None \/ fst r = Some "".

(** C10 as it is written, for the label and the coordinates: when the
    reverse geocoding of the exit point fails, the record the exit closes
    has the label "Address Unavailable" and holds the coordinates of the
    sample. *)
Definition exit_holds_coordinates (g : Env) (u : User) (lat lon : float)
    (ts : Z) (w : World) : Prop :=
  resolution_failed
    (fst (reverse_geocode g lat lon (snd (is_in_toll_zone g lat lon (requests w))))) ->
  forall closed,
    fst (fst (api_update_location g u lat lon ts w)) = Exited closed ->
    exit_address closed = Some "Address Unavailable" /\
    holds (exit_lat closed) lat /\ holds (exit_lon closed) lon.

(** The provider's reply to the one distance request [calc_dist] makes, if
    the request is made and answered. *)
Definition provider_reply (g : Globals) (origin destination : pyobj) (n : nat)
  : option pyobj :=
  match gmaps g with
  | Some client =>
      if is_pair origin && is_pair destination then
        match distance_matrix_reply client n origin destination with
        | Ok reply => Some reply
        | Raise _ => None
        end
      else None
  | None => None
  end.

(** The overall status of the reply is OK. *)
Definition overall_status_ok (reply : pyobj) : Prop :=
  exists items, reply = PDict items /\ assoc "status" items = Some (PStr "OK").

(** [el] is the element of the single origin-destination pair: the first
    element of the first row. *)
Definition single_element (reply el : pyobj) : Prop :=
  exists items row rows els,
    reply = PDict items /\
    assoc "rows" items = Some (PList (PDict row :: rows)) /\
    assoc "elements" row = Some (PList (el :: els)).

Definition element_status_ok (el : pyobj) : Prop :=
  exists fields, el = PDict fields /\ assoc "status" fields = Some (PStr "OK").

(** The element carries the numeric distance value [v]. *)
Definition numeric_distance (el v : pyobj) : Prop :=
  exists fields info,
    el = PDict fields /\ assoc "distance" fields = Some (PDict info) /\
    assoc "value" info = Some v /\ is_number v = true.

(** The float a number stands for, when it has one. *)
Definition as_float (v : pyobj) : option float :=
  match v with
  | PFloat x => Some x
  | PInt z => PyFloat.of_int z
  | PBool b => PyFloat.of_int (if b then 1 else 0)
  | _ => None
  end.

(** The condition under which the specification promises a distance. *)
Definition route_available (g : Globals) (origin destination : pyobj) (n : nat)
    (v : pyobj) : Prop :=
  exists reply el,
    provider_reply g origin destination n = Some reply /\
    overall_status_ok reply /\ single_element reply el /\
    element_status_ok el /\ numeric_distance el v.

(** The object that stands for a distance of the specification,
    [float|absent]; it is what [calc_dist] returns and the handler passes on. *)
Definition distance_obj (distanceKm : option float) : pyobj :=
  match distanceKm with
  | Some d => PFloat d
  | None => PNone
  end.

(** [calculateFare] as the specification words it: 0.0 for an absent or a
    negative distance, otherwise the distance times the rate, 3.0, rounded to
    two decimals. *)
Definition calculateFare (distanceKm : option float) : float :=
  match distanceKm with
  | None => PyFloat.zero
  | Some d =>
      if PyFloat.ltb d PyFloat.zero then PyFloat.zero
      else PyFloat.round2 (PyFloat.mul d (PyFloat.of_Z_round 3))
  end.

(** The mail settings are all present. *)
Definition mail_configured (g : Globals) : bool :=
  truthy_opt (EMAIL_ADDRESS g) && truthy_opt (EMAIL_PASSWORD g)
  && truthy_opt (SMTP_SERVER g) && negb (SMTP_PORT g =? 0).

(** The bill of a closed record, addressed to [recipient]. *)
Definition bill_for (recipient : string) (closed : TollRecord) : Email :=
  {| recipient_email := recipient;
     subject_record_id := id closed;
     entry_details := (entry_address closed, entry_timestamp closed);
     exit_details := (exit_address closed, exit_timestamp closed);
     email_distance_km := or_zero (distance_km closed);
     email_amount_due := or_zero (amount_due closed) |}.

(** Primary keys are unique. *)
Definition unique_ids (t : list TollRecord) : Prop :=
  NoDup (List.map id t).

(** The list is in the order of [ORDER BY key DESC]: no row is followed,
    anywhere later, by a row that the order puts strictly before it. *)
Definition sorted_desc (key : TollRecord -> option Z) (l : list TollRecord) : Prop :=
  StronglySorted (fun x y => desc_before (key y) (key x) = false) l.

(** The specification's condition for a distance, as it is written: a
    distance is returned exactly when the two statuses are OK and the
    element carries a numeric value. *)
Definition distance_iff_route (g : Globals) (origin destination : pyobj) (n : nat)
  : Prop :=
  is_Some (fst (calc_dist g origin destination n)) <->
  exists v, route_available g origin destination n v.

(** The unique constraints of the [User] table. *)
Definition unique_accounts (users : list Account) : Prop :=
  NoDup (List.map (fun a => user_pk (account_user a)) users) /\
  NoDup (List.map (fun a => username (account_user a)) users) /\
  NoDup (omap (fun a => email (account_user a)) users).

(** The registration form is acceptable: the four fields are filled in, the
    passwords agree and have six characters or more. *)
Definition acceptable (form : RegisterForm) (name mail password : string) : Prop :=
  form_username form = Some name /\ form_email form = Some mail /\
  form_password form = Some password /\ form_confirm_password form = Some password /\
  name <> "" /\ mail <> "" /\ (6 <= PyStr.len password)%nat.

(** No row has the user name or the address. *)
Definition is_new (name mail : string) (users : list Account) : Prop :=
  forall a, In a users ->
    username (account_user a) <> name /\ email (account_user a) <> Some mail.

End Spec.

(* ===================================================================== *)
(** ** A worked scenario *)
(* ===================================================================== *)

(** One toll plaza, a provider that resolves latitude 10.0 to an address at
    the plaza and everything else to an address away from it, and a route of
    12340 metres between any two points. *)
Module Scenario.
Import PyObj toll_logic models app.

Definition f10 : float := Eval vm_compute in PyFloat.of_Z_round 10.
Definition f11 : float := Eval vm_compute in PyFloat.of_Z_round 11.
Definition f20 : float := Eval vm_compute in PyFloat.of_Z_round 20.

(** The doubles [12.34] and [37.02]. *)
Definition f12_34 : float :=
  Eval vm_compute in PyFloat.div (PyFloat.of_Z_round 1234) (PyFloat.of_Z_round 100).
Definition f37_02 : float :=
  Eval vm_compute in PyFloat.div (PyFloat.of_Z_round 3702) (PyFloat.of_Z_round 100).

Definition address_reply (a : string) : pyobj :=
  PList [PDict [("formatted_address", PStr a)]].

Definition route_reply (value : pyobj) : pyobj :=
  PDict [("status", PStr "OK");
         ("rows", PList [PDict [("elements",
            PList [PDict [("status", PStr "OK");
                          ("distance", PDict [("text", PStr "12.3 km");
                                              ("value", value)])]])]])].

Definition geocoder (n : nat) (lat lng : float) : result pyobj :=
  if PyFloat.eqb lat f10 then Ok (address_reply " Plaza A, Gate 2 ")
  else Ok (address_reply "Ring Road").

Definition client : Client :=
  {| reverse_geocode_reply := geocoder;
     distance_matrix_reply := fun _ _ _ => Ok (route_reply (PInt 12340)) |}.

(** The same provider with the routing service down. *)
Definition client_no_route : Client :=
  {| reverse_geocode_reply := geocoder;
     distance_matrix_reply := fun _ _ _ => Raise (TransportError "timed out") |}.

(** The same provider with reverse geocoding down from the second request on. *)
Definition client_flaky : Client :=
  {| reverse_geocode_reply := fun n lat lng =>
       match n with
       | O => geocoder n lat lng
       | _ => Raise (ApiError "OVER_QUERY_LIMIT")
       end;
     distance_matrix_reply := fun _ _ _ => Ok (route_reply (PInt 12340)) |}.

(** A provider that reports a route of [2^1024] metres. *)
Definition client_far : Client :=
  {| reverse_geocode_reply := geocoder;
     distance_matrix_reply := fun _ _ _ => Ok (route_reply (PInt (2 ^ 1024))) |}.

(** A provider whose addresses are blank. *)
Definition client_blank : Client :=
  {| reverse_geocode_reply := fun _ _ _ =>
       Ok (PList [PDict [("place_id", PStr "ChIJ"); ("formatted_address", PStr "   ")]]);
     distance_matrix_reply := fun _ _ _ => Ok (route_reply (PInt 12340)) |}.

(** The names of [toll_logic] around a client, with a mail server that
    accepts every message. *)
Definition names_with (c : Client) : Globals :=
  {| gmaps := Some c;
     TOLL_ZONE_IDENTIFIERS :=
       load_toll_zone_identifiers
         (Some [("formatted_address", [Some " Plaza A "; None; Some "  "])]);
     EMAIL_ADDRESS := Some "tolls@example.org";
     EMAIL_PASSWORD := Some "secret";
     SMTP_SERVER := Some "smtp.example.org";
     SMTP_PORT := 587;
     smtp_session := fun _ => MessageAccepted |}.

(** The same with a database session whose queries are all answered. *)
Definition globals_with (c : Client) : Env :=
  {| toll_logic_names := names_with c; query_raises := fun _ => false |}.

Definition globals : Env := globals_with client.

(** The same provider refusing a coordinate that is no number, as the
    service does with INVALID_REQUEST. *)
Definition client_strict : Client :=
  {| reverse_geocode_reply := fun n lat lng =>
       if PyFloat.eqb lat lat && PyFloat.eqb lng lng then geocoder n lat lng
       else Raise (ApiError "INVALID_REQUEST");
     distance_matrix_reply := fun _ _ _ => Ok (route_reply (PInt 12340)) |}.

(** A provider that places every coordinate at the plaza. *)
Definition client_everywhere : Client :=
  {| reverse_geocode_reply := fun _ _ _ => Ok (address_reply "Plaza A");
     distance_matrix_reply := fun _ _ _ => Ok (route_reply (PInt 12340)) |}.

Definition plaza_everywhere : Env := globals_with client_everywhere.

(** The same process while the queries of its database session raise. *)
Definition session_down : Env :=
  {| toll_logic_names := names_with client; query_raises := fun _ => true |}.

Definition alice : User :=
  {| user_pk := 7; username := "alice"; email := Some "alice@example.org" |}.

Definition empty_world : World := {| requests := 0; table := []; outbox := [] |}.

Definition at_plaza : Sample :=
  {| subject := alice; latitude := f10; longitude := f20; observed_at := 1000 |}.
Definition off_plaza : Sample :=
  {| subject := alice; latitude := f11; longitude := f20; observed_at := 2000 |}.

(** Alice inside the zone: the world after her first sample at the plaza. *)
Definition inside_world : World :=
  Eval vm_compute in snd (process_sample globals at_plaza empty_world).

(** Her open record. *)
Definition open_record : TollRecord :=
  Eval vm_compute in
    new_TollRecord 1 7 f10 f20 "Plaza A, Gate 2" 1000 true.

(** The same record with its entry latitude lost. *)
Definition corrupted_record : TollRecord :=
  {| id := 1; user_id := 7; entry_lat := None; entry_lon := Some f20;
     entry_address := Some "Plaza A, Gate 2"; entry_timestamp := Some 1000;
     exit_lat := None; exit_lon := None; exit_address := None;
     exit_timestamp := None; distance_km := None; amount_due := None;
     paid := Some false; payment_timestamp := None;
     is_entry_only := Some true |}.

Definition corrupted_world : World :=
  {| requests := 2; table := [corrupted_record]; outbox := [] |}.

(** Bob, a second driver, with a trip already closed and not yet paid. *)
Definition bob : User :=
  {| user_pk := 8; username := "bob"; email := None |}.

Definition bob_closed : TollRecord :=
  {| id := 2; user_id := 8; entry_lat := Some f10; entry_lon := Some f20;
     entry_address := Some "Plaza A"; entry_timestamp := Some 500;
     exit_lat := Some f11; exit_lon := Some f20;
     exit_address := Some "Ring Road"; exit_timestamp := Some 900;
     distance_km := Some f10; amount_due := Some f20;
     paid := Some false; payment_timestamp := None;
     is_entry_only := Some false |}.

(** Alice inside the zone, beside Bob's closed trip. *)
Definition two_drivers : World :=
  {| requests := 2; table := [open_record; bob_closed]; outbox := [] |}.

(** The globals of a process that found no data file. *)
Definition globals_no_file : Env :=
  {| toll_logic_names :=
       {| gmaps := Some client;
          TOLL_ZONE_IDENTIFIERS := load_toll_zone_identifiers None;
          EMAIL_ADDRESS := None; EMAIL_PASSWORD := None;
          SMTP_SERVER := None; SMTP_PORT := 587;
          smtp_session := fun _ => MessageAccepted |};
     query_raises := fun _ => false |}.

(** A hasher for the examples: a hash is the salt's parity mark followed by
    the password. *)
Definition marked (password : string) (salt : nat) : string :=
  String (if Nat.even salt then "0"%char else "1"%char) password.

Definition mark_checks (pwhash password : string) : bool :=
  match pwhash with
  | String _ rest => String.eqb rest password
  | EmptyString => false
  end.

Definition example_hasher : Werkzeug :=
  {| generate_password_hash := marked;
     check_password_hash := mark_checks;
     check_generated := fun password _ => String.eqb_refl password |}.

Definition alice_account : Account :=
  {| account_user := alice; password_hash := Some "0wonderland" |}.

Definition carol_form : RegisterForm :=
  {| form_username := Some "carol"; form_email := Some "carol@example.org";
     form_password := Some "s3cret!"; form_confirm_password := Some "s3cret!" |}.

End Scenario.

(* ===================================================================== *)
(** ** The transition engine *)
(* ===================================================================== *)

Section TransitionEngine.
Import PyObj toll_logic models app Spec.

Variable g : Env.

Lemma first_by_entry_timestamp_desc_None rows :
  first_by_entry_timestamp_desc rows = None <-> rows = [].
Proof.
  split; [|intros ->; reflexivity].
  destruct rows as [|r rows]; [reflexivity|]. simpl.
  destruct (first_by_entry_timestamp_desc rows) as [r'|]; [|discriminate].
  destruct (newer r' r); discriminate.
Qed.

Lemma first_by_entry_timestamp_desc_In rows r :
  first_by_entry_timestamp_desc rows = Some r -> In r rows.
Proof.
  revert r. induction rows as [|r0 rows IH]; intros r; simpl; [discriminate|].
  destruct (first_by_entry_timestamp_desc rows) as [r'|].
  - destruct (newer r' r0); intros [= <-]; auto.
  - intros [= <-]; auto.
Qed.

(** The lookup, when the query is answered. *)
Lemma get_active_toll_entry_answered ts uid t :
  query_raises g ts = false ->
  get_active_toll_entry g ts uid t = first_by_entry_timestamp_desc (open_records uid t).
Proof. intros H. unfold get_active_toll_entry. now rewrite H. Qed.

Lemma get_active_toll_entry_None ts uid t :
  query_raises g ts = false ->
  (get_active_toll_entry g ts uid t = None <-> outside uid t).
Proof.
  intros H. rewrite (get_active_toll_entry_answered ts uid t H).
  apply first_by_entry_timestamp_desc_None.
Qed.

Lemma get_active_toll_entry_outside ts uid t :
  outside uid t -> get_active_toll_entry g ts uid t = None.
Proof.
  intros H. unfold get_active_toll_entry.
  destruct (query_raises g ts); [reflexivity|].
  now apply first_by_entry_timestamp_desc_None.
Qed.

Lemma get_active_toll_entry_first ts uid t r :
  get_active_toll_entry g ts uid t = Some r ->
  query_raises g ts = false /\
  first_by_entry_timestamp_desc (open_records uid t) = Some r.
Proof.
  unfold get_active_toll_entry.
  destruct (query_raises g ts); [discriminate | auto].
Qed.

(** What one answered lookup returned, another answered lookup over the
    same rows returns. *)
Lemma get_active_toll_entry_again ts ts' uid t r :
  get_active_toll_entry g ts uid t = Some r ->
  query_raises g ts' = false ->
  get_active_toll_entry g ts' uid t = Some r.
Proof.
  intros H Hq. apply get_active_toll_entry_first in H as [_ H].
  now rewrite (get_active_toll_entry_answered ts' uid t Hq).
Qed.

Lemma get_active_toll_entry_Some ts uid t r :
  get_active_toll_entry g ts uid t = Some r -> In r t /\ is_open_for uid r = true.
Proof.
  intros H. apply get_active_toll_entry_first in H as [_ H].
  apply first_by_entry_timestamp_desc_In in H.
  apply List.filter_In in H. exact H.
Qed.

Lemma is_open_for_spec uid r :
  is_open_for uid r = true <-> user_id r = uid /\ open r.
Proof.
  unfold is_open_for, open. rewrite andb_true_iff, Z.eqb_eq, bool_decide_eq_true.
  reflexivity.
Qed.

Lemma or_unavailable_stored_label a : or_unavailable a = stored_label a.
Proof. destruct a as [[|c s]|]; reflexivity. Qed.

(** The three ways through the handler, by the state of the subject and
    the classification of the sample. *)
Lemma api_update_location_entered u lat lon ts w :
  in_zone g lat lon (requests w) = true ->
  get_active_toll_entry g ts (user_pk u) (table w) = None ->
  let n1 := snd (is_in_toll_zone g lat lon (requests w)) in
  let geo := reverse_geocode g lat lon n1 in
  api_update_location g u lat lon ts w =
    ((Entered, location_processed),
     {| requests := snd geo;
        table := table w ++
                 [new_TollRecord (next_id (table w)) (user_pk u) lat lon
                                 (or_unavailable (fst (fst geo))) ts true];
        outbox := outbox w |}).
Proof.
  unfold in_zone, api_update_location. intros Hz Ha.
  destruct (is_in_toll_zone g lat lon (requests w)) as [z n1] eqn:E.
  simpl in Hz. subst z. rewrite Ha. simpl.
  destruct (reverse_geocode g lat lon n1) as [[a e] n2]. reflexivity.
Qed.

Lemma api_update_location_no_change u lat lon ts w :
  (in_zone g lat lon (requests w) = true /\
     get_active_toll_entry g ts (user_pk u) (table w) <> None) \/
  (in_zone g lat lon (requests w) = false /\
     get_active_toll_entry g ts (user_pk u) (table w) = None) ->
  api_update_location g u lat lon ts w =
    ((NoChange, location_processed),
     {| requests := snd (is_in_toll_zone g lat lon (requests w));
        table := table w; outbox := outbox w |}).
Proof.
  unfold in_zone, api_update_location.
  destruct (is_in_toll_zone g lat lon (requests w)) as [z n1] eqn:E. simpl.
  intros [[-> Ha] | [-> Ha]].
  - destruct (get_active_toll_entry g ts (user_pk u) (table w)); [reflexivity|congruence].
  - rewrite Ha. reflexivity.
Qed.

Lemma api_update_location_blocked u lat lon ts w r :
  in_zone g lat lon (requests w) = false ->
  get_active_toll_entry g ts (user_pk u) (table w) = Some r ->
  entry_lat r = None \/ entry_lon r = None ->
  api_update_location g u lat lon ts w =
    ((ExitBlocked, exit_not_finalized),
     {| requests := snd (is_in_toll_zone g lat lon (requests w));
        table := table w; outbox := outbox w |}).
Proof.
  unfold in_zone, api_update_location. intros Hz Ha Hc.
  destruct (is_in_toll_zone g lat lon (requests w)) as [z n1] eqn:E.
  simpl in Hz. subst z. rewrite Ha. simpl.
  destruct Hc as [-> | Hc]; [reflexivity|].
  rewrite Hc. destruct (entry_lat r); reflexivity.
Qed.

Lemma api_update_location_exited u lat lon ts w r e_lat e_lon :
  in_zone g lat lon (requests w) = false ->
  get_active_toll_entry g ts (user_pk u) (table w) = Some r ->
  entry_lat r = Some e_lat -> entry_lon r = Some e_lon ->
  let n1 := snd (is_in_toll_zone g lat lon (requests w)) in
  let geo := reverse_geocode g lat lon n1 in
  let dist := calc_dist g (PList [PFloat e_lat; PFloat e_lon])
                        (PList [PFloat lat; PFloat lon]) (snd geo) in
  let closed := finalize r lat lon (fst (fst geo)) ts (fst dist)
                         (Some (calculate_toll (fst dist))) in
  fst (api_update_location g u lat lon ts w) = (Exited closed, location_processed) /\
  requests (snd (api_update_location g u lat lon ts w)) = snd dist /\
  table (snd (api_update_location g u lat lon ts w)) = update_row closed (table w).
Proof.
  unfold in_zone, api_update_location. intros Hz Ha Hlat Hlon.
  destruct (is_in_toll_zone g lat lon (requests w)) as [z n1] eqn:E.
  simpl in Hz. subst z. rewrite Ha, Hlat, Hlon. simpl.
  destruct (reverse_geocode g lat lon n1) as [[a e] n2]. simpl.
  destruct (calc_dist _ _ _ n2) as [d n3]. simpl. auto.
Qed.

End TransitionEngine.

Import PyObj toll_logic models app Spec.

(** Rewriting a row never opens a record that was not open, so it cannot
    add to the open records of anybody. *)
Lemma open_records_update_row uid closed t :
  is_entry_only closed = Some false ->
  (length (open_records uid (update_row closed t)) <= length (open_records uid t))%nat.
Proof.
  intros Hc. unfold open_records, update_row.
  induction t as [|r t IH]; simpl; [lia|].
  destruct (id r =? id closed).
  - replace (is_open_for uid closed) with false.
    + destruct (is_open_for uid r); simpl; lia.
    + unfold is_open_for. rewrite Hc, bool_decide_eq_false_2 by discriminate.
      now rewrite andb_false_r.
  - destruct (is_open_for uid r); simpl; lia.
Qed.

Lemma open_records_app uid t1 t2 :
  open_records uid (t1 ++ t2) = open_records uid t1 ++ open_records uid t2.
Proof. apply List.filter_app. Qed.

Lemma filter_none {A} (f : A -> bool) (l : list A) :
  (forall x, In x l -> f x = false) -> List.filter f l = [].
Proof.
  induction l as [|a l IH]; intros H; simpl; [reflexivity|].
  rewrite (H a) by (left; reflexivity). apply IH. intros x Hx. apply H. now right.
Qed.

(** Under the invariant, closing the record the lookup returned leaves the
    subject with no open record. *)
Lemma outside_after_update_row g ts uid r closed t :
  at_most_one_open t ->
  get_active_toll_entry g ts uid t = Some r ->
  id closed = id r -> is_entry_only closed = Some false ->
  outside uid (update_row closed t).
Proof.
  intros Hinv Ha Hid Hc.
  assert (Hr : open_records uid t = [r]).
  { specialize (Hinv uid). apply get_active_toll_entry_first in Ha as [_ Ha].
    destruct (open_records uid t) as [|r1 [|r2 l]]; simpl in *; try discriminate; try lia.
    now injection Ha as ->. }
  unfold outside, open_records, update_row in *.
  apply filter_none. intros x Hx.
  apply List.in_map_iff in Hx as (r' & <- & Hin).
  destruct (id r' =? id closed) eqn:E.
  - unfold is_open_for. rewrite Hc, bool_decide_eq_false_2 by discriminate.
    now rewrite andb_false_r.
  - destruct (is_open_for uid r') eqn:O; [|reflexivity].
    assert (In r' (List.filter (is_open_for uid) t)) as Hf
      by (apply List.filter_In; auto).
    rewrite Hr in Hf. destruct Hf as [<- | []].
    rewrite Hid, Z.eqb_refl in E. discriminate.
Qed.

(** The handler has four outcomes, and what it leaves in the table is fixed
    by the outcome. *)
Lemma api_update_location_cases g u lat lon ts w :
  let res := api_update_location g u lat lon ts w in
  (fst (fst res) = NoChange /\ table (snd res) = table w) \/
  (fst (fst res) = ExitBlocked /\ table (snd res) = table w) \/
  (exists r, fst (fst res) = Entered /\ table (snd res) = table w ++ [r] /\
             get_active_toll_entry g ts (user_pk u) (table w) = None /\
             user_id r = user_pk u /\ is_entry_only r = Some true) \/
  (exists r closed, fst (fst res) = Exited closed /\
             table (snd res) = update_row closed (table w) /\
             get_active_toll_entry g ts (user_pk u) (table w) = Some r /\
             id closed = id r /\ is_entry_only closed = Some false).
Proof.
  unfold api_update_location.
  destruct (is_in_toll_zone g lat lon (requests w)) as [z n1].
  destruct z, (get_active_toll_entry g ts (user_pk u) (table w)) as [r|] eqn:Ha; simpl.
  - left; auto.
  - destruct (reverse_geocode g lat lon n1) as [[a e] n2]; simpl.
    right; right; left. eexists; repeat split; reflexivity.
  - destruct (entry_lat r) as [e_lat|]; [destruct (entry_lon r) as [e_lon|]|]; simpl.
    + destruct (reverse_geocode g lat lon n1) as [[a e] n2].
      destruct (calc_dist _ _ _ n2) as [d n3]; simpl.
      right; right; right. eexists r, _; repeat split; reflexivity.
    + right; left; auto.
    + right; left; auto.
  - left; auto.
Qed.

Lemma process_sample_preserves g s w :
  query_raises g (observed_at s) = false ->
  at_most_one_open (table w) ->
  at_most_one_open (table (snd (process_sample g s w))).
Proof.
  intros Hq Hinv. unfold process_sample.
  destruct (api_update_location_cases g (subject s) (latitude s) (longitude s) (observed_at s) w)
    as [[_ ->] | [[_ ->] | [(r & _ & -> & Ha & Hu & Ho) | (r & closed & _ & -> & _ & _ & Hc)]]];
    try assumption.
  - intros uid. rewrite open_records_app, length_app.
    destruct (Z.eq_dec uid (user_pk (subject s))) as [-> | Hne].
    + apply (get_active_toll_entry_None g _ _ _ Hq) in Ha. rewrite Ha. simpl.
      unfold open_records. simpl. destruct (is_open_for _ r); simpl; lia.
    + specialize (Hinv uid).
      replace (open_records uid [r]) with (@nil TollRecord); [simpl; lia|].
      unfold open_records; simpl. unfold is_open_for.
      rewrite Hu. destruct (Z.eqb_spec (user_pk (subject s)) uid); [congruence|reflexivity].
  - intros uid. etransitivity; [apply open_records_update_row; exact Hc | apply Hinv].
Qed.

Lemma run_preserves g samples w :
  lookups_answered g samples ->
  at_most_one_open (table w) -> at_most_one_open (table (run g samples w)).
Proof.
  unfold lookups_answered. intros Hq.
  revert w. induction samples as [|s samples IH]; intros w Hinv; simpl; [exact Hinv|].
  inversion Hq as [|s' l' Hs Hq']; subst.
  apply IH; [exact Hq'|]. apply process_sample_preserves; [exact Hs | exact Hinv].
Qed.

(** C1, as amended.  At most one open record per subject, at any time, as
    long as the lookups of the open record are answered: a location update
    whose lookup is answered keeps the invariant, so it holds after every
    prefix of every stream of samples on a session that answers; a record is
    added only when the lookup found no open record of the subject, it is
    then the only addition, and an exit closes the record the lookup found
    and leaves the subject without an open record. *)
Theorem at_most_one_open_record g :
  forall w, at_most_one_open (table w) ->
    (forall s,
       let res := process_sample g s w in
       let uid := user_pk (subject s) in
       let lookup := get_active_toll_entry g (observed_at s) uid (table w) in
       (query_raises g (observed_at s) = false ->
          at_most_one_open (table (snd res))) /\
       (lookup <> None -> length (table (snd res)) = length (table w)) /\
       (lookup = None ->
          table (snd res) = table w \/ exists r, table (snd res) = table w ++ [r]) /\
       (forall closed, fst (fst res) = Exited closed ->
          is_entry_only closed = Some false /\ outside uid (table (snd res)))) /\
    (forall samples k,
       lookups_answered g samples ->
       at_most_one_open (table (run g (take k samples) w))).
Proof.
  intros w Hinv. split.
  - intros s res uid lookup.
    split; [intros Hq; apply process_sample_preserves; [exact Hq | exact Hinv]|].
    subst lookup.
    subst res uid. unfold process_sample.
    destruct (api_update_location_cases g (subject s) (latitude s) (longitude s) (observed_at s) w)
      as [[Ho ->] | [[Ho ->] | [(r & Ho & -> & Ha & Hu & Hop) | (r & closed & Ho & -> & Ha & Hid & Hc)]]].
    + split; [reflexivity|]. split; [auto|].
      intros c Hc; rewrite Ho in Hc; discriminate.
    + split; [reflexivity|]. split; [auto|].
      intros c Hc; rewrite Ho in Hc; discriminate.
    + split; [congruence|]. split; [eauto|].
      intros c Hc; rewrite Ho in Hc; discriminate.
    + split; [intros _; unfold update_row; now rewrite List.length_map|].
      split; [congruence|].
      intros c Hc'. rewrite Ho in Hc'. injection Hc' as <-. split; [exact Hc|].
      eapply outside_after_update_row; eauto.
  - intros samples k Hq. apply run_preserves; [|exact Hinv].
    unfold lookups_answered in *. rewrite List.Forall_forall in *.
    intros s Hs. apply Hq. apply list_elem_of_In. apply list_elem_of_In in Hs.
    exact (subseteq_take k samples s Hs).
Qed.

Lemma at_most_one_open_record_witness :
  at_most_one_open (table Scenario.inside_world) /\
  at_most_one_open
    (table (run Scenario.globals
                (take 2 [Scenario.at_plaza; Scenario.off_plaza; Scenario.at_plaza])
                Scenario.inside_world)).
Proof.
  assert (H : at_most_one_open (table Scenario.inside_world)).
  { intros uid. unfold open_records. simpl.
    destruct (is_open_for uid _); simpl; lia. }
  split; [exact H|].
  refine (proj2 (at_most_one_open_record Scenario.globals Scenario.inside_world H)
                [Scenario.at_plaza; Scenario.off_plaza; Scenario.at_plaza] 2%nat _).
  repeat constructor.
Defined.

(** C1 as it is stated fails when a lookup raises: the [except] arm of
    [get_active_toll_entry] answers [None], the handler takes the subject
    for outside, and an in-zone sample gives her a second open record. *)
Lemma lookup_failure_opens_a_second_record :
  ~ invariant_kept Scenario.session_down Scenario.at_plaza Scenario.inside_world.
Proof.
  intros H.
  assert (H0 : at_most_one_open (table Scenario.inside_world)).
  { intros uid. unfold open_records. simpl.
    destruct (is_open_for uid _); simpl; lia. }
  specialize (H H0 7).
  assert (E : length (open_records 7
                        (table (snd (process_sample Scenario.session_down
                                       Scenario.at_plaza Scenario.inside_world))))
              = 2%nat) by (vm_compute; reflexivity).
  rewrite E in H. lia.
Qed.

Lemma sqlite_real_holds x : x <> S754_nan -> holds (sqlite_real x) x.
Proof.
  intros Hx. destruct x as [s|s| |s m e]; [| | congruence |].
  - exists (S754_zero false). split; [reflexivity|]. right. destruct s; reflexivity.
  - eexists. split; [reflexivity|]. now left.
  - eexists. split; [reflexivity|]. now left.
Qed.

Lemma sqlite_real_nan : sqlite_real S754_nan = None.
Proof. reflexivity. Qed.

(** C3, as amended.  A subject with no open record whose sample is
    classified in-zone gets exactly one new record, appended to the table: it
    belongs to the subject, carries the sample's timestamp and its
    coordinates as the store keeps them (the number of the sample when the
    coordinate is no NaN, nothing when it is), is open, has no exit, distance
    or amount field, and is labelled with the address resolved for the
    entry, or with "Address Unavailable" when that resolution failed.  The
    outcome is Entered. *)
Theorem entry_creates_one_open_record (g : Env) u lat lon ts w :
  outside (user_pk u) (table w) ->
  in_zone g lat lon (requests w) = true ->
  let res := api_update_location g u lat lon ts w in
  let resolved :=
    fst (reverse_geocode g lat lon (snd (is_in_toll_zone g lat lon (requests w)))) in
  exists r,
    fst res = (Entered, location_processed) /\
    table (snd res) = table w ++ [r] /\
    user_id r = user_pk u /\
    entry_lat r = sqlite_real lat /\ entry_lon r = sqlite_real lon /\
    (lat <> S754_nan -> holds (entry_lat r) lat) /\
    (lon <> S754_nan -> holds (entry_lon r) lon) /\
    entry_timestamp r = Some ts /\
    open r /\
    entry_address r = Some (stored_label (fst resolved)) /\
    (resolution_failed resolved -> entry_address r = Some "Address Unavailable") /\
    (forall label, fst resolved = Some label -> label <> "" ->
                   entry_address r = Some label) /\
    exit_lat r = None /\ exit_lon r = None /\ exit_address r = None /\
    exit_timestamp r = None /\ distance_km r = None /\ amount_due r = None /\
    paid r = Some false.
Proof.
  intros Hout Hz res resolved.
  apply (get_active_toll_entry_outside g ts) in Hout.
  pose proof (api_update_location_entered g u lat lon ts w Hz Hout) as E.
  simpl in E. subst res. rewrite E. simpl.
  eexists. split; [reflexivity|]. split; [reflexivity|]. simpl.
  rewrite or_unavailable_stored_label.
  repeat (split; [reflexivity|]).
  split; [apply sqlite_real_holds|]. split; [apply sqlite_real_holds|].
  repeat (split; [reflexivity|]).
  split; [|split; [|repeat split]].
  - intros [H | H]; fold resolved; rewrite H; reflexivity.
  - intros label H Hne. fold resolved. rewrite H.
    destruct label; [congruence | reflexivity].
Qed.

Lemma entry_creates_one_open_record_witness :
  outside 7 [] /\
  in_zone Scenario.globals Scenario.f10 Scenario.f20 0 = true /\
  exists r,
    table (snd (process_sample Scenario.globals Scenario.at_plaza Scenario.empty_world))
      = [r] /\
    entry_address r = Some "Plaza A, Gate 2" /\ open r.
Proof.
  assert (H1 : outside (user_pk Scenario.alice) (table Scenario.empty_world))
    by reflexivity.
  assert (H2 : in_zone Scenario.globals Scenario.f10 Scenario.f20
                       (requests Scenario.empty_world) = true)
    by (vm_compute; reflexivity).
  split; [exact H1|]. split; [exact H2|].
  destruct (entry_creates_one_open_record Scenario.globals Scenario.alice
              Scenario.f10 Scenario.f20 1000 Scenario.empty_world H1 H2)
    as (r & _ & Ht & _ & _ & _ & _ & _ & _ & Ho & Ha & _).
  exists r. split; [exact Ht|]. split; [exact Ha | exact Ho].
Defined.

(** C3 as it is stated fails for a sample whose latitude is NaN and which
    the provider places at the plaza: the record is created, and its entry
    latitude is NULL. *)
Lemma nan_latitude_is_stored_as_null :
  ~ entry_holds_coordinates Scenario.plaza_everywhere Scenario.alice
      S754_nan Scenario.f20 1000 Scenario.empty_world.
Proof.
  intros H.
  destruct (H eq_refl eq_refl) as (r & Ht & (y & Hy & _) & _).
  vm_compute in Ht. injection Ht as <-. discriminate.
Qed.



(** What finalization writes, whatever the providers answered. *)
Lemma finalize_fields r lat lon a ts d amount :
  let closed := finalize r lat lon a ts d amount in
  id closed = id r /\ user_id closed = user_id r /\
  entry_lat closed = entry_lat r /\ entry_lon closed = entry_lon r /\
  entry_address closed = entry_address r /\
  entry_timestamp closed = entry_timestamp r /\
  exit_lat closed = sqlite_real lat /\ exit_lon closed = sqlite_real lon /\
  exit_timestamp closed = Some ts /\
  paid closed = Some false /\ is_entry_only closed = Some false.
Proof. simpl. repeat split. Qed.

Lemma In_update_row closed r t :
  In r t -> id closed = id r -> In closed (update_row closed t).
Proof.
  intros Hin Hid. unfold update_row. apply List.in_map_iff.
  exists r. split; [|exact Hin]. now rewrite Hid, Z.eqb_refl.
Qed.

(** C5. A subject inside the zone, with an open record that has both entry
    coordinates, sends a not-in-zone sample and the distance estimator
    returns nothing: the handler still finalizes.  The outcome is Exited, the
    record is rewritten closed with distance 0.0 and amount 0.0, and it keeps
    its entry fields. *)
Theorem exit_completes_when_estimator_fails g u lat lon ts w r e_lat e_lon :
  get_active_toll_entry g ts (user_pk u) (table w) = Some r ->
  entry_lat r = Some e_lat -> entry_lon r = Some e_lon ->
  in_zone g lat lon (requests w) = false ->
  let n1 := snd (is_in_toll_zone g lat lon (requests w)) in
  let n2 := snd (reverse_geocode g lat lon n1) in
  fst (calc_dist g (PList [PFloat e_lat; PFloat e_lon])
                 (PList [PFloat lat; PFloat lon]) n2) = None ->
  let res := api_update_location g u lat lon ts w in
  exists closed,
    fst res = (Exited closed, location_processed) /\
    table (snd res) = update_row closed (table w) /\
    In closed (table (snd res)) /\
    id closed = id r /\
    is_entry_only closed = Some false /\
    distance_km closed = Some PyFloat.zero /\
    amount_due closed = Some PyFloat.zero /\
    entry_lat closed = entry_lat r /\ entry_lon closed = entry_lon r /\
    entry_address closed = entry_address r /\
    entry_timestamp closed = entry_timestamp r.
Proof.
  intros Ha Hlat Hlon Hz n1 n2 Hd res.
  destruct (api_update_location_exited g u lat lon ts w r e_lat e_lon Hz Ha Hlat Hlon)
    as (Ho & _ & Ht).
  subst res n1 n2. eexists. split; [exact Ho|]. split; [exact Ht|].
  split.
  { rewrite Ht. apply In_update_row with (r := r); [|reflexivity].
    apply (get_active_toll_entry_Some _ _ _ _ _ Ha). }
  rewrite Hd. simpl. repeat split.
Qed.

Lemma exit_completes_when_estimator_fails_witness :
  let g := Scenario.globals_with Scenario.client_no_route in
  let res := process_sample g Scenario.off_plaza Scenario.inside_world in
  exists closed,
    fst (fst res) = Exited closed /\ table (snd res) = [closed] /\
    distance_km closed = Some PyFloat.zero /\ amount_due closed = Some PyFloat.zero /\
    is_entry_only closed = Some false.
Proof.
  intros g res.
  assert (H1 : get_active_toll_entry g 2000 (user_pk Scenario.alice) (table Scenario.inside_world)
               = Some Scenario.open_record) by reflexivity.
  assert (H2 : in_zone g Scenario.f11 Scenario.f20 (requests Scenario.inside_world) = false)
    by (vm_compute; reflexivity).
  destruct (exit_completes_when_estimator_fails g Scenario.alice
              Scenario.f11 Scenario.f20 2000 Scenario.inside_world
              Scenario.open_record Scenario.f10 Scenario.f20
              H1 eq_refl eq_refl H2 ltac:(vm_compute; reflexivity))
    as (closed & Ho & Ht & _ & Hid & Hc & Hd & Hm & _).
  exists closed. subst res. unfold process_sample. simpl subject. simpl latitude.
  simpl longitude. simpl observed_at.
  rewrite Ho, Ht. unfold update_row. simpl List.map. rewrite Hid. simpl. auto.
Defined.



(** C10, as amended.  On exit, a failed reverse geocoding of the exit point
    does not stop finalization: the record is closed with the exit label
    "Address Unavailable", the timestamp of the sample, and the exit
    coordinates, the estimated distance (0.0 when there is none) and the toll
    computed from it, each as the store keeps a float: the number itself
    when it is no NaN, nothing when it is. *)
Theorem exit_label_unavailable_when_geocoding_fails g u lat lon ts w r e_lat e_lon :
  get_active_toll_entry g ts (user_pk u) (table w) = Some r ->
  entry_lat r = Some e_lat -> entry_lon r = Some e_lon ->
  in_zone g lat lon (requests w) = false ->
  let n1 := snd (is_in_toll_zone g lat lon (requests w)) in
  let geo := reverse_geocode g lat lon n1 in
  resolution_failed (fst geo) ->
  let dist := fst (calc_dist g (PList [PFloat e_lat; PFloat e_lon])
                             (PList [PFloat lat; PFloat lon]) (snd geo)) in
  let res := api_update_location g u lat lon ts w in
  exists closed,
    fst res = (Exited closed, location_processed) /\
    table (snd res) = update_row closed (table w) /\
    In closed (table (snd res)) /\
    id closed = id r /\
    is_entry_only closed = Some false /\
    exit_address closed = Some "Address Unavailable" /\
    exit_lat closed = sqlite_real lat /\ exit_lon closed = sqlite_real lon /\
    (lat <> S754_nan -> holds (exit_lat closed) lat) /\
    (lon <> S754_nan -> holds (exit_lon closed) lon) /\
    exit_timestamp closed = Some ts /\
    distance_km closed = sqlite_real (default PyFloat.zero dist) /\
    amount_due closed = sqlite_real (calculate_toll dist) /\
    (dist = None -> distance_km closed = Some PyFloat.zero /\
                    amount_due closed = Some PyFloat.zero).
Proof.
  intros Ha Hlat Hlon Hz n1 geo Hfail dist res.
  destruct (api_update_location_exited g u lat lon ts w r e_lat e_lon Hz Ha Hlat Hlon)
    as (Ho & _ & Ht).
  subst res dist geo n1. eexists. split; [exact Ho|]. split; [exact Ht|].
  split.
  { rewrite Ht. apply In_update_row with (r := r); [|reflexivity].
    apply (get_active_toll_entry_Some _ _ _ _ _ Ha). }
  simpl.
  assert (Hd : fst (calc_dist g (PList [PFloat e_lat; PFloat e_lon])
                      (PList [PFloat lat; PFloat lon])
                      (snd (reverse_geocode g lat lon
                              (snd (is_in_toll_zone g lat lon (requests w))))))
               = None ->
               sqlite_real (default PyFloat.zero
                  (fst (calc_dist g (PList [PFloat e_lat; PFloat e_lon])
                          (PList [PFloat lat; PFloat lon])
                          (snd (reverse_geocode g lat lon
                                  (snd (is_in_toll_zone g lat lon (requests w)))))))) =
                 Some PyFloat.zero /\
               sqlite_real (calculate_toll
                  (fst (calc_dist g (PList [PFloat e_lat; PFloat e_lon])
                          (PList [PFloat lat; PFloat lon])
                          (snd (reverse_geocode g lat lon
                                  (snd (is_in_toll_zone g lat lon (requests w)))))))) =
                 Some PyFloat.zero).
  { intros ->. split; reflexivity. }
  destruct Hfail as [-> | ->];
    (repeat (split; [reflexivity|]));
    (split; [apply sqlite_real_holds|]); (split; [apply sqlite_real_holds|]);
    (repeat (split; [reflexivity|])); exact Hd.
Qed.

(** C10 as it is stated fails for a sample whose latitude is NaN: the
    provider refuses the coordinate, so the sample is not in the zone and
    its label is unavailable; the record is closed, and its exit latitude is
    NULL. *)
Lemma nan_exit_latitude_is_stored_as_null :
  ~ exit_holds_coordinates (Scenario.globals_with Scenario.client_strict)
      Scenario.alice S754_nan Scenario.f20 2000 Scenario.inside_world.
Proof.
  intros H.
  destruct (H ltac:(left; vm_compute; reflexivity) _ eq_refl)
    as (_ & (y & Hy & _) & _).
  vm_compute in Hy. discriminate.
Qed.

Lemma exit_label_unavailable_when_geocoding_fails_witness :
  let g := Scenario.globals_with Scenario.client_flaky in
  let res := process_sample g Scenario.off_plaza Scenario.inside_world in
  exists closed,
    fst (fst res) = Exited closed /\
    exit_address closed = Some "Address Unavailable" /\
    is_entry_only closed = Some false.
Proof.
  intros g res.
  assert (H1 : get_active_toll_entry g 2000 (user_pk Scenario.alice) (table Scenario.inside_world)
               = Some Scenario.open_record) by reflexivity.
  assert (H2 : in_zone g Scenario.f11 Scenario.f20 (requests Scenario.inside_world) = false)
    by (vm_compute; reflexivity).
  destruct (exit_label_unavailable_when_geocoding_fails g Scenario.alice
              Scenario.f11 Scenario.f20 2000 Scenario.inside_world
              Scenario.open_record Scenario.f10 Scenario.f20
              H1 eq_refl eq_refl H2 ltac:(left; vm_compute; reflexivity))
    as (closed & Ho & _ & _ & _ & Hc & Hl & _).
  exists closed. subst res. unfold process_sample. simpl subject. simpl latitude.
  simpl longitude. simpl observed_at.
  rewrite Ho. simpl. auto.
Defined.

(* ===================================================================== *)
(** ** Zone membership *)
(* ===================================================================== *)

Lemma prefix_spec p s :
  String.prefix p s = true <-> exists post, s = p +:+ post.
Proof.
  revert p. induction s as [|d s IH]; intros [|c p]; simpl.
  - split; [intros _; exists ""; reflexivity | reflexivity].
  - split; [discriminate | intros [post H]; discriminate].
  - split; [intros _; exists (String d s); reflexivity | reflexivity].
  - destruct (Ascii.ascii_dec c d) as [-> | Hne].
    + rewrite IH. split; intros [post H]; exists post; [now rewrite H | now injection H].
    + split; [discriminate | intros [post H]; injection H; congruence].
Qed.

Lemma contains_spec needle hay :
  PyStr.contains needle hay = true <-> PyStr.substring_of needle hay.
Proof.
  unfold PyStr.substring_of. induction hay as [|d hay IH].
  - cbn [PyStr.contains]. rewrite orb_false_r, prefix_spec. split.
    + intros [post H]. exists "", post. exact H.
    + intros ([|c pre] & post & H); [exists post; exact H | discriminate].
  - cbn [PyStr.contains]. rewrite orb_true_iff, prefix_spec, IH. split.
    + intros [[post H] | (pre & post & H)].
      * exists "", post. exact H.
      * exists (String d pre), post. simpl. now rewrite H.
    + intros ([|c pre] & post & H).
      * left. exists post. exact H.
      * right. exists pre, post. simpl in H. now injection H.
Qed.

(** [reverse_geocode] answers with a label and no error, or with an error
    and no label; its error texts are never empty. *)
Lemma reverse_geocode_shape g lat lng n :
  (exists label, fst (reverse_geocode g lat lng n) = (Some label, None)) \/
  (exists c e, fst (reverse_geocode g lat lng n) = (None, Some (String c e))).
Proof.
  unfold reverse_geocode. destruct (gmaps g) as [client|]; simpl; [|right; eauto].
  destruct (reverse_geocode_reply client n lat lng) as [res|e]; simpl.
  - destruct (truthy res); [|right; eauto].
    destruct (getitem0 res) as [first|e]; simpl.
    + destruct (get first "formatted_address") as [fa|e]; simpl.
      * destruct (truthy fa); [|right; eauto].
        destruct (strip_method fa) as [s|e]; simpl; [left; eauto|].
        destruct e; right; eauto.
      * destruct e; right; eauto.
    + destruct e; right; eauto.
  - destruct e; right; eauto.
Qed.

Lemma partial_match_spec (S : gset string) address :
  existsb (fun zone_id => PyStr.truthy zone_id && PyStr.contains zone_id address)
          (elements S) = true
  <-> exists z, z ∈ S /\ z <> "" /\ PyStr.substring_of z address.
Proof.
  rewrite List.existsb_exists. split.
  - intros (z & Hin & Hz). apply andb_true_iff in Hz as [Ht Hc].
    exists z. split; [apply elem_of_elements, list_elem_of_In, Hin|].
    split; [destruct z; [discriminate | congruence] | apply contains_spec, Hc].
  - intros (z & Hin & Hne & Hc). exists z.
    split; [apply list_elem_of_In, elem_of_elements, Hin|].
    apply andb_true_iff. split; [destruct z; [congruence | reflexivity]|].
    apply contains_spec, Hc.
Qed.

(** C2. [is_in_toll_zone] answers [True] exactly when reverse geocoding
    gives a label (a non-empty address and no error) whose trimmed form is a
    member of the reference set or, failing that, contains a non-empty member
    of the set; with an empty reference set, a resolver error or no label it
    answers [False]. *)
Theorem is_in_toll_zone_iff g lat lng n :
  let zones := TOLL_ZONE_IDENTIFIERS g in
  let geo := fst (reverse_geocode g lat lng n) in
  (in_zone g lat lng n = true <->
     exists label,
       geo = (Some label, None) /\ label <> "" /\
       (PyStr.strip label ∈ zones \/
        exists z, z ∈ zones /\ z <> "" /\ PyStr.substring_of z (PyStr.strip label))) /\
  (zones = ∅ -> in_zone g lat lng n = false) /\
  (snd geo <> None -> in_zone g lat lng n = false) /\
  (fst geo = None \/ fst geo = Some "" -> in_zone g lat lng n = false).
Proof.
  intros zones geo.
  assert (Hcode : in_zone g lat lng n =
                  if bool_decide (zones = ∅) then false
                  else match geo with
                       | (Some (String c s), None) =>
                           bool_decide (PyStr.strip (String c s) ∈ zones)
                           || existsb (fun zone_id => PyStr.truthy zone_id &&
                                         PyStr.contains zone_id (PyStr.strip (String c s)))
                                      (elements zones)
                       | _ => false
                       end).
  { unfold in_zone, is_in_toll_zone. fold zones.
    destruct (bool_decide (zones = ∅)); [reflexivity|].
    subst geo.
    destruct (reverse_geocode_shape g lat lng n) as [[label H] | (c & e & H)];
      destruct (reverse_geocode g lat lng n) as [[a e'] n']; simpl in H;
      injection H as -> ->; simpl; [|reflexivity].
    destruct label as [|c s]; simpl; [reflexivity|].
    destruct (bool_decide (PyStr.strip (String c s) ∈ zones)); reflexivity. }
  split; [|split; [|split]].
  - rewrite Hcode. split.
    + destruct (bool_decide (zones = ∅)); [discriminate|].
      destruct geo as [[[|c s]|] [e|]]; try discriminate.
      intros H. exists (String c s). split; [reflexivity|]. split; [discriminate|].
      apply orb_true_iff in H as [H | H].
      * left. apply bool_decide_eq_true in H. exact H.
      * right. apply partial_match_spec, H.
    + intros (label & -> & Hne & H).
      destruct (bool_decide (zones = ∅)) eqn:E.
      { apply bool_decide_eq_true in E. rewrite E in H.
        destruct H as [H | (z & H & _)]; set_solver. }
      destruct label as [|c s]; [congruence|].
      apply orb_true_iff. destruct H as [H | H].
      * left. apply bool_decide_eq_true, H.
      * right. apply partial_match_spec, H.
  - intros E. rewrite Hcode, bool_decide_eq_true_2 by exact E. reflexivity.
  - intros E. rewrite Hcode. destruct (bool_decide (zones = ∅)); [reflexivity|].
    destruct geo as [[[|c s]|] [e|]]; simpl in E; congruence.
  - intros E. rewrite Hcode. destruct (bool_decide (zones = ∅)); [reflexivity|].
    destruct geo as [[[|c s]|] [e|]]; simpl in E; destruct E; congruence.
Qed.

Lemma is_in_toll_zone_iff_witness :
  in_zone Scenario.globals Scenario.f10 Scenario.f20 0 = true.
Proof.
  apply (proj1 (is_in_toll_zone_iff Scenario.globals Scenario.f10 Scenario.f20 0)).
  exists "Plaza A, Gate 2". split; [vm_compute; reflexivity|]. split; [discriminate|].
  right. exists "Plaza A".
  split; [apply (bool_decide_unpack _); vm_compute; exact I|].
  split; [discriminate|]. exists "", ", Gate 2". reflexivity.
Defined.

(** The loader never puts the empty string in the reference set. *)
Lemma load_toll_zone_identifiers_nonempty csv :
  "" ∉ load_toll_zone_identifiers csv.
Proof.
  unfold load_toll_zone_identifiers.
  destruct csv as [columns|]; [|set_solver].
  destruct (List.find _ columns) as [[name cells]|]; [|set_solver].
  rewrite elem_of_list_to_set, list_elem_of_In, List.filter_In.
  intros [_ H]. discriminate.
Qed.

(* ===================================================================== *)
(** ** The fare *)
(* ===================================================================== *)

Lemma leb_zero_not_ltb d :
  PyFloat.leb PyFloat.zero d = true -> PyFloat.ltb d PyFloat.zero = false.
Proof.
  unfold PyFloat.leb, PyFloat.ltb, PyFloat.zero, SFleb, SFltb.
  destruct d as [s|s| |s m e]; try destruct s; simpl; congruence.
Qed.

(** [calculate_toll] is not total by its form: off the distances of the
    specification the two tests before the [try] can raise, and so can the
    conversion inside it, which [except (ValueError, TypeError)] does not
    catch when an [int] is too large. *)
Lemma calculate_toll_obj_off_domain :
  calculate_toll_obj (PStr "12.34") = Raise TypeError /\
  calculate_toll_obj (PList []) = Raise TypeError /\
  calculate_toll_obj (PInt (2 ^ 1024)) = Raise OverflowError /\
  calculate_toll_obj (PInt 4) = Ok (PyFloat.of_Z_round 12) /\
  calculate_toll_obj (PInt (-4)) = Ok PyFloat.zero.
Proof. repeat split; vm_compute; reflexivity. Qed.

(** C7. On every distance of the specification, absent or a float (NaN and
    the infinities included), the call [calculate_toll(distance_km)] returns
    and does not raise, and what it returns depends on the argument alone:
    0.0 for no distance and for a negative one, and [round(d * 3.0, 2)] for
    every [d >= 0], which is [calculateFare] as the specification words it;
    the rate is the constant 3.0. *)
Theorem calculate_toll_spec :
  TOLL_RATE_PER_KM = Some (PyFloat.of_Z_round 3) /\
  (forall d : option float,
     calculate_toll_obj (distance_obj d) = Ok (calculate_toll d) /\
     calculate_toll d = calculateFare d) /\
  calculate_toll_obj PNone = Ok PyFloat.zero /\
  (forall d, PyFloat.ltb d PyFloat.zero = true ->
             calculate_toll_obj (PFloat d) = Ok PyFloat.zero) /\
  (forall d, PyFloat.leb PyFloat.zero d = true ->
             calculate_toll_obj (PFloat d) =
               Ok (PyFloat.round2 (PyFloat.mul d (PyFloat.of_Z_round 3)))).
Proof.
  assert (E : forall d : option float,
             calculate_toll_obj (distance_obj d) = Ok (calculate_toll d)).
  { intros [d|]; [|reflexivity].
    unfold calculate_toll_obj, calculate_toll, distance_obj, lt_zero, float_of.
    cbn [bind TOLL_RATE_PER_KM]. destruct (PyFloat.ltb d PyFloat.zero); reflexivity. }
  split; [reflexivity|]. split; [|split; [reflexivity|split]].
  - intros d. split; [apply E|]. destruct d as [d|]; reflexivity.
  - intros d H. change (PFloat d) with (distance_obj (Some d)).
    rewrite (E (Some d)). unfold calculate_toll. now rewrite H.
  - intros d H. change (PFloat d) with (distance_obj (Some d)).
    rewrite (E (Some d)). unfold calculate_toll.
    now rewrite (leb_zero_not_ltb d H).
Qed.

Lemma calculate_toll_spec_witness :
  PyFloat.ltb (PyFloat.of_Z_round (-5)) PyFloat.zero = true /\
  calculate_toll_obj (PFloat (PyFloat.of_Z_round (-5))) = Ok PyFloat.zero /\
  PyFloat.leb PyFloat.zero Scenario.f12_34 = true /\
  calculate_toll_obj (PFloat Scenario.f12_34) = Ok Scenario.f37_02 /\
  PyFloat.mul Scenario.f12_34 PyFloat.three <> Scenario.f37_02.
Proof.
  destruct calculate_toll_spec as (_ & _ & _ & Hneg & Hpos).
  assert (H1 : PyFloat.ltb (PyFloat.of_Z_round (-5)) PyFloat.zero = true) by reflexivity.
  assert (H2 : PyFloat.leb PyFloat.zero Scenario.f12_34 = true) by reflexivity.
  split; [exact H1|]. split; [exact (Hneg _ H1)|]. split; [exact H2|].
  split; [|vm_compute; discriminate].
  rewrite (Hpos _ H2). vm_compute. reflexivity.
Defined.

(** The float model on values whose Python results are known:
    [round(0.005, 2) == 0.01] (the double below 0.005 is above it),
    [round(0.125, 2) == 0.12] (an exact tie goes to the even digit),
    [12.34 * 3.0 == 37.019999999999996], and its toll is [37.02]. *)
Example round2_half_cent :
  PyFloat.round2 (PyFloat.div (PyFloat.of_Z_round 5) PyFloat.thousand)
  = PyFloat.div (PyFloat.of_Z_round 1) (PyFloat.of_Z_round 100).
Proof. vm_compute. reflexivity. Qed.

Example round2_tie_to_even :
  PyFloat.round2 (PyFloat.div (PyFloat.of_Z_round 1) (PyFloat.of_Z_round 8))
  = PyFloat.div (PyFloat.of_Z_round 12) (PyFloat.of_Z_round 100).
Proof. vm_compute. reflexivity. Qed.

Example product_is_rounded :
  let d := PyFloat.div (PyFloat.of_Z_round 1234) (PyFloat.of_Z_round 100) in
  PyFloat.mul d PyFloat.three = S754_finite false 5210101818914242 (-47) /\
  PyFloat.div (PyFloat.of_Z_round 3702) (PyFloat.of_Z_round 100)
    = S754_finite false 5210101818914243 (-47) /\
  calculate_toll (Some d) = PyFloat.div (PyFloat.of_Z_round 3702) (PyFloat.of_Z_round 100).
Proof. vm_compute. auto. Qed.

(** Scenario B of the specification: entry at the plaza, exit on the ring
    road with a route of 12340 metres: one closed record, 12.34 km and a
    toll of 37.02, and one bill in the outbox. *)
Example scenario_exit_with_route :
  let w := run Scenario.globals [Scenario.at_plaza; Scenario.off_plaza]
               Scenario.empty_world in
  exists r mail,
    table w = [r] /\ outbox w = [mail] /\
    is_entry_only r = Some false /\ paid r = Some false /\
    distance_km r = Some (PyFloat.div (PyFloat.of_Z_round 1234) (PyFloat.of_Z_round 100)) /\
    amount_due r = Some (PyFloat.div (PyFloat.of_Z_round 3702) (PyFloat.of_Z_round 100)) /\
    entry_address r = Some "Plaza A, Gate 2" /\ exit_address r = Some "Ring Road".
Proof. vm_compute. eexists _, _. repeat split. Qed.

(* ===================================================================== *)
(** ** The distance estimator *)
(* ===================================================================== *)

Lemma truediv_float_as_float v y :
  is_number v = true ->
  truediv_float v y =
    match as_float v with
    | Some x => Ok (PyFloat.div x y)
    | None => Raise OverflowError
    end.
Proof. destruct v; try discriminate; reflexivity. Qed.

(** [calc_dist] on a reply that has the shape the specification asks for. *)
Lemma calc_dist_available g origin destination n v :
  route_available g origin destination n v ->
  fst (calc_dist g origin destination n) =
    match as_float v with
    | Some x => Some (PyFloat.round2 (PyFloat.div x PyFloat.thousand))
    | None => None
    end.
Proof.
  intros (reply & el & Hr & (items & -> & Hst) & (items' & row & rows & els & E & Hrows & Hels)
          & (fields & -> & Hest) & (fields' & info & E' & Hdist & Hval & Hnum)).
  injection E as <-. injection E' as <-.
  unfold provider_reply in Hr. unfold calc_dist.
  destruct (gmaps g) as [client|]; [|discriminate].
  destruct (is_pair origin && is_pair destination); [|discriminate]. simpl negb. cbv iota.
  destruct (distance_matrix_reply client n origin destination) as [reply|e]; [|discriminate].
  injection Hr as ->.
  assert (Ht : truthy (PDict info) = true) by (destruct info; [discriminate | reflexivity]).
  assert (Hs : bool_decide (is_Some (assoc "value" info)) = true)
    by (apply bool_decide_eq_true; rewrite Hval; eauto).
  cbn [bind get getitem getitem0 and_then].
  rewrite Hst, Hrows.
  cbn [bind get getitem getitem0 and_then truthy].
  rewrite Hels.
  cbn [bind get getitem getitem0 and_then truthy].
  rewrite Hest.
  change (eq_str (PStr "OK") "OK") with true.
  cbn [bind get getitem getitem0 and_then].
  rewrite Hdist, Ht.
  cbn [bind get getitem getitem0 and_then contains_str].
  rewrite Hs, Hval.
  cbn [bind]. rewrite Hnum, (truediv_float_as_float _ _ Hnum).
  destruct (as_float v); reflexivity.
Qed.

Lemma eq_str_true o s : eq_str o s = true -> o = PStr s.
Proof.
  destruct o; try discriminate. simpl. intros H.
  apply String.eqb_eq in H. now subst.
Qed.

Lemma bind_None {A B} (m : result A) (k : A -> result (option B)) :
  (forall a, match k a with Ok r => r | Raise _ => None end = None) ->
  match bind m k with Ok r => r | Raise _ => None end = None.
Proof. intros H. destruct m; simpl; auto. Qed.

(** An arm that only logs, or raises, gives no distance. *)
Ltac no_distance :=
  cbn [bind and_then]; cbv iota;
  first
    [ discriminate
    | let H := fresh in
      intros H; exfalso; revert H;
      match goal with
      | |- ?X = Some _ -> False =>
          let E := fresh in
          assert (X = None) as E
            by (repeat first [reflexivity | apply bind_None; intros]);
          rewrite E; discriminate
      end ].

Lemma calc_dist_Some_inv g origin destination n km :
  fst (calc_dist g origin destination n) = Some km ->
  exists v x, route_available g origin destination n v /\
              as_float v = Some x /\
              km = PyFloat.round2 (PyFloat.div x PyFloat.thousand).
Proof.
  unfold calc_dist, route_available, provider_reply.
  destruct (gmaps g) as [client|]; [|discriminate].
  destruct (is_pair origin && is_pair destination); [|discriminate].
  cbn [negb]. cbv iota.
  destruct (distance_matrix_reply client n origin destination) as [reply|e]; [|discriminate].
  cbn [bind fst].
  destruct reply as [| | | | | |items]; try discriminate.
  cbn [get getitem bind and_then].
  destruct (eq_str match assoc "status" items with Some v => v | None => PNone end "OK") eqn:Hst;
    [|no_distance].
  apply eq_str_true in Hst.
  destruct (assoc "status" items) as [st|] eqn:Hst'; [subst st|discriminate].
  destruct (assoc "rows" items) as [rows|] eqn:Hrows; [|no_distance].
  destruct (truthy rows) eqn:Htr; [|no_distance].
  cbn [bind].
  destruct rows as [| | | |s|[|row rows]|d]; try discriminate; cbn [getitem0 bind];
    try (destruct s; [discriminate|]); cbn [get getitem bind]; try no_distance.
  destruct row as [| | | | | |row]; cbn [get getitem bind]; try no_distance.
  destruct (assoc "elements" row) as [elements|] eqn:Hels; [|no_distance].
  destruct (truthy elements) eqn:Hte; [|no_distance].
  cbn [bind and_then]. cbv iota.
  destruct elements as [| | | |s|[|el els]|d]; try discriminate; cbn [getitem0 bind];
    try (destruct s; [discriminate|]); cbn [get getitem bind]; try no_distance.
  destruct el as [| | | | | |fields]; cbn [get getitem bind]; try no_distance.
  destruct (eq_str match assoc "status" fields with Some v => v | None => PNone end "OK") eqn:Hest;
    [|no_distance].
  apply eq_str_true in Hest.
  destruct (assoc "status" fields) as [est|] eqn:Hest'; [subst est|discriminate].
  destruct (assoc "distance" fields) as [info|] eqn:Hdist; [|no_distance].
  destruct (truthy info) eqn:Hti; [|no_distance].
  destruct (contains_str "value" info) as [[|]|e] eqn:Hc; try no_distance.
  cbn [bind]. cbv iota.
  destruct info as [| | | | | |info]; cbn [getitem bind]; try no_distance.
  destruct (assoc "value" info) as [v|] eqn:Hv; [|no_distance].
  cbn [bind].
  destruct (is_number v) eqn:Hnum; [|no_distance].
  rewrite (truediv_float_as_float _ _ Hnum).
  destruct (as_float v) as [x|] eqn:Hx; [|no_distance].
  cbn [bind]. intros [= <-].
  exists v, x. split; [|auto].
  exists (PDict items), (PDict fields). split; [reflexivity|].
  split; [exists items; auto|].
  split; [exists items, row, rows, els; auto|].
  split; [exists fields; auto|].
  exists fields, info. auto.
Qed.

(** C6, as amended.  [calc_dist] returns a distance exactly when the request
    is answered, the overall status and the status of the single element are
    OK, and the element carries a numeric distance value that has a float
    (every float, and every integer that converts to one); the distance is
    then that value divided by 1000.0 and rounded to two decimals.  Without a
    client, with a malformed pair, on a provider error, or with no such
    value, it returns nothing. *)
Theorem calc_dist_iff g origin destination n :
  (forall km,
     fst (calc_dist g origin destination n) = Some km <->
     exists v x, route_available g origin destination n v /\
                 as_float v = Some x /\
                 km = PyFloat.round2 (PyFloat.div x PyFloat.thousand)) /\
  (gmaps g = None -> fst (calc_dist g origin destination n) = None) /\
  (is_pair origin && is_pair destination = false ->
     fst (calc_dist g origin destination n) = None) /\
  (provider_reply g origin destination n = None ->
     fst (calc_dist g origin destination n) = None) /\
  ((forall v, ~ route_available g origin destination n v) ->
     fst (calc_dist g origin destination n) = None).
Proof.
  assert (Hnone : (forall v, ~ route_available g origin destination n v) ->
                  fst (calc_dist g origin destination n) = None).
  { intros H. destruct (fst (calc_dist g origin destination n)) as [km|] eqn:E; [|reflexivity].
    apply calc_dist_Some_inv in E as (v & x & Hr & _). destruct (H v Hr). }
  split; [|split; [|split; [|split]]].
  - intros km. split; [apply calc_dist_Some_inv|].
    intros (v & x & Hr & Hx & ->).
    rewrite (calc_dist_available _ _ _ _ _ Hr), Hx. reflexivity.
  - intros H. unfold calc_dist. rewrite H. reflexivity.
  - intros H. apply Hnone. intros v (reply & el & Hr & _).
    unfold provider_reply in Hr. rewrite H in Hr. destruct (gmaps g); discriminate.
  - intros H. apply Hnone. intros v (reply & el & Hr & _). congruence.
  - exact Hnone.
Qed.

Lemma calc_dist_iff_witness :
  fst (calc_dist Scenario.globals
         (PList [PFloat Scenario.f10; PFloat Scenario.f20])
         (PList [PFloat Scenario.f11; PFloat Scenario.f20]) 0)
  = Some (PyFloat.div (PyFloat.of_Z_round 1234) (PyFloat.of_Z_round 100)).
Proof.
  apply (proj1 (calc_dist_iff Scenario.globals
                  (PList [PFloat Scenario.f10; PFloat Scenario.f20])
                  (PList [PFloat Scenario.f11; PFloat Scenario.f20]) 0)).
  exists (PInt 12340), (PyFloat.of_Z_round 12340).
  split; [|split; [reflexivity | vm_compute; reflexivity]].
  exists (Scenario.route_reply (PInt 12340)). eexists. split; [reflexivity|].
  split; [eexists; split; reflexivity|].
  split; [do 4 eexists; repeat split; reflexivity|].
  split; [eexists; split; reflexivity|].
  do 2 eexists. repeat split; reflexivity.
Defined.

(** C6, as the specification words it, fails on a route of [2^1024]
    metres: both statuses are OK and the value is an [int], but the division
    by [1000.0] raises [OverflowError] and [calc_dist] returns [None]. *)
Lemma calc_dist_numeric_value_without_distance :
  ~ distance_iff_route (Scenario.globals_with Scenario.client_far)
      (PList [PFloat Scenario.f10; PFloat Scenario.f20])
      (PList [PFloat Scenario.f11; PFloat Scenario.f20]) 0.
Proof.
  unfold distance_iff_route. intros [_ H].
  assert (E : fst (calc_dist (Scenario.globals_with Scenario.client_far)
                     (PList [PFloat Scenario.f10; PFloat Scenario.f20])
                     (PList [PFloat Scenario.f11; PFloat Scenario.f20]) 0) = None)
    by (vm_compute; reflexivity).
  rewrite E in H. apply (is_Some_None (A := float)). apply H.
  exists (PInt (2 ^ 1024)), (Scenario.route_reply (PInt (2 ^ 1024))).
  eexists. split; [reflexivity|].
  split; [eexists; split; reflexivity|].
  split; [do 4 eexists; repeat split; reflexivity|].
  split; [eexists; split; reflexivity|].
  do 2 eexists. repeat split; reflexivity.
Qed.

(* ===================================================================== *)
(** ** Rounding to a double is monotone *)
(* ===================================================================== *)

Import PyFloat Rounding.

(** *** The nearest integer, ties to even *)

Lemma round_half_even_near a b :
  0 < b -> near a b (round_half_even a b).
Proof.
  intros Hb. unfold near, round_half_even.
  pose proof (Z.div_mod a b ltac:(lia)) as E.
  pose proof (Z.mod_pos_bound a b Hb) as R.
  set (q := a / b) in *. set (r := a mod b) in *.
  destruct (Z.compare_spec (2 * r) b) as [H | H | H].
  - destruct (Z.even q) eqn:Ev.
    + split; [nia|]. split; [auto|]. intros. exfalso. nia.
    + assert (Z.even (q + 1) = true).
      { rewrite Z.even_add, Ev. reflexivity. }
      split; [nia|]. split; [auto|]. auto.
  - split; [nia|]. split; intros; exfalso; nia.
  - split; [nia|]. split; intros; exfalso; nia.
Qed.

Lemma near_mono a1 b1 N1 a2 b2 N2 :
  0 < b1 -> 0 < b2 -> near a1 b1 N1 -> near a2 b2 N2 ->
  a1 * b2 <= a2 * b1 -> N1 <= N2.
Proof.
  intros Hb1 Hb2 (H1 & E1 & O1) (H2 & E2 & O2) Hle.
  destruct (Z_le_gt_dec N1 N2) as [|Hgt]; [assumption|exfalso].
  assert (HA : (2 * N1 - 1) * b1 * b2 <= 2 * a1 * b2) by nia.
  assert (HB : 2 * a2 * b1 <= (2 * N2 + 1) * b2 * b1) by nia.
  assert (HC : (2 * N2 + 1) * (b1 * b2) <= (2 * N1 - 1) * (b1 * b2)).
  { apply Z.mul_le_mono_nonneg_r; nia. }
  assert (N1 = N2 + 1).
  { assert ((2 * N1 - 1) * (b1 * b2) <= (2 * N2 + 1) * (b1 * b2)) by nia.
    assert (2 * N1 - 1 <= 2 * N2 + 1).
    { apply Z.mul_le_mono_pos_r with (p := b1 * b2); nia. }
    lia. }
  subst N1.
  assert (T1 : 2 * a1 = (2 * (N2 + 1) - 1) * b1) by nia.
  assert (T2 : 2 * a2 = (2 * N2 + 1) * b2) by nia.
  specialize (O1 T1). specialize (E2 T2).
  rewrite Z.even_add, E2 in O1. discriminate.
Qed.

Lemma near_unique a b N1 N2 : 0 < b -> near a b N1 -> near a b N2 -> N1 = N2.
Proof.
  intros Hb H1 H2.
  assert (N1 <= N2) by (eapply near_mono; [| |exact H1|exact H2|]; lia).
  assert (N2 <= N1) by (eapply near_mono; [| |exact H2|exact H1|]; lia).
  lia.
Qed.

Lemma round_half_even_mono a1 b1 a2 b2 :
  0 < b1 -> 0 < b2 -> a1 * b2 <= a2 * b1 ->
  round_half_even a1 b1 <= round_half_even a2 b2.
Proof.
  intros H1 H2 H. apply (near_mono a1 b1 _ a2 b2 _ H1 H2); auto using round_half_even_near.
Qed.

Lemma round_half_even_scale a b c :
  0 < b -> 0 < c -> round_half_even (a * c) (b * c) = round_half_even a b.
Proof.
  intros Hb Hc. apply near_unique with (a := a * c) (b := b * c); [nia| |].
  - apply round_half_even_near. nia.
  - destruct (round_half_even_near a b Hb) as (H & E & O).
    split; [nia|]. split; intros T; [apply E | apply O]; nia.
Qed.

Lemma round_half_even_exact k : round_half_even k 1 = k.
Proof.
  apply near_unique with (a := k) (b := 1); [lia|apply round_half_even_near; lia|].
  split; [lia|]. split; intros; exfalso; lia.
Qed.

Lemma round_half_even_ge a b k :
  0 < b -> k * b <= a -> k <= round_half_even a b.
Proof.
  intros. rewrite <- (round_half_even_exact k).
  apply round_half_even_mono; lia.
Qed.

Lemma round_half_even_le a b k :
  0 < b -> a <= k * b -> round_half_even a b <= k.
Proof.
  intros. rewrite <- (round_half_even_exact k).
  apply round_half_even_mono; lia.
Qed.

(** *** The shift register of [binary_round_aux] *)

Lemma digits2_pos_bounds p :
  2 ^ (Zpos (digits2_pos p) - 1) <= Zpos p < 2 ^ Zpos (digits2_pos p).
Proof.
  induction p as [p IH | p IH |]; simpl digits2_pos.
  - rewrite Pos2Z.inj_succ, (Pos2Z.inj_xI p).
    replace (Z.succ (Zpos (digits2_pos p)) - 1) with (Z.succ (Zpos (digits2_pos p) - 1)) by lia.
    rewrite !Z.pow_succ_r by lia.
    set (x := 2 ^ (Zpos (digits2_pos p) - 1)) in *. set (y := 2 ^ Zpos (digits2_pos p)) in *.
    clearbody x y. lia.
  - rewrite Pos2Z.inj_succ, (Pos2Z.inj_xO p).
    replace (Z.succ (Zpos (digits2_pos p)) - 1) with (Z.succ (Zpos (digits2_pos p) - 1)) by lia.
    rewrite !Z.pow_succ_r by lia.
    set (x := 2 ^ (Zpos (digits2_pos p) - 1)) in *. set (y := 2 ^ Zpos (digits2_pos p)) in *.
    clearbody x y. lia.
  - simpl. lia.
Qed.

Lemma Zdigits2_log2 m : 0 < m -> Zdigits2 m = Z.log2 m + 1.
Proof.
  destruct m as [|p|p]; try lia. intros _. simpl Zdigits2.
  pose proof (digits2_pos_bounds p) as H.
  symmetry. rewrite (Z.log2_unique (Zpos p) (Zpos (digits2_pos p) - 1)); try lia.
  replace (Z.succ (Zpos (digits2_pos p) - 1)) with (Zpos (digits2_pos p)) by lia.
  exact H.
Qed.

(** One shift halves the integer part, moves its low bit to the round bit
    and folds the old round bit into the sticky bit. *)
Lemma shr_1_nonneg m r s :
  0 <= m -> shr_1 (Build_shr_record m r s) = Build_shr_record (m / 2) (Z.odd m) (r || s).
Proof.
  intros H. rewrite <- Z.div2_div.
  destruct m as [|[p|p|]|p]; try lia; reflexivity.
Qed.

Lemma shr_1_ok a b mrs : loc_ok a b mrs -> loc_ok a (b * 2) (shr_1 mrs).
Proof.
  destruct mrs as [m r s]. intros (Ha & Hb & Hm & Hr & Hs). cbn [shr_m shr_r shr_s] in Hm, Hr, Hs.
  assert (0 <= m) by (subst m; apply Z.div_pos; lia).
  rewrite shr_1_nonneg by assumption.
  pose proof (Z.mod_pos_bound a b Hb) as R.
  pose proof (Z.div_mod a b ltac:(lia)) as E.
  pose proof (Z.div_mod m 2 ltac:(lia)) as E2.
  pose proof (Z.mod_pos_bound m 2 ltac:(lia)) as R2.
  assert (Hq : a / (b * 2) = m / 2) by (rewrite <- Z.div_div by lia; now subst m).
  assert (Hmod : a mod (b * 2) = a mod b + b * (m mod 2)).
  { pose proof (Z.div_mod a (b * 2) ltac:(lia)) as E3. rewrite Hq in E3. subst m. nia. }
  unfold loc_ok. cbn [shr_m shr_r shr_s].
  split; [lia|]. split; [lia|]. split; [auto|].
  rewrite Hmod. rewrite orb_true_iff, Hr, Hs.
  rewrite (Zmod_odd m). destruct (Z.odd m).
  - split; [split; [nia|reflexivity]|].
    split; [intros T; split; nia|].
    intros [T1 T2]. destruct (Z_le_gt_dec b (2 * (a mod b))); [left; lia|right].
    split; lia.
  - split; [split; [discriminate|nia]|].
    split; [intros T; split; nia|].
    intros [T1 T2]. destruct (Z_le_gt_dec b (2 * (a mod b))); [left; lia|right].
    split; lia.
Qed.

Lemma iter_pos_shr_1_ok p : forall a b mrs,
  loc_ok a b mrs -> loc_ok a (b * 2 ^ Zpos p) (SpecFloat.iter_pos shr_1 p mrs).
Proof.
  induction p as [p IH | p IH |]; intros a b mrs H; cbn [SpecFloat.iter_pos].
  - apply shr_1_ok in H. apply IH in H. apply IH in H.
    replace (b * 2 ^ Zpos p~1) with (b * 2 * 2 ^ Zpos p * 2 ^ Zpos p); [exact H|].
    rewrite (Pos2Z.inj_xI p).
    replace (2 * Zpos p + 1) with (1 + Zpos p + Zpos p) by lia.
    rewrite !Z.pow_add_r by lia. change (2 ^ 1) with 2. ring.
  - apply IH in H. apply IH in H.
    replace (b * 2 ^ Zpos p~0) with (b * 2 ^ Zpos p * 2 ^ Zpos p); [exact H|].
    rewrite (Pos2Z.inj_xO p).
    replace (2 * Zpos p) with (Zpos p + Zpos p) by lia.
    rewrite !Z.pow_add_r by lia. ring.
  - apply shr_1_ok in H. exact H.
Qed.

Lemma shr_ok a b mrs e n :
  0 <= n -> loc_ok a b mrs ->
  loc_ok a (b * 2 ^ n) (fst (shr mrs e n)) /\ snd (shr mrs e n) = e + n.
Proof.
  intros Hn H. destruct n as [|p|p]; try lia; cbn [shr fst snd].
  - rewrite Z.mul_1_r, Z.add_0_r. auto.
  - split; [apply iter_pos_shr_1_ok, H | reflexivity].
Qed.

Lemma round_nearest_even_ok a b mrs :
  loc_ok a b mrs ->
  round_nearest_even (shr_m mrs) (loc_of_shr_record mrs) = round_half_even a b.
Proof.
  destruct mrs as [m r s]. intros (Ha & Hb & Hm & Hr & Hs).
  cbn [shr_m shr_r shr_s] in *. unfold round_half_even. rewrite <- Hm.
  pose proof (Z.mod_pos_bound a b Hb) as R.
  destruct (Z.compare_spec (2 * (a mod b)) b) as [H | H | H].
  - assert (r = true) as -> by (apply Hr; lia).
    assert (s = false) as ->.
    { destruct s; [|reflexivity]. destruct Hs as [Hs _]. specialize (Hs eq_refl). lia. }
    reflexivity.
  - assert (r = false) as ->.
    { destruct r; [|reflexivity]. destruct Hr as [Hr _]. specialize (Hr eq_refl). lia. }
    destruct s; reflexivity.
  - assert (r = true) as -> by (apply Hr; lia).
    assert (s = true) as -> by (apply Hs; lia).
    reflexivity.
Qed.

Lemma loc_ok_exact m : 0 <= m -> loc_ok m 1 (shr_record_of_loc m loc_Exact).
Proof.
  intros H. unfold loc_ok. cbn [shr_record_of_loc shr_m shr_r shr_s].
  rewrite Z.div_1_r, Z.mod_1_r. repeat split; try lia; try discriminate.
Qed.

(** [binary_round_aux] shifts to the exponent of the format, rounds the
    shifted value to the nearest integer and finishes. *)
Lemma binary_round_aux_spec s mx ex lx a b :
  loc_ok a b (shr_record_of_loc mx lx) ->
  ex <= fexp prec emax (Zdigits2 mx + ex) ->
  binary_round_aux prec emax s mx ex lx =
    finish s (round_half_even a (b * 2 ^ (fexp prec emax (Zdigits2 mx + ex) - ex)))
           (fexp prec emax (Zdigits2 mx + ex)).
Proof.
  intros Hloc Hle. unfold binary_round_aux, finish.
  set (e1 := fexp prec emax (Zdigits2 mx + ex)) in *.
  unfold shr_fexp at 1. fold e1.
  destruct (shr_ok a b (shr_record_of_loc mx lx) ex (e1 - ex) ltac:(lia) Hloc) as [H1 H2].
  destruct (shr (shr_record_of_loc mx lx) ex (e1 - ex)) as [mrs' e'].
  cbn [fst snd] in H1, H2. subst e'.
  rewrite (round_nearest_even_ok _ _ _ H1).
  replace (ex + (e1 - ex)) with e1 by lia. reflexivity.
Qed.

(** *** Values in units of [2^unit_exp] *)

Lemma pow2_pos k : 0 <= k -> 0 < 2 ^ k.
Proof. intros. apply Z.pow_pos_nonneg; lia. Qed.

(** [2^L * b <= a < 2^(L+1) * b] for [L] the binary logarithm of the quotient. *)
Lemma log2_div_bounds a b :
  0 < b -> b <= a ->
  2 ^ Z.log2 (a / b) * b <= a < 2 ^ (Z.log2 (a / b) + 1) * b.
Proof.
  intros Hb Hab.
  assert (Hq : 0 < a / b) by (apply Z.div_str_pos; lia).
  pose proof (Z.log2_spec (a / b) Hq) as [L1 L2].
  pose proof (Z.div_mod a b ltac:(lia)) as E.
  pose proof (Z.mod_pos_bound a b Hb) as R.
  replace (Z.succ (Z.log2 (a / b))) with (Z.log2 (a / b) + 1) in L2 by lia.
  set (x := 2 ^ Z.log2 (a / b)) in *. set (y := 2 ^ (Z.log2 (a / b) + 1)) in *.
  clearbody x y. nia.
Qed.

Lemma log2_div_unique a b L :
  0 < b -> 0 <= L -> 2 ^ L * b <= a < 2 ^ (L + 1) * b -> Z.log2 (a / b) = L.
Proof.
  intros Hb HL [H1 H2]. apply Z.log2_unique; [exact HL|].
  replace (Z.succ L) with (L + 1) by lia. split.
  - apply Z.div_le_lower_bound; lia.
  - apply Z.div_lt_upper_bound; lia.
Qed.

Lemma log2_div_scale a b k :
  0 < b -> b <= a -> 0 <= k ->
  Z.log2 (a * 2 ^ k / b) = Z.log2 (a / b) + k.
Proof.
  intros Hb Hab Hk.
  destruct (log2_div_bounds a b Hb Hab) as [H1 H2].
  pose proof (Z.log2_nonneg (a / b)) as HL.
  pose proof (pow2_pos k Hk) as Hp.
  apply log2_div_unique; [exact Hb | lia |].
  replace (Z.log2 (a / b) + k + 1) with (Z.log2 (a / b) + 1 + k) by lia.
  rewrite (Z.pow_add_r 2 (Z.log2 (a / b) + 1) k), (Z.pow_add_r 2 (Z.log2 (a / b)) k) by lia.
  set (x := 2 ^ Z.log2 (a / b)) in *. set (y := 2 ^ (Z.log2 (a / b) + 1)) in *.
  set (z := 2 ^ k) in *. clearbody x y z. nia.
Qed.

Lemma log2_div_mono a1 b1 a2 b2 :
  0 < b1 -> 0 < b2 -> b1 <= a1 -> a1 * b2 <= a2 * b1 ->
  Z.log2 (a1 / b1) <= Z.log2 (a2 / b2).
Proof.
  intros Hb1 Hb2 H1 Hle. apply Z.log2_le_mono.
  apply Z.div_le_lower_bound; [lia|].
  pose proof (Z.div_mod a1 b1 ltac:(lia)) as E.
  pose proof (Z.mod_pos_bound a1 b1 Hb1) as R.
  assert (0 < a1 / b1) by (apply Z.div_str_pos; lia).
  nia.
Qed.

(** Rounding [(a / b) * 2^ex], with [mx] the integer part of [a / b], is
    rounding [a * 2^(ex - unit_exp) / b] units. *)
Lemma binary_round_aux_nearest s mx ex lx a b :
  loc_ok a b (shr_record_of_loc mx lx) ->
  0 < mx -> unit_exp <= ex ->
  ex <= fexp prec emax (Zdigits2 mx + ex) ->
  binary_round_aux prec emax s mx ex lx = nearest_double s (a * 2 ^ (ex - unit_exp)) b.
Proof.
  intros Hloc Hmx Hu Hle.
  rewrite (binary_round_aux_spec s mx ex lx a b Hloc Hle).
  unfold nearest_double, mantissa_of, exponent_of.
  destruct Hloc as (Ha & Hb & Hm & _).
  assert (Hm' : mx = a / b) by (destruct lx as [|[| |]]; exact Hm).
  assert (Hab : b <= a).
  { destruct (Z_le_gt_dec b a); [assumption|]. rewrite Z.div_small in Hm' by lia. lia. }
  rewrite (log2_div_scale a b (ex - unit_exp)) by lia.
  rewrite (Zdigits2_log2 mx Hmx) in Hle |- *. rewrite <- Hm'.
  replace (Z.log2 mx + (ex - unit_exp) + 1 + unit_exp) with (Z.log2 mx + 1 + ex) by lia.
  set (e1 := fexp prec emax (Z.log2 mx + 1 + ex)) in *. clearbody e1.
  f_equal.
  replace (e1 - unit_exp) with ((e1 - ex) + (ex - unit_exp)) by lia.
  rewrite Z.pow_add_r, Z.mul_assoc by lia.
  symmetry. apply round_half_even_scale.
  - pose proof (pow2_pos (e1 - ex) ltac:(lia)). nia.
  - apply pow2_pos. lia.
Qed.

(** What [finish] leaves of a rounded mantissa [0 <= N <= 2^53]. *)

(** *** The rounded mantissa, renormalized, and its order *)

Lemma shr_nonpos mrs e n : n <= 0 -> shr mrs e n = (mrs, e).
Proof. destruct n; try reflexivity. lia. Qed.

Lemma finish_normal_form s N e :
  -1074 <= e -> 0 <= N <= 2 ^ 53 -> finish s N e = normal_form s N e.
Proof.
  intros He HN. unfold finish, normal_form, shr_fexp.
  destruct (Z.eqb_spec N 0) as [-> | Hz].
  { rewrite shr_nonpos; [reflexivity|].
    unfold fexp, emin, prec, emax. cbn [Zdigits2]. lia. }
  destruct (Z.eqb_spec N (2 ^ 53)) as [-> | Ht].
  { replace (fexp prec emax (Zdigits2 (2 ^ 53) + e) - e) with 1.
    - cbn [shr]. change (SpecFloat.iter_pos shr_1 1 (shr_record_of_loc (2 ^ 53) loc_Exact))
        with (Build_shr_record (2 ^ 52) false false).
      cbn [shr_m]. change (2 ^ 52) with (Zpos (2 ^ 52)). cbv iota.
      change (emax - prec) with 971. reflexivity.
    - change (Zdigits2 (2 ^ 53)) with 54. unfold fexp, emin, prec, emax. lia. }
  rewrite shr_nonpos.
  - cbn [shr_record_of_loc shr_m]. destruct N as [|p|p]; try lia.
    change (emax - prec) with 971. reflexivity.
  - rewrite Zdigits2_log2 by lia.
    assert (Z.log2 N < 53) by (apply Z.log2_lt_pow2; lia).
    unfold fexp, emin, prec, emax. lia.
Qed.

Lemma SFleb_finite_pos m1 e1 m2 e2 :
  e1 < e2 \/ (e1 = e2 /\ (m1 <= m2)%positive) ->
  SFleb (S754_finite false m1 e1) (S754_finite false m2 e2) = true.
Proof.
  unfold SFleb, SFcompare. intros [H | [-> H]].
  - rewrite (proj2 (Z.compare_lt_iff e1 e2) H). reflexivity.
  - rewrite Z.compare_refl. fold (Pos.compare m1 m2).
    destruct (Pos.compare_spec m1 m2); try reflexivity. lia.
Qed.

(** The order of two rounded mantissas with their exponents. *)

Lemma normal_form_leb N1 e1 N2 e2 :
  0 <= N1 <= 2 ^ 53 -> 0 <= N2 <= 2 ^ 53 ->
  mantissa_le N1 e1 N2 e2 ->
  SFleb (normal_form false N1 e1) (normal_form false N2 e2) = true.
Proof.
  intros H1 H2 (He & Heq & Hlt). unfold normal_form.
  assert (P52 : 2 ^ 52 = 4503599627370496) by reflexivity.
  assert (P53 : 2 ^ 53 = 9007199254740992) by reflexivity.
  destruct (Z.eqb_spec N1 0) as [Z1|Z1]; destruct (Z.eqb_spec N2 0) as [Z2|Z2];
  destruct (Z.eqb_spec N1 (2 ^ 53)) as [T1|T1]; destruct (Z.eqb_spec N2 (2 ^ 53)) as [T2|T2];
  repeat match goal with
         | |- context [?a <=? ?b] => destruct (Z.leb_spec a b)
         end;
  try reflexivity; try lia;
  try (apply SFleb_finite_pos; lia).
Qed.

(** *** The nearest double grows with the value *)

Lemma exponent_of_ge A B : -1074 <= exponent_of A B.
Proof. unfold exponent_of, fexp, emin, emax, prec. lia. Qed.

Lemma exponent_of_mono A1 B1 A2 B2 :
  0 < B1 -> 0 < B2 -> B1 <= A1 -> A1 * B2 <= A2 * B1 ->
  exponent_of A1 B1 <= exponent_of A2 B2.
Proof.
  intros. pose proof (log2_div_mono A1 B1 A2 B2 ltac:(lia) ltac:(lia) ltac:(lia) ltac:(lia)).
  unfold exponent_of, fexp, emin, emax, prec. lia.
Qed.

Lemma mantissa_of_bounds A B :
  0 < B -> B <= A ->
  0 <= mantissa_of A B <= 2 ^ 53 /\
  (-1074 < exponent_of A B -> 2 ^ 52 <= mantissa_of A B).
Proof.
  intros HB HA. unfold mantissa_of.
  pose proof (exponent_of_ge A B) as He.
  destruct (log2_div_bounds A B HB HA) as [L1 L2].
  pose proof (Z.log2_nonneg (A / B)) as HL.
  set (L := Z.log2 (A / B)) in *.
  assert (Hk : 0 <= exponent_of A B - unit_exp) by (unfold unit_exp; lia).
  pose proof (pow2_pos _ Hk) as Hp.
  assert (Hd : 0 < B * 2 ^ (exponent_of A B - unit_exp)) by nia.
  split; [split|].
  - apply round_half_even_ge; [exact Hd | lia].
  - apply round_half_even_le; [exact Hd|].
    assert (L + 1 <= 53 + (exponent_of A B - unit_exp)).
    { unfold exponent_of, fexp, emin, emax, prec, unit_exp. fold L. lia. }
    assert (Hpow : 2 ^ (L + 1) <= 2 ^ (53 + (exponent_of A B - unit_exp)))
      by (apply Z.pow_le_mono_r; lia).
    rewrite (Z.pow_add_r 2 53) in Hpow by lia.
    set (x := 2 ^ (L + 1)) in *. set (y := 2 ^ (exponent_of A B - unit_exp)) in *.
    set (z := 2 ^ 53) in *. clearbody x y z. nia.
  - intros Hn. apply round_half_even_ge; [exact Hd|].
    assert (E : L = 52 + (exponent_of A B - unit_exp)).
    { revert Hn. unfold exponent_of, fexp, emin, emax, prec, unit_exp. fold L. lia. }
    rewrite E in L1. rewrite Z.pow_add_r in L1 by lia.
    set (y := 2 ^ (exponent_of A B - unit_exp)) in *.
    set (z := 2 ^ 52) in *. clearbody y z. nia.
Qed.

Lemma nearest_double_normal_form s A B :
  0 < B -> B <= A ->
  nearest_double s A B = normal_form s (mantissa_of A B) (exponent_of A B).
Proof.
  intros HB HA. unfold nearest_double.
  apply finish_normal_form; [apply exponent_of_ge | apply mantissa_of_bounds; assumption].
Qed.

Lemma mantissa_of_mono A1 B1 A2 B2 :
  0 < B1 -> 0 < B2 -> B1 <= A1 -> B2 <= A2 -> A1 * B2 <= A2 * B1 ->
  mantissa_le (mantissa_of A1 B1) (exponent_of A1 B1)
              (mantissa_of A2 B2) (exponent_of A2 B2).
Proof.
  intros HB1 HB2 HA1 HA2 Hle.
  pose proof (exponent_of_mono A1 B1 A2 B2 HB1 HB2 HA1 Hle) as He.
  pose proof (exponent_of_ge A1 B1) as Hg.
  split; [exact He|]. split.
  - intros E. unfold mantissa_of. rewrite E.
    assert (Hk : 0 <= exponent_of A2 B2 - unit_exp) by (unfold unit_exp; lia).
    pose proof (pow2_pos _ Hk) as Hp.
    set (y := 2 ^ (exponent_of A2 B2 - unit_exp)) in *. clearbody y.
    apply round_half_even_mono; nia.
  - intros Hlt. apply mantissa_of_bounds; lia.
Qed.

Lemma nearest_double_mono A1 B1 A2 B2 :
  0 < B1 -> 0 < B2 -> B1 <= A1 -> B2 <= A2 -> A1 * B2 <= A2 * B1 ->
  SFleb (nearest_double false A1 B1) (nearest_double false A2 B2) = true.
Proof.
  intros HB1 HB2 HA1 HA2 Hle.
  rewrite !nearest_double_normal_form by assumption.
  apply normal_form_leb.
  - apply mantissa_of_bounds; assumption.
  - apply mantissa_of_bounds; assumption.
  - apply mantissa_of_mono; assumption.
Qed.

(** *** The doubles that are values of the type *)

Lemma bounded_facts m e :
  bounded prec emax m e = true ->
  -1074 <= e <= 971 /\ Zpos m < 2 ^ 53 /\ (-1074 < e -> 2 ^ 52 <= Zpos m).
Proof.
  unfold bounded, canonical_mantissa. intros H.
  apply andb_true_iff in H as [Hc He].
  apply Z.eqb_eq in Hc. apply Z.leb_le in He.
  pose proof (digits2_pos_bounds m) as [D1 D2].
  set (d := Zpos (digits2_pos m)) in *.
  assert (Hd : 0 < d) by (subst d; lia).
  unfold fexp, emin, prec, emax in *.
  split; [lia|]. split.
  - assert (d <= 53) by lia.
    assert (2 ^ d <= 2 ^ 53) by (apply Z.pow_le_mono_r; lia). lia.
  - intros Hn. assert (d = 53) as E by lia. rewrite E in D1. exact D1.
Qed.

Lemma scaled_value_lt m1 e1 m2 e2 :
  bounded prec emax m1 e1 = true -> bounded prec emax m2 e2 = true ->
  SFltb (S754_finite false m1 e1) (S754_finite false m2 e2) = true ->
  Zpos m1 * 2 ^ (e1 + 1074) < Zpos m2 * 2 ^ (e2 + 1074).
Proof.
  intros B1 B2. apply bounded_facts in B1 as (E1 & U1 & L1).
  apply bounded_facts in B2 as (E2 & U2 & L2).
  unfold SFltb, SFcompare.
  destruct (Z.compare_spec e1 e2) as [-> | Hlt | Hgt]; try discriminate.
  - fold (Pos.compare m1 m2). destruct (Pos.compare_spec m1 m2); try discriminate.
    intros _. pose proof (pow2_pos (e2 + 1074) ltac:(lia)). nia.
  - intros _. specialize (L2 ltac:(lia)).
    assert (H : 2 ^ (e1 + 1074 + 1) <= 2 ^ (e2 + 1074)) by (apply Z.pow_le_mono_r; lia).
    rewrite Z.pow_add_r in H by lia. change (2 ^ 1) with 2 in H.
    pose proof (pow2_pos (e1 + 1074) ltac:(lia)).
    set (x := 2 ^ (e1 + 1074)) in *. set (y := 2 ^ (e2 + 1074)) in *.
    change (2 ^ 53) with 9007199254740992 in *.
    change (2 ^ 52) with 4503599627370496 in *.
    clearbody x y. nia.
Qed.

(** *** Multiplication by the rate, and the division that reads hundredths back *)

Lemma mul_three_nearest m e :
  bounded prec emax m e = true ->
  mul (S754_finite false m e) three =
    nearest_double false (Zpos m * 2 ^ (e + 1074) * (3 * 2 ^ 51)) 1.
Proof.
  intros B. apply bounded_facts in B as (E & U & L).
  unfold mul, three, SFmul. cbn [xorb].
  rewrite (binary_round_aux_nearest false _ _ loc_Exact (Zpos (m * 6755399441055744)) 1).
  - f_equal. unfold unit_exp.
    replace (e + -51 - -1125) with (e + 1074) by lia.
    rewrite Pos2Z.inj_mul. change (Zpos 6755399441055744) with (3 * 2 ^ 51). ring.
  - apply loc_ok_exact. lia.
  - lia.
  - unfold unit_exp. lia.
  - rewrite Zdigits2_log2 by lia. rewrite Pos2Z.inj_mul.
    pose proof (Z.log2_mul_below (Zpos m) (Zpos 6755399441055744) ltac:(lia) ltac:(lia)) as H.
    change (Z.log2 (Zpos 6755399441055744)) with 52 in H.
    pose proof (Z.log2_nonneg (Zpos m)).
    unfold fexp, emin, prec, emax. lia.
Qed.

Lemma div_hundred_nearest s n :
  div (S754_finite s n 0) (S754_finite false 100 0) =
    nearest_double s (Zpos n * 2 ^ 1125) 100.
Proof.
  unfold div, SFdiv, SFdiv_core_binary.
  change (Zdigits2 100) with 7. cbn [Zdigits2].
  pose proof (digits2_pos_bounds n) as [D1 D2].
  set (d := Zpos (digits2_pos n)) in *.
  assert (Hd : 0 < d) by (subst d; lia).
  rewrite !Z.add_0_r, Z.sub_0_r.
  set (e' := Z.min (fexp prec emax (d - 7)) 0).
  assert (He : e' = Z.min (d - 60) 0) by (unfold e', fexp, emin, prec, emax; lia).
  assert (Hm : (match 0 - e' with
                | Zpos _ => Z.shiftl (Zpos n) (0 - e')
                | Z0 => Zpos n
                | Zneg _ => 0
                end) = Zpos n * 2 ^ (- e')).
  { replace (0 - e') with (- e') by lia.
    destruct (- e') as [|p|p] eqn:E; [simpl; lia | apply Z.shiftl_mul_pow2; lia | lia]. }
  rewrite Hm. clear Hm.
  set (a := Zpos n * 2 ^ (- e')).
  assert (Ha : 2 ^ 59 <= a).
  { unfold a. assert (59 <= d - 1 + - e') by lia.
    assert (H1 : 2 ^ 59 <= 2 ^ (d - 1 + - e')) by (apply Z.pow_le_mono_r; lia).
    rewrite Z.pow_add_r in H1 by lia.
    pose proof (pow2_pos (- e') ltac:(lia)).
    set (x := 2 ^ (d - 1)) in *. set (y := 2 ^ (- e')) in *. clearbody x y. nia. }
  pose proof (Z.div_mod a 100 ltac:(lia)) as Edm.
  pose proof (Z.mod_pos_bound a 100 ltac:(lia)) as R.
  unfold Z.div, Z.modulo in Edm, R.
  destruct (Z.div_eucl a 100) as [q r] eqn:Eqr. cbn [xorb].
  assert (Hq : q = a / 100) by (unfold Z.div; now rewrite Eqr).
  assert (Hr : r = a mod 100) by (unfold Z.modulo; now rewrite Eqr).
  change (2 ^ 59) with 576460752303423488 in Ha.
  assert (Hq52 : 2 ^ 52 <= q).
  { change (2 ^ 52) with 4503599627370496. lia. }
  rewrite (binary_round_aux_nearest (xorb s false) q e' _ a 100).
  - rewrite xorb_false_r. f_equal. unfold a, unit_exp.
    rewrite <- Z.mul_assoc, <- Z.pow_add_r by lia. f_equal. f_equal. lia.
  - unfold loc_ok. rewrite <- Hq, <- Hr.
    unfold new_location. change (Z.even 100) with true. unfold new_location_even.
    destruct (Z.eqb_spec r 0) as [-> | Hnz].
    + cbn [shr_record_of_loc shr_m shr_r shr_s]. repeat split; try lia; try discriminate.
    + destruct (Z.compare_spec (2 * r) 100);
        cbn [shr_record_of_loc shr_m shr_r shr_s]; repeat split; try lia; try discriminate.
  - change (2 ^ 52) with 4503599627370496 in Hq52. lia.
  - unfold unit_exp. lia.
  - rewrite Zdigits2_log2 by (change (2 ^ 52) with 4503599627370496 in Hq52; lia).
    assert (52 <= Z.log2 q).
    { apply Z.log2_le_pow2; [change (2 ^ 52) with 4503599627370496 in Hq52; lia | exact Hq52]. }
    unfold fexp, emin, prec, emax. lia.
Qed.

Lemma hundredths_value m e :
  -1074 <= e ->
  hundredths m e = round_half_even (100 * (Zpos m * 2 ^ (e + 1074))) (2 ^ 1074).
Proof.
  intros He. unfold hundredths.
  destruct e as [|p|p].
  - rewrite Z.pow_0_r, Z.mul_1_r.
    rewrite <- (round_half_even_exact (100 * Zpos m)) at 1.
    rewrite <- (round_half_even_scale _ 1 (2 ^ 1074)) by (try apply pow2_pos; lia).
    change (0 + 1074) with 1074. f_equal; ring.
  - rewrite <- (round_half_even_exact (100 * Zpos m * 2 ^ Zpos p)).
    rewrite <- (round_half_even_scale _ 1 (2 ^ 1074)) by (try apply pow2_pos; lia).
    rewrite (Z.pow_add_r 2 (Zpos p) 1074) by lia. f_equal; ring.
  - rewrite <- (round_half_even_scale (100 * Zpos m) _ (2 ^ (Zneg p + 1074)))
      by (apply pow2_pos; lia).
    rewrite <- Z.pow_add_r by lia.
    replace (Zpos p + (Zneg p + 1074)) with 1074 by lia.
    f_equal; ring.
Qed.

(** *** [round(x, 2)] on the result of a rounding *)

Lemma normal_form_shape s N e :
  0 <= N <= 2 ^ 53 -> -1074 <= e ->
  (N = 0 /\ normal_form s N e = S754_zero s) \/
  normal_form s N e = S754_infinity s \/
  (exists m e', normal_form s N e = S754_finite s m e' /\ -1074 <= e' /\
                Zpos m * 2 ^ (e' + 1074) = N * 2 ^ (e + 1074)).
Proof.
  intros HN He. unfold normal_form.
  destruct (Z.eqb_spec N 0) as [-> | Hz]; [left; auto | right].
  destruct (Z.eqb_spec N (2 ^ 53)) as [-> | Ht].
  - destruct (Z.leb_spec (e + 1) 971); [right | left; reflexivity].
    exists (2 ^ 52)%positive, (e + 1). split; [reflexivity|]. split; [lia|].
    replace (e + 1 + 1074) with (1 + (e + 1074)) by lia.
    rewrite Z.pow_add_r by lia.
    change (Zpos (2 ^ 52)) with (2 ^ 52). change (2 ^ 53) with (2 ^ 52 * 2 ^ 1). ring.
  - destruct (Z.leb_spec e 971); [right | left; reflexivity].
    exists (Z.to_pos N), e. split; [reflexivity|]. split; [lia|].
    rewrite Z2Pos.id by lia. reflexivity.
Qed.

Lemma round2_of_value_zero : round2_of_value 0 = S754_zero false.
Proof.
  unfold round2_of_value. rewrite Z.mul_0_r.
  replace (round_half_even 0 (2 ^ 1074)) with 0; [reflexivity|].
  symmetry. apply Z.le_antisymm.
  - apply round_half_even_le; [apply pow2_pos|]; lia.
  - apply round_half_even_ge; [apply pow2_pos|]; lia.
Qed.

Lemma round2_normal_form N e :
  0 <= N <= 2 ^ 53 -> -1074 <= e ->
  (normal_form false N e = S754_infinity false /\
   round2 (normal_form false N e) = S754_infinity false) \/
  round2 (normal_form false N e) = round2_of_value (N * 2 ^ (e + 1074)).
Proof.
  intros HN He.
  destruct (normal_form_shape false N e HN He) as [[-> E] | [E | (m & e' & E & He' & V)]];
    rewrite E.
  - right. rewrite Z.mul_0_l, round2_of_value_zero. reflexivity.
  - left. auto.
  - right. rewrite <- V. unfold round2, round2_of_value.
    rewrite (hundredths_value m e' He').
    destruct (round_half_even _ _) as [|n|n]; try reflexivity.
    apply div_hundred_nearest.
Qed.

Lemma SFleb_zero_normal_form s N e :
  SFleb (S754_zero s) (normal_form false N e) = true.
Proof.
  unfold normal_form.
  destruct (N =? 0); [reflexivity|].
  destruct (N =? 2 ^ 53); [destruct (e + 1 <=? 971) | destruct (e <=? 971)]; reflexivity.
Qed.

Lemma SFleb_normal_form_inf N e :
  SFleb (normal_form false N e) (S754_infinity false) = true.
Proof.
  unfold normal_form.
  destruct (N =? 0); [reflexivity|].
  destruct (N =? 2 ^ 53); [destruct (e + 1 <=? 971) | destruct (e <=? 971)]; reflexivity.
Qed.

Lemma hundreds_scaled n : 100 <= Zpos n * 2 ^ 1125.
Proof.
  assert (2 ^ 7 <= 2 ^ 1125) by (apply Z.pow_le_mono_r; lia).
  change (2 ^ 7) with 128 in *. set (x := 2 ^ 1125) in *. clearbody x. nia.
Qed.

Lemma round2_of_value_cases V :
  round2_of_value V = S754_zero false \/
  exists N e, round2_of_value V = normal_form false N e.
Proof.
  unfold round2_of_value. destruct (round_half_even _ _) as [|n|n]; auto.
  right. eexists _, _. apply nearest_double_normal_form; [lia | apply hundreds_scaled].
Qed.

Lemma SFleb_zero_round2_of_value s V :
  SFleb (S754_zero s) (round2_of_value V) = true.
Proof.
  destruct (round2_of_value_cases V) as [-> | (N & e & ->)];
    [reflexivity | apply SFleb_zero_normal_form].
Qed.

Lemma SFleb_round2_of_value_inf V :
  SFleb (round2_of_value V) (S754_infinity false) = true.
Proof.
  destruct (round2_of_value_cases V) as [-> | (N & e & ->)];
    [reflexivity | apply SFleb_normal_form_inf].
Qed.

Lemma round2_of_value_mono V1 V2 :
  0 <= V1 <= V2 -> SFleb (round2_of_value V1) (round2_of_value V2) = true.
Proof.
  intros HV.
  pose proof (pow2_pos 1074 ltac:(lia)) as Hp.
  assert (Hn : round_half_even (100 * V1) (2 ^ 1074) <= round_half_even (100 * V2) (2 ^ 1074)).
  { apply round_half_even_mono; try assumption.
    set (x := 2 ^ 1074) in *. clearbody x. nia. }
  assert (H0 : 0 <= round_half_even (100 * V1) (2 ^ 1074)).
  { apply round_half_even_ge; [assumption | lia]. }
  unfold round2_of_value at 1.
  destruct (round_half_even (100 * V1) (2 ^ 1074)) as [|n1|n1] eqn:E1;
    try apply SFleb_zero_round2_of_value.
  unfold round2_of_value.
  destruct (round_half_even (100 * V2) (2 ^ 1074)) as [|n2|n2]; try lia.
  pose proof (pow2_pos 1125 ltac:(lia)).
  apply nearest_double_mono; try lia; try apply hundreds_scaled.
Qed.

Lemma normal_form_inf_mono N1 e1 N2 e2 :
  0 <= N1 <= 2 ^ 53 -> 0 <= N2 <= 2 ^ 53 -> mantissa_le N1 e1 N2 e2 ->
  normal_form false N1 e1 = S754_infinity false ->
  normal_form false N2 e2 = S754_infinity false.
Proof.
  intros H1 H2 (He & Heq & Hlt). unfold normal_form.
  assert (P52 : 2 ^ 52 = 4503599627370496) by reflexivity.
  assert (P53 : 2 ^ 53 = 9007199254740992) by reflexivity.
  destruct (Z.eqb_spec N1 0) as [Z1|Z1]; destruct (Z.eqb_spec N2 0) as [Z2|Z2];
  destruct (Z.eqb_spec N1 (2 ^ 53)) as [T1|T1]; destruct (Z.eqb_spec N2 (2 ^ 53)) as [T2|T2];
  repeat match goal with
         | |- context [?a <=? ?b] => destruct (Z.leb_spec a b)
         end;
  try reflexivity; try discriminate; try lia.
Qed.

Lemma mantissa_le_value N1 e1 N2 e2 :
  0 <= N1 <= 2 ^ 53 -> 0 <= N2 <= 2 ^ 53 -> -1074 <= e1 ->
  mantissa_le N1 e1 N2 e2 ->
  N1 * 2 ^ (e1 + 1074) <= N2 * 2 ^ (e2 + 1074).
Proof.
  intros H1 H2 He1 (He & Heq & Hlt).
  pose proof (pow2_pos (e1 + 1074) ltac:(lia)) as Hp.
  destruct (Z.eq_dec e1 e2) as [<- | Hne].
  - specialize (Heq eq_refl). nia.
  - specialize (Hlt ltac:(lia)).
    assert (H : 2 ^ (e1 + 1074 + 1) <= 2 ^ (e2 + 1074)) by (apply Z.pow_le_mono_r; lia).
    rewrite Z.pow_add_r in H by lia. change (2 ^ 1) with 2 in H.
    change (2 ^ 53) with 9007199254740992 in *.
    change (2 ^ 52) with 4503599627370496 in *.
    set (x := 2 ^ (e1 + 1074)) in *. set (y := 2 ^ (e2 + 1074)) in *.
    clearbody x y. nia.
Qed.

Lemma rate_value_ge m e : -1074 <= e -> 1 <= Zpos m * 2 ^ (e + 1074) * (3 * 2 ^ 51).
Proof.
  intros He. pose proof (pow2_pos (e + 1074) ltac:(lia)).
  change (3 * 2 ^ 51) with 6755399441055744.
  set (x := 2 ^ (e + 1074)) in *. clearbody x. nia.
Qed.

Lemma round2_mul_three_cases m e :
  bounded prec emax m e = true ->
  round2 (mul (S754_finite false m e) three) = S754_infinity false \/
  exists V, round2 (mul (S754_finite false m e) three) = round2_of_value V.
Proof.
  intros B. rewrite (mul_three_nearest m e B).
  apply bounded_facts in B as (E & _).
  pose proof (rate_value_ge m e ltac:(lia)) as HA.
  set (A := Zpos m * 2 ^ (e + 1074) * (3 * 2 ^ 51)) in *.
  rewrite nearest_double_normal_form by lia.
  destruct (round2_normal_form _ _
              (proj1 (mantissa_of_bounds A 1 ltac:(lia) HA)) (exponent_of_ge A 1))
    as [[_ ->] | ->]; eauto.
Qed.

(** The fare of a positive finite distance does not decrease when the
    distance grows. *)
Lemma round2_mul_three_mono m1 e1 m2 e2 :
  bounded prec emax m1 e1 = true -> bounded prec emax m2 e2 = true ->
  SFltb (S754_finite false m1 e1) (S754_finite false m2 e2) = true ->
  SFleb (round2 (mul (S754_finite false m1 e1) three))
        (round2 (mul (S754_finite false m2 e2) three)) = true.
Proof.
  intros B1 B2 Hlt.
  pose proof (scaled_value_lt m1 e1 m2 e2 B1 B2 Hlt) as HV.
  rewrite (mul_three_nearest m1 e1 B1), (mul_three_nearest m2 e2 B2).
  apply bounded_facts in B1 as (E1 & _). apply bounded_facts in B2 as (E2 & _).
  pose proof (rate_value_ge m1 e1 ltac:(lia)) as HA1.
  pose proof (rate_value_ge m2 e2 ltac:(lia)) as HA2.
  set (A1 := Zpos m1 * 2 ^ (e1 + 1074) * (3 * 2 ^ 51)) in *.
  set (A2 := Zpos m2 * 2 ^ (e2 + 1074) * (3 * 2 ^ 51)) in *.
  assert (HA : A1 * 1 <= A2 * 1).
  { subst A1 A2. change (3 * 2 ^ 51) with 6755399441055744. nia. }
  rewrite !nearest_double_normal_form by lia.
  destruct (mantissa_of_bounds A1 1 ltac:(lia) HA1) as [N1 _].
  destruct (mantissa_of_bounds A2 1 ltac:(lia) HA2) as [N2 _].
  pose proof (exponent_of_ge A1 1) as G1. pose proof (exponent_of_ge A2 1) as G2.
  pose proof (mantissa_of_mono A1 1 A2 1 ltac:(lia) ltac:(lia) HA1 HA2 HA) as Hm.
  destruct (round2_normal_form _ _ N2 G2) as [[I2 R2] | R2].
  - rewrite R2.
    destruct (round2_normal_form _ _ N1 G1) as [[I1 R1] | R1]; rewrite R1;
      [reflexivity | apply SFleb_round2_of_value_inf].
  - destruct (round2_normal_form _ _ N1 G1) as [[I1 R1] | R1].
    + rewrite R1, (normal_form_inf_mono _ _ _ _ N1 N2 Hm I1). reflexivity.
    + rewrite R1, R2. apply round2_of_value_mono. split.
      * pose proof (pow2_pos (exponent_of A1 1 + 1074) ltac:(lia)). nia.
      * apply mantissa_le_value; assumption.
Qed.

(** C8. The fare is monotone: for floats [0 <= d1 < d2] the fare of [d1]
    is at most the fare of [d2], through both roundings (of the product by
    3.0 and to two decimals); and the fare of [-5.0] and of no distance is
    0.0. *)
Theorem calculate_toll_monotone :
  (forall d1 d2,
     valid d1 = true -> valid d2 = true ->
     leb zero d1 = true -> ltb d1 d2 = true ->
     leb (calculate_toll (Some d1)) (calculate_toll (Some d2)) = true) /\
  calculate_toll (Some (of_Z_round (-5))) = zero /\
  calculate_toll None = zero.
Proof.
  split; [|split; reflexivity].
  intros d1 d2 V1 V2 H0 Hlt.
  assert (H2 : leb zero d2 = true).
  { destruct d1 as [s1|s1| |s1 m1 e1], d2 as [s2|s2| |s2 m2 e2];
      try destruct s1; try destruct s2; try discriminate; reflexivity. }
  unfold calculate_toll.
  rewrite (leb_zero_not_ltb d1 H0), (leb_zero_not_ltb d2 H2).
  unfold TOLL_RATE_PER_KM, leb.
  destruct d1 as [s1|s1| |s1 m1 e1]; try discriminate.
  - (* d1 is a zero *)
    destruct d2 as [s2|[|]| |[|] m2 e2]; try discriminate.
    + reflexivity.
    + destruct (round2_mul_three_cases m2 e2 V2) as [-> | [V ->]];
        [reflexivity | apply SFleb_zero_round2_of_value].
  - destruct s1, d2 as [s2|[|]| |s2 m2 e2]; discriminate.
  - destruct s1; [discriminate|].
    destruct d2 as [s2|[|]| |[|] m2 e2]; try discriminate.
    + destruct (round2_mul_three_cases m1 e1 V1) as [-> | [V ->]];
        [reflexivity | apply SFleb_round2_of_value_inf].
    + apply round2_mul_three_mono; assumption.
Qed.

Lemma calculate_toll_monotone_witness :
  let d1 := div (S754_finite false 1234 0) (S754_finite false 100 0) in
  let d2 := div (S754_finite false 1235 0) (S754_finite false 100 0) in
  leb zero d1 = true /\ ltb d1 d2 = true /\
  leb (calculate_toll (Some d1)) (calculate_toll (Some d2)) = true.
Proof.
  intros d1 d2.
  assert (H0 : leb zero d1 = true) by reflexivity.
  assert (Hlt : ltb d1 d2 = true) by reflexivity.
  split; [exact H0|]. split; [exact Hlt|].
  exact (proj1 calculate_toll_monotone d1 d2 eq_refl eq_refl H0 Hlt).
Defined.

(* ===================================================================== *)
(** ** Further properties of the code *)
(* ===================================================================== *)

Set Warnings "-clear-no-such-hyp".

(** *** Trimming and the reference set *)

Lemma lstrip_idem s : PyStr.lstrip (PyStr.lstrip s) = PyStr.lstrip s.
Proof.
  induction s as [|c s IH]; simpl; [reflexivity|].
  destruct (PyStr.isspace c) eqn:E; [exact IH|]. simpl. now rewrite E.
Qed.

Lemma rstrip_idem s : PyStr.rstrip (PyStr.rstrip s) = PyStr.rstrip s.
Proof.
  induction s as [|c s IH]; simpl; [reflexivity|].
  destruct (PyStr.rstrip s) as [|d t] eqn:E.
  - destruct (PyStr.isspace c) eqn:Ec; simpl; [reflexivity|]. now rewrite Ec.
  - cbn [PyStr.rstrip]. cbn [PyStr.rstrip] in IH. rewrite IH. reflexivity.
Qed.

Lemma rstrip_keeps_head c s :
  PyStr.isspace c = false -> PyStr.rstrip (String c s) = String c (PyStr.rstrip s).
Proof. intros E. simpl. destruct (PyStr.rstrip s); [now rewrite E | reflexivity]. Qed.

Lemma lstrip_head s :
  PyStr.lstrip s = "" \/
  exists c t, PyStr.lstrip s = String c t /\ PyStr.isspace c = false.
Proof.
  induction s as [|c s IH]; simpl; [auto|].
  destruct (PyStr.isspace c) eqn:E; [exact IH | right; eauto].
Qed.

(** [s.strip().strip() == s.strip()] *)
Lemma strip_idem s : PyStr.strip (PyStr.strip s) = PyStr.strip s.
Proof.
  unfold PyStr.strip.
  destruct (lstrip_head s) as [-> | (c & t & -> & E)]; [reflexivity|].
  rewrite (rstrip_keeps_head c t E). cbn [PyStr.lstrip]. rewrite E.
  rewrite (rstrip_keeps_head c _ E), rstrip_idem. reflexivity.
Qed.

(** X1. The reference set holds exactly the trimmed, non-empty cells of
    the first column named [formatted_address]; it is empty when the file
    cannot be read or has no such column, and each of its members is
    non-empty and already trimmed. *)
Theorem load_toll_zone_identifiers_spec csv :
  (forall z,
     z ∈ load_toll_zone_identifiers csv <->
     exists columns name cells cell,
       csv = Some columns /\
       List.find (fun c => String.eqb (fst c) CSV_IDENTIFIER_COLUMN) columns
         = Some (name, cells) /\
       In (Some cell) cells /\ PyStr.strip cell = z /\ z <> "") /\
  (forall z, z ∈ load_toll_zone_identifiers csv -> z <> "" /\ PyStr.strip z = z) /\
  (csv = None -> load_toll_zone_identifiers csv = ∅) /\
  (forall columns,
     csv = Some columns ->
     List.find (fun c => String.eqb (fst c) CSV_IDENTIFIER_COLUMN) columns = None ->
     load_toll_zone_identifiers csv = ∅).
Proof.
  assert (Hiff : forall z,
     z ∈ load_toll_zone_identifiers csv <->
     exists columns name cells cell,
       csv = Some columns /\
       List.find (fun c => String.eqb (fst c) CSV_IDENTIFIER_COLUMN) columns
         = Some (name, cells) /\
       In (Some cell) cells /\ PyStr.strip cell = z /\ z <> "").
  { intros z. unfold load_toll_zone_identifiers.
    destruct csv as [columns|].
    2:{ split; [set_solver | intros (? & ? & ? & ? & H & _); discriminate]. }
    destruct (List.find _ columns) as [[name cells]|] eqn:F.
    2:{ split; [set_solver | intros (c' & ? & ? & ? & [= <-] & H & _); congruence]. }
    rewrite elem_of_list_to_set, list_elem_of_In, List.filter_In, <- list_elem_of_In.
    rewrite list_elem_of_fmap. split.
    - intros [(cell & -> & Hin) Hne].
      apply list_elem_of_omap in Hin as (o & Hin & Ho). simpl in Ho. subst o.
      exists columns, name, cells, cell. repeat split; auto.
      + apply list_elem_of_In, Hin.
      + intros E. rewrite E in Hne. discriminate.
    - intros (c' & name' & cells' & cell & [= <-] & F' & Hin & <- & Hne).
      rewrite F in F'. injection F' as <- <-.
      split.
      + exists cell. split; [reflexivity|]. apply list_elem_of_omap.
        exists (Some cell). split; [apply list_elem_of_In, Hin | reflexivity].
      + destruct (PyStr.strip cell); [congruence | reflexivity]. }
  split; [exact Hiff|]. split; [|split].
  - intros z Hz. apply Hiff in Hz as (? & ? & ? & cell & _ & _ & _ & <- & Hne).
    split; [exact Hne | apply strip_idem].
  - intros ->. reflexivity.
  - intros columns -> F. unfold load_toll_zone_identifiers. rewrite F. reflexivity.
Qed.

(** *** Reverse geocoding *)

(** X2. [reverse_geocode] gives an address and no error, or an error and
    no address; the address is trimmed and the error text is not empty.
    Without a client it reports "Geocoding Service Unavailable" and makes no
    request; with one it makes exactly one. *)
Theorem reverse_geocode_outcome g lat lng n :
  let r := reverse_geocode g lat lng n in
  ((exists a, fst r = (Some a, None) /\ PyStr.strip a = a) \/
   (exists e, fst r = (None, Some e) /\ e <> "")) /\
  (gmaps g = None ->
     r = ((None, Some "Geocoding Service Unavailable"), n)) /\
  (gmaps g <> None -> snd r = S n).
Proof.
  split; [|split].
  - unfold reverse_geocode. destruct (gmaps g) as [client|]; simpl;
      [|right; eexists; split; [reflexivity | discriminate]].
    destruct (reverse_geocode_reply client n lat lng) as [res|e]; simpl.
    + destruct (PyObj.truthy res); [|right; eexists; split; [reflexivity | discriminate]].
      destruct (getitem0 res) as [first|e]; simpl.
      * destruct (get first "formatted_address") as [fa|e]; simpl.
        -- destruct (PyObj.truthy fa); [|right; eexists; split; [reflexivity | discriminate]].
           destruct fa; simpl;
             try (right; eexists; split; [reflexivity | discriminate]).
           left. eexists. split; [reflexivity | apply strip_idem].
        -- destruct e; right; eexists; (split; [reflexivity | discriminate]).
      * destruct e; right; eexists; (split; [reflexivity | discriminate]).
    + destruct e; right; eexists; (split; [reflexivity | discriminate]).
  - intros H. unfold reverse_geocode. rewrite H. reflexivity.
  - intros H. unfold reverse_geocode. destruct (gmaps g); [reflexivity | congruence].
Qed.

(** [is_in_toll_zone] as a function of what [reverse_geocode] returns. *)
Lemma is_in_toll_zone_eval g lat lng n :
  is_in_toll_zone g lat lng n =
    if bool_decide (TOLL_ZONE_IDENTIFIERS g = ∅) then (false, n)
    else
      (match fst (reverse_geocode g lat lng n) with
       | (Some (String c s), None) =>
           bool_decide (PyStr.strip (String c s) ∈ TOLL_ZONE_IDENTIFIERS g)
           || existsb (fun zone_id => PyStr.truthy zone_id &&
                         PyStr.contains zone_id (PyStr.strip (String c s)))
                      (elements (TOLL_ZONE_IDENTIFIERS g))
       | _ => false
       end, snd (reverse_geocode g lat lng n)).
Proof.
  unfold is_in_toll_zone.
  destruct (bool_decide (TOLL_ZONE_IDENTIFIERS g = ∅)); [reflexivity|].
  destruct (reverse_geocode_shape g lat lng n) as [[label H] | (c & e & H)];
    destruct (reverse_geocode g lat lng n) as [[a e'] n']; simpl in H;
    injection H as -> ->; simpl; [|reflexivity].
  destruct label as [|c s]; simpl; [reflexivity|].
  destruct (bool_decide (PyStr.strip (String c s) ∈ TOLL_ZONE_IDENTIFIERS g)); reflexivity.
Qed.

(** X3. A whitespace-only [formatted_address] of the first result,
    wherever it stands among the items of that result, is a truthy string,
    so [reverse_geocode] returns the empty address with no error; the zone
    test then answers [False] and the handler stores "Address Unavailable". *)
Theorem blank_address_is_no_label g client lat lng n blank items results :
  gmaps g = Some client ->
  reverse_geocode_reply client n lat lng = Ok (PList (PDict items :: results)) ->
  assoc "formatted_address" items = Some (PStr blank) ->
  blank <> "" -> PyStr.strip blank = "" ->
  reverse_geocode g lat lng n = ((Some "", None), S n) /\
  in_zone g lat lng n = false /\
  or_unavailable (fst (fst (reverse_geocode g lat lng n))) = "Address Unavailable".
Proof.
  intros Hg Hr Hi Hb Hs.
  assert (E : reverse_geocode g lat lng n = ((Some "", None), S n)).
  { unfold reverse_geocode. rewrite Hg, Hr.
    cbn [bind PyObj.truthy getitem0 get]. rewrite Hi.
    cbn [PyObj.truthy strip_method bind]. rewrite Hs.
    destruct blank; [congruence | reflexivity]. }
  split; [exact E|]. split; [|rewrite E; reflexivity].
  unfold in_zone. rewrite is_in_toll_zone_eval, E.
  destruct (bool_decide (TOLL_ZONE_IDENTIFIERS g = ∅)); reflexivity.
Qed.

Lemma blank_address_is_no_label_witness :
  in_zone (Scenario.globals_with Scenario.client_blank) Scenario.f10 Scenario.f20 0 = false.
Proof.
  refine (proj1 (proj2 (blank_address_is_no_label
            (Scenario.globals_with Scenario.client_blank) Scenario.client_blank
            Scenario.f10 Scenario.f20 0 "   "
            [("place_id", PStr "ChIJ"); ("formatted_address", PStr "   ")] []
            eq_refl eq_refl eq_refl _ eq_refl))).
  discriminate.
Defined.

(** *** The lookup of the open record *)

Lemma not_newer_trans a b c :
  newer a b = false -> newer b c = false -> newer a c = false.
Proof.
  unfold newer.
  destruct (entry_timestamp a), (entry_timestamp b), (entry_timestamp c);
    try discriminate; try reflexivity.
  rewrite !Z.ltb_ge. lia.
Qed.

Lemma newer_asym a b : newer a b = true -> newer b a = false.
Proof.
  unfold newer. destruct (entry_timestamp a), (entry_timestamp b);
    try discriminate; try reflexivity.
  rewrite Z.ltb_lt, Z.ltb_ge. lia.
Qed.

Lemma newer_irrefl a : newer a a = false.
Proof.
  unfold newer. destruct (entry_timestamp a); [apply Z.ltb_irrefl | reflexivity].
Qed.

Lemma first_by_entry_timestamp_desc_newest rows r :
  first_by_entry_timestamp_desc rows = Some r ->
  forall r', In r' rows -> newer r' r = false.
Proof.
  revert r. induction rows as [|r0 rows IH]; intros r; simpl; [discriminate|].
  destruct (first_by_entry_timestamp_desc rows) as [best|] eqn:E.
  - destruct (newer best r0) eqn:N; intros [= <-] r' [<- | Hin].
    + apply newer_asym, N.
    + apply IH; auto.
    + apply newer_irrefl.
    + apply not_newer_trans with (b := best); [apply IH; auto | exact N].
  - apply first_by_entry_timestamp_desc_None in E. subst rows.
    intros [= <-] r' [<- | []]. apply newer_irrefl.
Qed.

(** X4. [get_active_toll_entry] returns [None] exactly when the query
    raises or the user has no open record; otherwise the query was answered
    and it returns a row of the table that is the user's, is open, and has
    the latest entry timestamp among the user's open rows (a missing
    timestamp counting as the earliest). *)
Theorem get_active_toll_entry_spec (g : Env) ts uid t :
  match get_active_toll_entry g ts uid t with
  | None =>
      query_raises g ts = true \/
      forall r, In r t -> is_open_for uid r = false
  | Some r =>
      query_raises g ts = false /\
      In r t /\ user_id r = uid /\ open r /\
      forall r', In r' t -> user_id r' = uid -> open r' -> newer r' r = false
  end /\
  (query_raises g ts = true -> get_active_toll_entry g ts uid t = None) /\
  ((forall r, In r t -> is_open_for uid r = false) ->
   get_active_toll_entry g ts uid t = None).
Proof.
  split; [|split].
  - destruct (get_active_toll_entry g ts uid t) as [r|] eqn:E.
    + destruct (get_active_toll_entry_Some _ _ uid t r E) as [Hin Ho].
      apply is_open_for_spec in Ho as [Hu Hop].
      apply get_active_toll_entry_first in E as [Hq E].
      repeat split; auto. intros r' Hin' Hu' Ho'.
      apply (first_by_entry_timestamp_desc_newest _ _ E).
      apply List.filter_In. split; [exact Hin'|]. apply is_open_for_spec. auto.
    + destruct (query_raises g ts) eqn:Hq; [left; reflexivity | right].
      apply (get_active_toll_entry_None g _ _ _ Hq) in E. intros r Hin.
      destruct (is_open_for uid r) eqn:O; [|reflexivity].
      assert (In r (open_records uid t)) as H by (apply List.filter_In; auto).
      rewrite E in H. destruct H.
  - intros Hq. unfold get_active_toll_entry. now rewrite Hq.
  - intros H. apply get_active_toll_entry_outside. apply filter_none, H.
Qed.

(** *** The transition table of the handler *)

(** X5. Which arm of the handler runs is decided by the classification of
    the sample and the lookup alone: entry for an in-zone sample with no
    open record, exit for a not-in-zone sample with an open record that has
    both entry coordinates, a blocked exit when one is missing, and no
    change otherwise.  The reply always has status "success" and code 200. *)
Theorem api_update_location_outcome g u lat lon ts w :
  let res := api_update_location g u lat lon ts w in
  let z := in_zone g lat lon (requests w) in
  let a := get_active_toll_entry g ts (user_pk u) (table w) in
  (fst (fst res) = Entered <-> z = true /\ a = None) /\
  (fst (fst res) = NoChange <->
     (z = true /\ a <> None) \/ (z = false /\ a = None)) /\
  (fst (fst res) = ExitBlocked <->
     z = false /\ exists r, a = Some r /\ (entry_lat r = None \/ entry_lon r = None)) /\
  ((exists closed, fst (fst res) = Exited closed) <->
     z = false /\ exists r, a = Some r /\ entry_lat r <> None /\ entry_lon r <> None) /\
  status (snd (fst res)) = "success" /\ code (snd (fst res)) = 200.
Proof.
  unfold in_zone, api_update_location. simpl.
  destruct (is_in_toll_zone g lat lon (requests w)) as [z n1]. simpl.
  destruct z, (get_active_toll_entry g ts (user_pk u) (table w)) as [r|]; simpl.
  - repeat split; naive_solver.
  - destruct (reverse_geocode g lat lon n1) as [[ad e] n2]. simpl.
    repeat split; naive_solver.
  - destruct (entry_lat r) as [e_lat|] eqn:Elat;
      [destruct (entry_lon r) as [e_lon|] eqn:Elon|]; simpl.
    + destruct (reverse_geocode g lat lon n1) as [[ad e] n2].
      destruct (calc_dist _ _ _ n2) as [d n3]. simpl.
      repeat split; naive_solver.
    + repeat split; naive_solver.
    + repeat split; naive_solver.
  - repeat split; naive_solver.
Qed.

(** *** Primary keys and the rows a request leaves alone *)

Lemma next_id_fresh t r : In r t -> id r < next_id t.
Proof.
  unfold next_id. induction t as [|x t IH]; intros H; [destruct H|].
  cbn [fmap list_fmap fold_right] in *. destruct H as [-> | H]; [lia|].
  specialize (IH H). lia.
Qed.

Lemma map_id_update_row c t : List.map id (update_row c t) = List.map id t.
Proof.
  unfold update_row. rewrite List.map_map. apply List.map_ext_in.
  intros r _. destruct (Z.eqb_spec (id r) (id c)); congruence.
Qed.

Lemma unique_ids_In_eq t r r' :
  unique_ids t -> In r t -> In r' t -> id r = id r' -> r = r'.
Proof.
  unfold unique_ids. induction t as [|x t IH]; intros Hnd Hr Hr' E; [destruct Hr|].
  simpl in Hnd. apply NoDup_cons in Hnd as [Hx Hnd].
  rewrite list_elem_of_In in Hx.
  destruct Hr as [-> | Hr], Hr' as [-> | Hr']; auto.
  - destruct Hx. rewrite E. apply List.in_map, Hr'.
  - destruct Hx. rewrite <- E. apply List.in_map, Hr.
Qed.

Lemma In_update_row_other c t r :
  In r t -> id r <> id c -> In r (update_row c t).
Proof.
  intros Hin Hne. unfold update_row. apply List.in_map_iff.
  exists r. split; [|exact Hin]. destruct (Z.eqb_spec (id r) (id c)); congruence.
Qed.

Lemma unique_ids_insert t r :
  unique_ids t -> id r = next_id t -> unique_ids (t ++ [r]).
Proof.
  unfold unique_ids. intros Hnd E. rewrite List.map_app. simpl.
  apply NoDup_app. split; [exact Hnd|]. split; [|apply NoDup_singleton].
  intros x Hx Hx'. apply list_elem_of_In in Hx. apply List.in_map_iff in Hx as (r' & <- & Hin).
  apply list_elem_of_singleton in Hx'. pose proof (next_id_fresh t r' Hin). lia.
Qed.

(** The table after a request, by outcome, with the primary key of what
    was written. *)
Lemma api_update_location_table g u lat lon ts w :
  let res := api_update_location g u lat lon ts w in
  table (snd res) = table w \/
  (exists r, table (snd res) = table w ++ [r] /\ id r = next_id (table w) /\
             get_active_toll_entry g ts (user_pk u) (table w) = None) \/
  (exists r closed, table (snd res) = update_row closed (table w) /\
             get_active_toll_entry g ts (user_pk u) (table w) = Some r /\
             id closed = id r /\ fst (fst res) = Exited closed).
Proof.
  unfold api_update_location.
  destruct (is_in_toll_zone g lat lon (requests w)) as [z n1].
  destruct z, (get_active_toll_entry g ts (user_pk u) (table w)) as [r|] eqn:Ha; simpl; auto.
  - destruct (reverse_geocode g lat lon n1) as [[a e] n2]; simpl.
    right; left. eexists; repeat split; reflexivity.
  - destruct (entry_lat r) as [e_lat|]; [destruct (entry_lon r) as [e_lon|]|]; simpl; auto.
    destruct (reverse_geocode g lat lon n1) as [[a e] n2].
    destruct (calc_dist _ _ _ n2) as [d n3]; simpl.
    right; right. eexists r, _; repeat split; reflexivity.
Qed.

Lemma process_sample_unique_ids g s w :
  unique_ids (table w) -> unique_ids (table (snd (process_sample g s w))).
Proof.
  intros H. unfold process_sample.
  destruct (api_update_location_table g (subject s) (latitude s) (longitude s)
              (observed_at s) w)
    as [-> | [(r & -> & Hid & _) | (r & closed & -> & _)]].
  - exact H.
  - apply unique_ids_insert; assumption.
  - unfold unique_ids. rewrite map_id_update_row. exact H.
Qed.

Lemma run_unique_ids g samples w :
  unique_ids (table w) -> unique_ids (table (run g samples w)).
Proof.
  revert w. induction samples as [|s samples IH]; intros w H; simpl; [exact H|].
  apply IH, process_sample_unique_ids, H.
Qed.

(** X6. The handler never deletes a row and never changes a primary key:
    after a request the keys are the old keys, in order, followed at most by
    one new key larger than all of them.  So unique keys stay unique, after
    one request and along any stream of samples. *)
Theorem primary_keys_stay_unique g w :
  unique_ids (table w) ->
  (forall s,
     let w' := snd (process_sample g s w) in
     unique_ids (table w') /\
     (List.map id (table w') = List.map id (table w) \/
      List.map id (table w') = List.map id (table w) ++ [next_id (table w)]) /\
     (forall r, In r (table w) -> id r < next_id (table w))) /\
  (forall samples, unique_ids (table (run g samples w))).
Proof.
  intros H. split; [|intros samples; apply run_unique_ids, H].
  intros s w'. split; [apply process_sample_unique_ids, H|].
  split; [|intros r; apply next_id_fresh].
  subst w'. unfold process_sample.
  destruct (api_update_location_table g (subject s) (latitude s) (longitude s)
              (observed_at s) w)
    as [-> | [(r & -> & Hid & _) | (r & closed & -> & _)]].
  - left. reflexivity.
  - right. rewrite List.map_app. simpl. now rewrite Hid.
  - left. apply map_id_update_row.
Qed.

Lemma primary_keys_stay_unique_witness :
  unique_ids (table Scenario.two_drivers) /\
  unique_ids (table (run Scenario.globals
                       [Scenario.off_plaza; Scenario.at_plaza; Scenario.at_plaza]
                       Scenario.two_drivers)).
Proof.
  assert (H : unique_ids (table Scenario.two_drivers)).
  { unfold unique_ids. simpl. apply (bool_decide_unpack _). vm_compute. exact I. }
  split; [exact H|].
  exact (proj2 (primary_keys_stay_unique Scenario.globals Scenario.two_drivers H) _).
Defined.

Lemma process_sample_frame g s w r :
  unique_ids (table w) -> In r (table w) ->
  user_id r <> user_pk (subject s) \/ is_entry_only r <> Some true ->
  In r (table (snd (process_sample g s w))).
Proof.
  intros Hu Hin Hr. unfold process_sample.
  destruct (api_update_location_table g (subject s) (latitude s) (longitude s)
              (observed_at s) w)
    as [-> | [(r' & -> & _) | (r0 & closed & -> & Ha & Hid & _)]].
  - exact Hin.
  - apply List.in_or_app. left. exact Hin.
  - apply In_update_row_other; [exact Hin|].
    destruct (get_active_toll_entry_Some _ _ _ _ _ Ha) as [Hin0 Ho].
    apply is_open_for_spec in Ho as [Hu0 Ho0]. unfold open in Ho0.
    intros E. rewrite Hid in E.
    assert (r = r0) by (eapply unique_ids_In_eq; eauto). subst r0.
    destruct Hr; congruence.
Qed.

(** X7. With unique primary keys, a location update of one user leaves
    every row of every other user, and every row that is not open, in the
    table exactly as it was. *)
Theorem other_rows_are_untouched g u lat lon ts w r :
  unique_ids (table w) -> In r (table w) ->
  user_id r <> user_pk u \/ is_entry_only r <> Some true ->
  In r (table (snd (api_update_location g u lat lon ts w))).
Proof.
  intros Hu Hin Hr.
  exact (process_sample_frame g {| subject := u; latitude := lat; longitude := lon;
                                    observed_at := ts |} w r Hu Hin Hr).
Qed.

Lemma other_rows_are_untouched_witness :
  In Scenario.bob_closed
     (table (snd (api_update_location Scenario.globals Scenario.alice
                    Scenario.f11 Scenario.f20 2000 Scenario.two_drivers))).
Proof.
  apply other_rows_are_untouched.
  - unfold unique_ids. simpl. apply (bool_decide_unpack _). vm_compute. exact I.
  - simpl. auto.
  - left. discriminate.
Defined.

(** X8. A record that is closed is never written again by location
    updates: with unique primary keys it is in the table, unchanged, after
    any stream of samples of any users. *)
Theorem closed_records_are_final g samples w r :
  unique_ids (table w) -> In r (table w) -> is_entry_only r <> Some true ->
  In r (table (run g samples w)).
Proof.
  revert w. induction samples as [|s samples IH]; intros w Hu Hin Hc; simpl; [exact Hin|].
  apply IH; [apply process_sample_unique_ids, Hu | | exact Hc].
  apply process_sample_frame; auto.
Qed.

Lemma closed_records_are_final_witness :
  In Scenario.bob_closed
     (table (run Scenario.globals
               [Scenario.off_plaza; Scenario.at_plaza;
                {| subject := Scenario.bob; latitude := Scenario.f10;
                   longitude := Scenario.f20; observed_at := 3000 |}]
               Scenario.two_drivers)).
Proof.
  apply closed_records_are_final.
  - unfold unique_ids. simpl. apply (bool_decide_unpack _). vm_compute. exact I.
  - simpl. auto.
  - discriminate.
Defined.

(** X9. Entry and lookup: after an in-zone sample of a user with no open
    record, a lookup that is answered returns the record just created, so
    the user is inside and a further in-zone sample changes nothing; a
    lookup that raises returns [None] instead. *)
Theorem entry_then_lookup (g : Env) u lat lon ts w :
  outside (user_pk u) (table w) ->
  in_zone g lat lon (requests w) = true ->
  let w' := snd (api_update_location g u lat lon ts w) in
  exists r,
    table w' = table w ++ [r] /\
    id r = next_id (table w) /\
    forall ts',
      (query_raises g ts' = true ->
       get_active_toll_entry g ts' (user_pk u) (table w') = None) /\
      (query_raises g ts' = false ->
       get_active_toll_entry g ts' (user_pk u) (table w') = Some r /\
       forall lat' lon',
         in_zone g lat' lon' (requests w') = true ->
         table (snd (api_update_location g u lat' lon' ts' w')) = table w').
Proof.
  intros Hout Hz w'.
  pose proof Hout as Ha. apply (get_active_toll_entry_outside g ts) in Ha.
  pose proof (api_update_location_entered g u lat lon ts w Hz Ha) as E. simpl in E.
  subst w'. rewrite E. simpl.
  eexists. split; [reflexivity|]. split; [reflexivity|].
  intros ts'.
  split; [intros Hq; unfold get_active_toll_entry; now rewrite Hq|].
  intros Hq.
  assert (L : get_active_toll_entry g ts' (user_pk u)
                (table w ++ [new_TollRecord (next_id (table w)) (user_pk u) lat lon
                   (or_unavailable (fst (fst (reverse_geocode g lat lon
                      (snd (is_in_toll_zone g lat lon (requests w))))))) ts true])
              = Some (new_TollRecord (next_id (table w)) (user_pk u) lat lon
                   (or_unavailable (fst (fst (reverse_geocode g lat lon
                      (snd (is_in_toll_zone g lat lon (requests w))))))) ts true)).
  { unfold get_active_toll_entry. rewrite Hq, List.filter_app.
    unfold outside, open_records in Hout. rewrite Hout. simpl.
    unfold is_open_for. simpl. rewrite Z.eqb_refl. reflexivity. }
  split; [exact L|].
  intros lat' lon' Hz'.
  rewrite (api_update_location_no_change g u lat' lon' ts')
    by (left; split; [exact Hz' | simpl; rewrite L; discriminate]).
  reflexivity.
Qed.

Lemma entry_then_lookup_witness :
  exists r,
    get_active_toll_entry Scenario.globals 2000 7
      (table (snd (api_update_location Scenario.globals Scenario.alice
                     Scenario.f10 Scenario.f20 1000 Scenario.empty_world))) = Some r /\
    id r = 1.
Proof.
  destruct (entry_then_lookup Scenario.globals Scenario.alice Scenario.f10 Scenario.f20
              1000 Scenario.empty_world eq_refl ltac:(vm_compute; reflexivity))
    as (r & _ & Hid & L).
  exists r. split; [exact (proj1 (proj2 (L 2000) eq_refl)) | exact Hid].
Defined.

(** *** Bills, provider requests and what an exit stores *)

(** X10. The mail server gets a bill only by an exit, at most one per
    exit, and only when the mail settings are all present, the user has a
    non-empty address and the session with the server goes through; the bill
    carries the key, the labels, the timestamps, the distance and the amount
    of the record just closed, as the row holds them after the commit.  A
    session that fails, and every request that is not an exit, leaves the
    outbox as it was. *)
Theorem bill_only_on_exit (g : Env) u lat lon ts w :
  let res := api_update_location g u lat lon ts w in
  (forall closed,
     fst (fst res) = Exited closed ->
     outbox (snd res) =
       outbox w ++
       match email u with
       | Some recipient =>
           if mail_configured g && PyStr.truthy recipient
           then match smtp_session g (bill_for recipient closed) with
                | MessageAccepted => [bill_for recipient closed]
                | _ => []
                end
           else []
       | None => []
       end) /\
  ((forall closed, fst (fst res) <> Exited closed) -> outbox (snd res) = outbox w).
Proof.
  unfold api_update_location.
  destruct (is_in_toll_zone g lat lon (requests w)) as [z n1].
  destruct z, (get_active_toll_entry g ts (user_pk u) (table w)) as [r|]; simpl.
  - split; [discriminate | reflexivity].
  - destruct (reverse_geocode g lat lon n1) as [[a e] n2]; simpl.
    split; [discriminate | reflexivity].
  - destruct (entry_lat r) as [e_lat|]; [destruct (entry_lon r) as [e_lon|]|]; simpl;
      try (split; [discriminate | reflexivity]).
    destruct (reverse_geocode g lat lon n1) as [[a e] n2].
    destruct (calc_dist _ _ _ n2) as [d n3]; simpl.
    split; [|intros H; destruct (H _ eq_refl)].
    intros closed [= <-]. f_equal.
    destruct (email u) as [recipient|]; [|reflexivity].
    unfold send_toll_bill_email, mail_configured, bill_for. simpl.
    destruct (PyStr.truthy recipient); [|now rewrite andb_false_r].
    rewrite andb_true_r.
    destruct (truthy_opt (EMAIL_ADDRESS g) && truthy_opt (EMAIL_PASSWORD g)
              && truthy_opt (SMTP_SERVER g) && negb (SMTP_PORT g =? 0));
      [|reflexivity].
    simpl. destruct (smtp_session g _); reflexivity.
  - split; [discriminate | reflexivity].
Qed.

Lemma reverse_geocode_requests g lat lng n :
  (n <= snd (reverse_geocode g lat lng n) <= S n)%nat /\
  (gmaps g = None -> snd (reverse_geocode g lat lng n) = n).
Proof.
  unfold reverse_geocode. destruct (gmaps g); simpl; split; try lia; congruence.
Qed.

Lemma is_in_toll_zone_requests g lat lng n :
  (n <= snd (is_in_toll_zone g lat lng n) <= S n)%nat /\
  (gmaps g = None -> snd (is_in_toll_zone g lat lng n) = n) /\
  (TOLL_ZONE_IDENTIFIERS g = ∅ -> snd (is_in_toll_zone g lat lng n) = n).
Proof.
  rewrite is_in_toll_zone_eval.
  destruct (reverse_geocode_requests g lat lng n) as [H1 H2].
  destruct (bool_decide (TOLL_ZONE_IDENTIFIERS g = ∅)) eqn:E; simpl.
  - repeat split; auto; lia.
  - apply bool_decide_eq_false in E. repeat split; auto; try lia. congruence.
Qed.

Lemma calc_dist_requests g o d n :
  (n <= snd (calc_dist g o d n) <= S n)%nat /\
  (gmaps g = None -> snd (calc_dist g o d n) = n).
Proof.
  unfold calc_dist. destruct (gmaps g); simpl; [|split; [lia | reflexivity]].
  destruct (negb _); simpl; split; try lia; congruence.
Qed.

(** X11. A location update makes at most three provider requests (one to
    classify the sample, one for the label, one for the distance), at most
    two when it opens a record, at most one when it changes nothing or blocks
    an exit, and none at all without a Maps client. *)
Theorem provider_requests_per_update g u lat lon ts w :
  let res := api_update_location g u lat lon ts w in
  (requests w <= requests (snd res) <= requests w + 3)%nat /\
  (fst (fst res) = Entered -> (requests (snd res) <= requests w + 2)%nat) /\
  (fst (fst res) = NoChange \/ fst (fst res) = ExitBlocked ->
     (requests (snd res) <= requests w + 1)%nat) /\
  (gmaps g = None -> requests (snd res) = requests w).
Proof.
  unfold api_update_location.
  destruct (is_in_toll_zone_requests g lat lon (requests w)) as (Z1 & Z2 & _).
  destruct (is_in_toll_zone g lat lon (requests w)) as [z n1]. simpl in Z1, Z2.
  destruct z, (get_active_toll_entry g ts (user_pk u) (table w)) as [r|]; simpl.
  - repeat split; auto; lia.
  - destruct (reverse_geocode_requests g lat lon n1) as [G1 G2].
    destruct (reverse_geocode g lat lon n1) as [[a e] n2]; simpl in *.
    repeat split; try lia; try (intros [H | H]; discriminate).
    intros H. rewrite G2, Z2 by exact H. reflexivity.
  - destruct (entry_lat r) as [e_lat|]; [destruct (entry_lon r) as [e_lon|]|]; simpl;
      try (repeat split; auto; lia).
    destruct (reverse_geocode_requests g lat lon n1) as [G1 G2].
    destruct (reverse_geocode g lat lon n1) as [[a e] n2]; simpl in *.
    match goal with |- context [calc_dist _ ?o ?d n2] =>
      destruct (calc_dist_requests g o d n2) as [D1 D2];
      destruct (calc_dist g o d n2) as [dist n3] end; simpl in *.
    repeat split; try lia; try discriminate; try (intros [H | H]; discriminate).
    intros H. rewrite D2, G2, Z2 by exact H. reflexivity.
  - repeat split; auto; lia.
Qed.

(** X12. What an exit stores is consistent: the closed record keeps the
    key, the owner, the entry fields and the payment timestamp of the open
    record it replaces, takes its exit timestamp from the sample and its
    exit coordinates as the store keeps them, is unpaid and closed, and its
    amount is the toll of its own stored distance, as the store keeps it;
    when the distance was a NaN, distance and amount are both NULL. *)
Theorem exit_stores_a_consistent_bill g u lat lon ts w closed :
  fst (fst (api_update_location g u lat lon ts w)) = Exited closed ->
  exists r,
    get_active_toll_entry g ts (user_pk u) (table w) = Some r /\
    table (snd (api_update_location g u lat lon ts w)) = update_row closed (table w) /\
    id closed = id r /\ user_id closed = user_pk u /\
    entry_lat closed = entry_lat r /\ entry_lon closed = entry_lon r /\
    entry_address closed = entry_address r /\
    entry_timestamp closed = entry_timestamp r /\
    payment_timestamp closed = payment_timestamp r /\
    exit_lat closed = sqlite_real lat /\ exit_lon closed = sqlite_real lon /\
    exit_timestamp closed = Some ts /\
    paid closed = Some false /\ is_entry_only closed = Some false /\
    match distance_km closed with
    | Some d => amount_due closed = sqlite_real (calculate_toll (Some d))
    | None => amount_due closed = None
    end.
Proof.
  unfold api_update_location.
  destruct (is_in_toll_zone g lat lon (requests w)) as [z n1].
  destruct z, (get_active_toll_entry g ts (user_pk u) (table w)) as [r|] eqn:Ha; simpl;
    try discriminate.
  - destruct (reverse_geocode g lat lon n1) as [[a e] n2]; simpl. discriminate.
  - destruct (entry_lat r) as [e_lat|]; [destruct (entry_lon r) as [e_lon|]|]; simpl;
      try discriminate.
    destruct (reverse_geocode g lat lon n1) as [[a e] n2].
    destruct (calc_dist _ _ _ n2) as [d n3]; simpl.
    intros [= <-]. exists r. simpl.
    destruct (get_active_toll_entry_Some _ _ _ _ _ Ha) as [_ Ho].
    apply is_open_for_spec in Ho as [Hu _].
    repeat (split; [first [reflexivity | exact Hu]|]).
    destruct d as [[[|]|[|]| |[|] m' e']|]; reflexivity.
Qed.

Lemma exit_stores_a_consistent_bill_witness :
  exists closed,
    fst (fst (api_update_location Scenario.globals Scenario.alice
                Scenario.f11 Scenario.f20 2000 Scenario.inside_world)) = Exited closed /\
    distance_km closed = Some Scenario.f12_34 /\
    amount_due closed = Some Scenario.f37_02.
Proof.
  eexists. split; [reflexivity|].
  pose proof (exit_stores_a_consistent_bill Scenario.globals Scenario.alice
                Scenario.f11 Scenario.f20 2000 Scenario.inside_world _ eq_refl)
    as (r & _ & _ & _ & _ & _ & _ & _ & _ & _ & _ & _ & _ & _ & _ & H).
  split; [reflexivity|]. exact H.
Defined.

(** *** States the handler cannot leave, and tolling that never starts *)

(** X13. An open record without an entry coordinate is never repaired: as
    long as it is the record the lookup returns, every location update of its
    user whose lookup is answered leaves the table and the outbox unchanged,
    so the user can neither close it nor open another. *)
Theorem corrupted_record_blocks_its_user g u r ts samples w :
  get_active_toll_entry g ts (user_pk u) (table w) = Some r ->
  entry_lat r = None \/ entry_lon r = None ->
  Forall (fun s => subject s = u /\ query_raises g (observed_at s) = false) samples ->
  table (run g samples w) = table w /\ outbox (run g samples w) = outbox w.
Proof.
  intros Ha Hc. revert w Ha.
  induction samples as [|s samples IH]; intros w Ha Hall; simpl; [auto|].
  inversion Hall as [|s' l' [Hu Hq] Hall']; subst.
  pose proof (get_active_toll_entry_again g _ _ _ _ _ Ha Hq) as Ha'.
  unfold process_sample.
  destruct (in_zone g (latitude s) (longitude s) (requests w)) eqn:Hz.
  - rewrite (api_update_location_no_change g (subject s) (latitude s) (longitude s)
               (observed_at s) w) by (left; split; [exact Hz | congruence]).
    simpl snd.
    match goal with |- context [run g samples ?w1] =>
      destruct (IH w1) as [Ht Hob]; [exact Ha | exact Hall' | rewrite Ht, Hob; auto]
    end.
  - rewrite (api_update_location_blocked g (subject s) (latitude s) (longitude s)
               (observed_at s) w r Hz Ha' Hc).
    simpl snd.
    match goal with |- context [run g samples ?w1] =>
      destruct (IH w1) as [Ht Hob]; [exact Ha | exact Hall' | rewrite Ht, Hob; auto]
    end.
Qed.

Lemma corrupted_record_blocks_its_user_witness :
  table (run Scenario.globals [Scenario.off_plaza; Scenario.at_plaza; Scenario.off_plaza]
             Scenario.corrupted_world)
  = [Scenario.corrupted_record].
Proof.
  refine (proj1 (corrupted_record_blocks_its_user Scenario.globals Scenario.alice
                   Scenario.corrupted_record 2000 _ Scenario.corrupted_world eq_refl _ _)).
  - left. reflexivity.
  - repeat constructor.
Defined.

(** X14. With no identifiers loaded (no data file, no such column, or only
    blank cells) every sample is classified not-in-zone without a provider
    request, and from a table with no open record no stream of samples
    changes anything: tolling never starts. *)
Theorem no_identifiers_no_tolling (g : Env) :
  TOLL_ZONE_IDENTIFIERS g = ∅ ->
  (forall lat lng n, is_in_toll_zone g lat lng n = (false, n)) /\
  (forall samples w,
     (forall r, In r (table w) -> is_entry_only r <> Some true) ->
     run g samples w = w).
Proof.
  intros He.
  assert (Hz : forall lat lng n, is_in_toll_zone g lat lng n = (false, n)).
  { intros. unfold is_in_toll_zone. now rewrite bool_decide_eq_true_2. }
  split; [exact Hz|].
  induction samples as [|s samples IH]; intros w Hw; simpl; [reflexivity|].
  assert (Ha : get_active_toll_entry g (observed_at s) (user_pk (subject s)) (table w)
               = None).
  { apply get_active_toll_entry_outside. apply filter_none. intros r Hin.
    unfold is_open_for. rewrite bool_decide_eq_false_2 by (apply Hw, Hin).
    apply andb_false_r. }
  unfold process_sample.
  rewrite (api_update_location_no_change g (subject s) (latitude s) (longitude s)
             (observed_at s) w)
    by (right; split; [unfold in_zone; now rewrite Hz | exact Ha]).
  simpl snd. rewrite Hz. simpl.
  replace {| requests := requests w; table := table w; outbox := outbox w |} with w
    by (destruct w; reflexivity).
  apply IH, Hw.
Qed.

Lemma no_identifiers_no_tolling_witness :
  run Scenario.globals_no_file [Scenario.at_plaza; Scenario.off_plaza; Scenario.at_plaza]
      Scenario.empty_world
  = Scenario.empty_world.
Proof.
  refine (proj2 (no_identifiers_no_tolling Scenario.globals_no_file eq_refl) _ _ _).
  intros r [].
Defined.

(** *** Paying a bill *)

Lemma mark_paid_keeps r now :
  let p := mark_paid r now in
  id p = id r /\ user_id p = user_id r /\
  entry_lat p = entry_lat r /\ entry_lon p = entry_lon r /\
  entry_address p = entry_address r /\ entry_timestamp p = entry_timestamp r /\
  exit_lat p = exit_lat r /\ exit_lon p = exit_lon r /\
  exit_address p = exit_address r /\ exit_timestamp p = exit_timestamp r /\
  distance_km p = distance_km r /\ amount_due p = amount_due r /\
  is_entry_only p = is_entry_only r.
Proof. simpl. repeat split. Qed.

Lemma is_unpaid_bill_of_spec uid toll_id r :
  is_unpaid_bill_of uid toll_id r = true <->
  id r = toll_id /\ user_id r = uid /\ paid r = Some false.
Proof.
  unfold is_unpaid_bill_of.
  rewrite !andb_true_iff, !Z.eqb_eq, bool_decide_eq_true. tauto.
Qed.

(** X15. [pay_bill] pays a record only if it has the requested key, belongs
    to the user and is unpaid; it then sets [paid] and the payment timestamp
    of that record and nothing else: every other field of the record, every
    primary key and, with unique keys, every other row stay as they were.
    Otherwise it flashes the warning and leaves the table alone. *)
Theorem pay_bill_effect u toll_id now t :
  match fst (pay_bill u toll_id now t) with
  | InvalidOrAlreadyPaid =>
      snd (pay_bill u toll_id now t) = t /\
      forall r, In r t ->
        ~ (id r = toll_id /\ user_id r = user_pk u /\ paid r = Some false)
  | PaymentSuccessful i =>
      i = toll_id /\
      exists r,
        In r t /\ id r = toll_id /\ user_id r = user_pk u /\ paid r = Some false /\
        snd (pay_bill u toll_id now t) = update_row (mark_paid r now) t /\
        In (mark_paid r now) (snd (pay_bill u toll_id now t)) /\
        List.map id (snd (pay_bill u toll_id now t)) = List.map id t /\
        (unique_ids t ->
         forall r', In r' t -> r' <> r -> In r' (snd (pay_bill u toll_id now t)))
  end.
Proof.
  unfold pay_bill.
  destruct (List.find (is_unpaid_bill_of (user_pk u) toll_id) t) as [r|] eqn:F; simpl.
  - apply List.find_some in F as [Hin Hb].
    apply is_unpaid_bill_of_spec in Hb as (Hid & Hu & Hp).
    split; [reflexivity|]. exists r. repeat split; auto.
    + apply In_update_row with (r := r); [exact Hin | reflexivity].
    + apply map_id_update_row.
    + intros Hnd r' Hin' Hne. apply In_update_row_other; [exact Hin'|].
      simpl. intros E. apply Hne. eapply unique_ids_In_eq; eauto.
  - split; [reflexivity|]. intros r Hin H.
    apply is_unpaid_bill_of_spec in H.
    pose proof (List.find_none _ _ F r Hin). congruence.
Qed.

(** X16. A bill cannot be paid twice: after a successful payment a second
    request for the same key is refused and changes nothing, so the first
    payment timestamp stays. *)
Theorem pay_bill_twice_is_refused u toll_id now now' t :
  fst (pay_bill u toll_id now t) = PaymentSuccessful toll_id ->
  pay_bill u toll_id now' (snd (pay_bill u toll_id now t))
  = (InvalidOrAlreadyPaid, snd (pay_bill u toll_id now t)).
Proof.
  unfold pay_bill at 1 3 4.
  destruct (List.find (is_unpaid_bill_of (user_pk u) toll_id) t) as [r|] eqn:F;
    [|discriminate].
  intros _. simpl.
  apply List.find_some in F as [Hin Hb].
  apply is_unpaid_bill_of_spec in Hb as (Hid & Hu & Hp).
  unfold pay_bill.
  destruct (List.find _ (update_row (mark_paid r now) t)) as [r'|] eqn:F'; [|reflexivity].
  exfalso. apply List.find_some in F' as [Hin' Hb'].
  apply is_unpaid_bill_of_spec in Hb' as (Hid' & Hu' & Hp').
  unfold update_row in Hin'. apply List.in_map_iff in Hin' as (x & Hx & _).
  simpl in Hx. destruct (Z.eqb_spec (id x) (id r)) as [E | E].
  - subst r'. simpl in Hp'. discriminate.
  - subst x. congruence.
Qed.

Lemma pay_bill_twice_is_refused_witness :
  fst (pay_bill Scenario.bob 2 5000
         (snd (pay_bill Scenario.bob 2 4000 (table Scenario.two_drivers))))
  = InvalidOrAlreadyPaid.
Proof.
  rewrite (pay_bill_twice_is_refused Scenario.bob 2 4000 5000
             (table Scenario.two_drivers) eq_refl).
  reflexivity.
Defined.

Lemma open_records_map_ext uid (f : TollRecord -> TollRecord) t :
  (forall r, In r t -> is_open_for uid (f r) = is_open_for uid r) ->
  open_records uid (List.map f t) = List.map f (open_records uid t).
Proof.
  unfold open_records. induction t as [|x t IH]; intros H; simpl; [reflexivity|].
  rewrite (H x) by (left; reflexivity).
  destruct (is_open_for uid x); simpl; rewrite IH; auto;
    intros r Hr; apply H; right; exact Hr.
Qed.

(** X17. Paying keeps the invariants of the table: every user has exactly
    the open records (by key) that they had, so at most one open record per
    user stays at most one, and unique primary keys stay unique. *)
Theorem pay_bill_keeps_invariants u toll_id now t :
  unique_ids t ->
  let t' := snd (pay_bill u toll_id now t) in
  unique_ids t' /\
  (forall uid, List.map id (open_records uid t') = List.map id (open_records uid t)) /\
  (at_most_one_open t -> at_most_one_open t').
Proof.
  intros Hnd t'.
  assert (Hopen : forall uid,
            List.map id (open_records uid t') = List.map id (open_records uid t)).
  { intros uid. subst t'. unfold pay_bill.
    destruct (List.find (is_unpaid_bill_of (user_pk u) toll_id) t) as [r|] eqn:F;
      [|reflexivity].
    apply List.find_some in F as [Hin _]. simpl. unfold update_row.
    rewrite open_records_map_ext.
    - rewrite List.map_map. apply List.map_ext_in. intros x _.
      destruct (Z.eqb_spec (id x) (id (mark_paid r now))); [|reflexivity].
      simpl in *. congruence.
    - intros x Hx. destruct (Z.eqb_spec (id x) (id (mark_paid r now))) as [E|]; [|reflexivity].
      simpl in E. assert (x = r) by (eapply unique_ids_In_eq; eauto). subst x.
      reflexivity. }
  split; [|split; [exact Hopen|]].
  - subst t'. unfold pay_bill.
    destruct (List.find (is_unpaid_bill_of (user_pk u) toll_id) t); simpl; [|exact Hnd].
    unfold unique_ids. rewrite map_id_update_row. exact Hnd.
  - intros Hinv uid. specialize (Hinv uid).
    rewrite <- (List.length_map id), Hopen, List.length_map. exact Hinv.
Qed.

Lemma pay_bill_keeps_invariants_witness :
  at_most_one_open (snd (pay_bill Scenario.bob 2 4000 (table Scenario.two_drivers))).
Proof.
  assert (Hnd : unique_ids (table Scenario.two_drivers)).
  { unfold unique_ids. simpl. apply (bool_decide_unpack _). vm_compute. exact I. }
  apply (proj2 (proj2 (pay_bill_keeps_invariants Scenario.bob 2 4000
                         (table Scenario.two_drivers) Hnd))).
  intros uid. unfold open_records. simpl.
  destruct (is_open_for uid Scenario.open_record); simpl;
    destruct (is_open_for uid Scenario.bob_closed) eqn:E; simpl; try lia.
  unfold is_open_for in E. simpl in E. rewrite andb_false_r in E. discriminate.
Defined.

Lemma first_by_entry_timestamp_desc_map (f : TollRecord -> TollRecord) rows :
  (forall a, entry_timestamp (f a) = entry_timestamp a) ->
  first_by_entry_timestamp_desc (List.map f rows)
  = option_map f (first_by_entry_timestamp_desc rows).
Proof.
  intros Hf. induction rows as [|r rows IH]; simpl; [reflexivity|].
  rewrite IH. destruct (first_by_entry_timestamp_desc rows) as [r'|]; simpl; [|reflexivity].
  unfold newer. rewrite !Hf. fold (newer r' r). destruct (newer r' r); reflexivity.
Qed.

(** Paying the record the lookup returns does not change what the lookup
    returns, but for the payment. *)
Lemma get_active_toll_entry_after_payment g ts uid t r now :
  unique_ids t -> get_active_toll_entry g ts uid t = Some r ->
  get_active_toll_entry g ts uid (update_row (mark_paid r now) t) = Some (mark_paid r now).
Proof.
  intros Hnd Ha. destruct (get_active_toll_entry_Some _ _ _ _ _ Ha) as [Hin _].
  apply get_active_toll_entry_first in Ha as [Hq Ha].
  set (f := fun x => if id x =? id r then mark_paid x now else x).
  assert (E : update_row (mark_paid r now) t = List.map f t).
  { unfold update_row. apply List.map_ext_in. intros x Hx. unfold f. simpl.
    destruct (Z.eqb_spec (id x) (id r)) as [Ei|]; [|reflexivity].
    assert (x = r) by (eapply unique_ids_In_eq; eauto). now subst x. }
  rewrite E, (get_active_toll_entry_answered g ts uid _ Hq).
  assert (open_records uid (List.map f t) = List.map f (open_records uid t)) as Ho.
  { apply open_records_map_ext. intros x _. unfold f.
    destruct (id x =? id r); reflexivity. }
  rewrite Ho, first_by_entry_timestamp_desc_map.
  - rewrite Ha. simpl. unfold f. now rewrite Z.eqb_refl.
  - intros a. unfold f. destruct (id a =? id r); reflexivity.
Qed.

(** What the exit arm returns, read back from its outcome. *)
Lemma api_update_location_exit_inv g u lat lon ts w closed :
  fst (fst (api_update_location g u lat lon ts w)) = Exited closed ->
  exists r,
    get_active_toll_entry g ts (user_pk u) (table w) = Some r /\
    id closed = id r /\ paid closed = Some false /\
    is_entry_only closed = Some false /\
    payment_timestamp closed = payment_timestamp r /\
    user_id closed = user_id r /\
    table (snd (api_update_location g u lat lon ts w)) = update_row closed (table w).
Proof.
  unfold api_update_location.
  destruct (is_in_toll_zone g lat lon (requests w)) as [z n1].
  destruct z, (get_active_toll_entry g ts (user_pk u) (table w)) as [r|] eqn:Ha; simpl;
    try discriminate.
  - destruct (reverse_geocode g lat lon n1) as [[a e] n2]; simpl. discriminate.
  - destruct (entry_lat r) as [e_lat|]; [destruct (entry_lon r) as [e_lon|]|]; simpl;
      try discriminate.
    destruct (reverse_geocode g lat lon n1) as [[a e] n2].
    destruct (calc_dist _ _ _ n2) as [d n3]; simpl.
    intros [= <-]. exists r. repeat split.
Qed.

(** X18. [pay_bill] does not ask whether the trip is complete: it accepts
    the open record of a user, and the exit that later closes that record
    writes [paid = False] again while the payment timestamp stays. *)
Theorem payment_of_an_open_record_is_undone_by_exit g u now w r ts :
  unique_ids (table w) ->
  get_active_toll_entry g ts (user_pk u) (table w) = Some r ->
  paid r = Some false ->
  let w' := {| requests := requests w;
               table := snd (pay_bill u (id r) now (table w));
               outbox := outbox w |} in
  fst (pay_bill u (id r) now (table w)) = PaymentSuccessful (id r) /\
  get_active_toll_entry g ts (user_pk u) (table w') = Some (mark_paid r now) /\
  forall lat lon ts' closed,
    fst (fst (api_update_location g u lat lon ts' w')) = Exited closed ->
    id closed = id r /\ paid closed = Some false /\
    payment_timestamp closed = Some now.
Proof.
  intros Hnd Ha Hp w'.
  destruct (get_active_toll_entry_Some _ _ _ _ _ Ha) as [Hin Ho].
  apply is_open_for_spec in Ho as [Hu Hop].
  assert (F : List.find (is_unpaid_bill_of (user_pk u) (id r)) (table w) = Some r).
  { destruct (List.find _ (table w)) as [x|] eqn:F.
    - apply List.find_some in F as [Hx Hb].
      apply is_unpaid_bill_of_spec in Hb as (Hid & _).
      f_equal. eapply unique_ids_In_eq; eauto.
    - pose proof (List.find_none _ _ F r Hin) as N.
      assert (is_unpaid_bill_of (user_pk u) (id r) r = true)
        by (apply is_unpaid_bill_of_spec; auto).
      congruence. }
  assert (T : table w' = update_row (mark_paid r now) (table w)).
  { subst w'. simpl. unfold pay_bill. now rewrite F. }
  split; [unfold pay_bill; now rewrite F|].
  assert (L : get_active_toll_entry g ts (user_pk u) (table w') = Some (mark_paid r now)).
  { rewrite T. apply get_active_toll_entry_after_payment; assumption. }
  split; [exact L|].
  intros lat lon ts' closed Hex.
  apply api_update_location_exit_inv in Hex as (r' & Ha' & Hid & Hpaid & _ & Hpt & _).
  apply get_active_toll_entry_first in Ha' as [_ Ha'].
  apply get_active_toll_entry_first in L as [_ L].
  rewrite L in Ha'. injection Ha' as <-. simpl in Hid, Hpt. auto.
Qed.

Lemma payment_of_an_open_record_is_undone_by_exit_witness :
  let t := snd (pay_bill Scenario.alice 1 1500 (table Scenario.inside_world)) in
  exists closed,
    fst (fst (api_update_location Scenario.globals Scenario.alice Scenario.f11
                Scenario.f20 2000
                {| requests := 2; table := t; outbox := [] |})) = Exited closed /\
    paid closed = Some false /\ payment_timestamp closed = Some 1500.
Proof.
  intros t.
  assert (Hnd : unique_ids (table Scenario.inside_world)).
  { unfold unique_ids. simpl. apply (bool_decide_unpack _). vm_compute. exact I. }
  destruct (payment_of_an_open_record_is_undone_by_exit Scenario.globals Scenario.alice
              1500 Scenario.inside_world Scenario.open_record 2000 Hnd eq_refl eq_refl)
    as (_ & _ & H).
  eexists. split; [reflexivity|].
  destruct (H Scenario.f11 Scenario.f20 2000 _ eq_refl) as (_ & Hp & Ht).
  split; [exact Hp | exact Ht].
Defined.

(** *** The lists of bills *)

Lemma In_insert_desc key r l x : In x (insert_desc key r l) <-> x = r \/ In x l.
Proof.
  induction l as [|y l IH]; simpl; [intuition|].
  destruct (desc_before (key y) (key r)); simpl; [rewrite IH|]; intuition.
Qed.

Lemma insert_desc_Permutation key r l : insert_desc key r l ≡ₚ r :: l.
Proof.
  induction l as [|y l IH]; simpl; [reflexivity|].
  destruct (desc_before (key y) (key r)); [|reflexivity].
  rewrite IH. apply Permutation_swap.
Qed.

Lemma order_by_desc_Permutation key l : order_by_desc key l ≡ₚ l.
Proof.
  induction l as [|r l IH]; simpl; [reflexivity|].
  rewrite insert_desc_Permutation. now rewrite IH.
Qed.

Lemma desc_before_asym a b : desc_before a b = true -> desc_before b a = false.
Proof.
  destruct a, b; simpl; try discriminate; try reflexivity.
  rewrite Z.ltb_lt, Z.ltb_ge. lia.
Qed.

Lemma not_desc_before_trans a b c :
  desc_before b a = false -> desc_before c b = false -> desc_before c a = false.
Proof.
  destruct a, b, c; simpl; try discriminate; try reflexivity.
  rewrite !Z.ltb_ge. lia.
Qed.

Lemma insert_desc_sorted key r l :
  sorted_desc key l -> sorted_desc key (insert_desc key r l).
Proof.
  unfold sorted_desc. induction l as [|y l IH]; intros H; simpl.
  - constructor; constructor.
  - apply StronglySorted_inv in H as [Hs Hy].
    destruct (desc_before (key y) (key r)) eqn:E.
    + constructor; [apply IH, Hs|].
      rewrite List.Forall_forall in *. intros z Hz.
      apply In_insert_desc in Hz as [-> | Hz]; [apply desc_before_asym, E | apply Hy, Hz].
    + constructor; [constructor; assumption|].
      constructor; [exact E|].
      rewrite List.Forall_forall in *. intros z Hz.
      apply not_desc_before_trans with (b := key y); [exact E | apply Hy, Hz].
Qed.

Lemma order_by_desc_sorted key l : sorted_desc key (order_by_desc key l).
Proof.
  induction l as [|r l IH]; simpl; [constructor | apply insert_desc_sorted, IH].
Qed.

Lemma In_order_by_desc key l x : In x (order_by_desc key l) <-> In x l.
Proof.
  rewrite <- !list_elem_of_In. now rewrite order_by_desc_Permutation.
Qed.

Lemma In_unpaid_tolls uid t r :
  In r (unpaid_tolls uid t) <->
  In r t /\ user_id r = uid /\ paid r = Some false /\ is_entry_only r = Some false.
Proof.
  unfold unpaid_tolls. rewrite In_order_by_desc, List.filter_In.
  rewrite !andb_true_iff, Z.eqb_eq, !bool_decide_eq_true. tauto.
Qed.

(** X19. The bills shown by the dashboard, the payment page and the query
    page are exactly the rows of the user that are closed and unpaid, each as
    often as it is in the table, latest exit first; an open record and a paid
    record are never among them. *)
Theorem unpaid_tolls_spec uid t :
  (forall r, In r (unpaid_tolls uid t) <->
             In r t /\ user_id r = uid /\ paid r = Some false /\
             is_entry_only r = Some false) /\
  unpaid_tolls uid t ≡ₚ
    List.filter (fun r => (user_id r =? uid) && bool_decide (paid r = Some false)
                          && bool_decide (is_entry_only r = Some false)) t /\
  sorted_desc exit_timestamp (unpaid_tolls uid t) /\
  (forall r, In r (unpaid_tolls uid t) -> ~ open r /\ paid r <> Some true).
Proof.
  split; [intros r; apply In_unpaid_tolls|].
  split; [apply order_by_desc_Permutation|].
  split; [apply order_by_desc_sorted|].
  intros r H. apply In_unpaid_tolls in H as (_ & _ & Hp & Hc).
  unfold open. split; congruence.
Qed.

Lemma sorted_desc_take key n l : sorted_desc key l -> sorted_desc key (take n l).
Proof.
  unfold sorted_desc. revert n. induction l as [|x l IH]; intros n H.
  - destruct n; constructor.
  - destruct n; simpl; [constructor|].
    apply StronglySorted_inv in H as [Hs Hx].
    constructor; [apply IH, Hs|].
    rewrite List.Forall_forall in *. intros z Hz. apply Hx.
    apply list_elem_of_In. apply list_elem_of_In in Hz.
    exact (subseteq_take n l z Hz).
Qed.

(** X20. The dashboard lists at most ten paid bills: each is a paid row of
    the user from the table, latest payment first, and when the user has ten
    paid rows or fewer all of them are listed. *)
Theorem paid_tolls_spec uid t :
  (length (paid_tolls uid t) <= 10)%nat /\
  (forall r, In r (paid_tolls uid t) ->
             In r t /\ user_id r = uid /\ paid r = Some true) /\
  sorted_desc payment_timestamp (paid_tolls uid t) /\
  ((length (List.filter (fun r => (user_id r =? uid)%Z && bool_decide (paid r = Some true)) t)
      <= 10)%nat ->
   forall r, In r t -> user_id r = uid -> paid r = Some true -> In r (paid_tolls uid t)).
Proof.
  unfold paid_tolls. split; [rewrite length_take; lia|]. split; [|split].
  - intros r H. apply list_elem_of_In in H. apply subseteq_take in H.
    apply list_elem_of_In, In_order_by_desc, List.filter_In in H as [Hin Hb].
    apply andb_true_iff in Hb as [Hu Hp].
    apply Z.eqb_eq in Hu. apply bool_decide_eq_true in Hp. auto.
  - apply sorted_desc_take, order_by_desc_sorted.
  - intros Hlen r Hin Hu Hp.
    rewrite take_ge.
    + apply In_order_by_desc, List.filter_In. split; [exact Hin|].
      apply andb_true_iff. split; [apply Z.eqb_eq, Hu | apply bool_decide_eq_true, Hp].
    + rewrite (Permutation_length (order_by_desc_Permutation _ _)). exact Hlen.
Qed.

(** X21. A finished trip becomes a bill: the record an exit closes is at
    once among the unpaid bills of its user. *)
Theorem exit_lists_the_bill g u lat lon ts w closed :
  fst (fst (api_update_location g u lat lon ts w)) = Exited closed ->
  In closed (unpaid_tolls (user_pk u)
               (table (snd (api_update_location g u lat lon ts w)))).
Proof.
  intros H. apply api_update_location_exit_inv in H
    as (r & Ha & Hid & Hp & Hc & _ & Hu & ->).
  destruct (get_active_toll_entry_Some _ _ _ _ _ Ha) as [Hin Ho].
  apply is_open_for_spec in Ho as [Hur _].
  apply In_unpaid_tolls. repeat split; auto; [|congruence].
  apply In_update_row with (r := r); assumption.
Qed.

Lemma exit_lists_the_bill_witness :
  exists closed,
    In closed (unpaid_tolls 7
                 (table (snd (api_update_location Scenario.globals Scenario.alice
                                Scenario.f11 Scenario.f20 2000 Scenario.inside_world)))).
Proof.
  eexists.
  exact (exit_lists_the_bill Scenario.globals Scenario.alice Scenario.f11 Scenario.f20
           2000 Scenario.inside_world _ eq_refl).
Defined.

(** X22. A paid bill leaves the list: after a successful payment no unpaid
    bill of any user has the paid key, and the paid record is a paid row of
    the payer. *)
Theorem payment_unlists_the_bill u toll_id now t :
  fst (pay_bill u toll_id now t) = PaymentSuccessful toll_id ->
  (forall uid r, In r (unpaid_tolls uid (snd (pay_bill u toll_id now t))) ->
                 id r <> toll_id) /\
  exists p, In p (snd (pay_bill u toll_id now t)) /\ id p = toll_id /\
            user_id p = user_pk u /\ paid p = Some true /\
            payment_timestamp p = Some now.
Proof.
  unfold pay_bill.
  destruct (List.find (is_unpaid_bill_of (user_pk u) toll_id) t) as [r|] eqn:F;
    [|discriminate].
  intros _. simpl.
  apply List.find_some in F as [Hin Hb].
  apply is_unpaid_bill_of_spec in Hb as (Hid & Hu & Hp).
  split.
  - intros uid x Hx. apply In_unpaid_tolls in Hx as (Hx & _ & Hxp & _).
    unfold update_row in Hx. apply List.in_map_iff in Hx as (y & Hy & _).
    simpl in Hy. destruct (Z.eqb_spec (id y) (id r)) as [E | E].
    + subst x. simpl in Hxp. discriminate.
    + subst y. congruence.
  - exists (mark_paid r now). split; [|simpl; auto].
    apply In_update_row with (r := r); [exact Hin | reflexivity].
Qed.

Lemma payment_unlists_the_bill_witness :
  fst (pay_bill Scenario.bob 2 4000 (table Scenario.two_drivers)) = PaymentSuccessful 2 /\
  (forall uid r,
      In r (unpaid_tolls uid (snd (pay_bill Scenario.bob 2 4000 (table Scenario.two_drivers)))) ->
      id r <> 2) /\
  exists p, In p (snd (pay_bill Scenario.bob 2 4000 (table Scenario.two_drivers))) /\
            id p = 2 /\ user_id p = 8 /\ paid p = Some true /\
            payment_timestamp p = Some 4000.
Proof.
  split; [reflexivity|].
  exact (payment_unlists_the_bill Scenario.bob 2 4000 (table Scenario.two_drivers) eq_refl).
Defined.

(** *** The sign of the fare *)

(** X23. No bill is negative and none is NaN: for no distance and for every
    distance that is a double other than NaN (zeros of both signs, negative
    numbers and the infinities included) the fare compares [>= 0.0]. *)
Theorem calculate_toll_is_not_negative d :
  match d with
  | Some x => valid x = true /\ x <> S754_nan
  | None => True
  end ->
  leb zero (calculate_toll d) = true.
Proof.
  destruct d as [x|]; [|reflexivity].
  intros [V Hn]. unfold calculate_toll, TOLL_RATE_PER_KM.
  destruct x as [[|]|[|]| |[|] m e]; try reflexivity.
  - congruence.
  - cbn [ltb SFltb SFcompare zero]. cbv iota.
    unfold leb.
    destruct (round2_mul_three_cases m e V) as [-> | [W ->]];
      [reflexivity | apply SFleb_zero_round2_of_value].
Qed.

Lemma calculate_toll_is_not_negative_witness :
  leb zero (calculate_toll (Some Scenario.f10)) = true /\
  leb zero (calculate_toll (Some (S754_zero true))) = true /\
  leb zero (calculate_toll (Some (S754_infinity false))) = true /\
  leb zero (calculate_toll (Some S754_nan)) = false.
Proof.
  split; [|split; [|split]].
  - apply (calculate_toll_is_not_negative (Some Scenario.f10)).
    split; [reflexivity | discriminate].
  - apply (calculate_toll_is_not_negative (Some (S754_zero true))).
    split; [reflexivity | discriminate].
  - apply (calculate_toll_is_not_negative (Some (S754_infinity false))).
    split; [reflexivity | discriminate].
  - reflexivity.
Defined.

(** *** Accounts *)

Lemma username_or_email_is_false name mail a :
  username_or_email_is name mail a = false <->
  username (account_user a) <> name /\ email (account_user a) <> Some mail.
Proof.
  unfold username_or_email_is. rewrite orb_false_iff.
  destruct (String.eqb_spec (username (account_user a)) name) as [E | E].
  - split; [intros [? _]; discriminate | intros [? _]; contradiction].
  - destruct (email (account_user a)) as [e|].
    + destruct (String.eqb_spec e mail) as [E' | E'].
      * subst. split; [intros [_ ?]; discriminate | intros [_ ?]; congruence].
      * split; [intros _; split; congruence | auto].
    + split; [intros _; split; congruence | auto].
Qed.

Lemma find_username_or_email_None name mail users :
  List.find (username_or_email_is name mail) users = None <-> is_new name mail users.
Proof.
  unfold is_new. split.
  - intros F a Ha. apply username_or_email_is_false.
    exact (List.find_none _ _ F a Ha).
  - intros H. destruct (List.find _ users) as [a|] eqn:F; [|reflexivity].
    apply List.find_some in F as [Ha Hb].
    apply H, username_or_email_is_false in Ha. congruence.
Qed.

Lemma truthy_opt_Some o :
  truthy_opt o = true <-> exists s, o = Some s /\ s <> "".
Proof.
  destruct o as [[|c s]|]; simpl; split;
    try discriminate; try (intros (? & [= <-] & ?); congruence);
    try (intros (? & ? & _); discriminate); eauto.
Qed.

Lemma register_post_accepted h form salt users name mail password :
  acceptable form name mail password -> is_new name mail users ->
  register h None POST form salt users =
    (Redirect to_login, [RegistrationSuccessful],
     users ++ [new_User users name mail (generate_password_hash h password salt)]).
Proof.
  intros (Hn & Hm & Hp & Hc & Nn & Nm & Len) Hnew.
  unfold register. rewrite Hn, Hm, Hp, Hc.
  assert (Np : password <> "") by (intros ->; simpl in Len; lia).
  destruct name as [|c1 s1]; [congruence|].
  destruct mail as [|c2 s2]; [congruence|].
  destruct password as [|c3 s3]; [congruence|].
  cbn [truthy_opt PyStr.truthy negb andb].
  rewrite String.eqb_refl. cbn [negb].
  destruct (Nat.ltb_spec (PyStr.len (String c3 s3)) 6) as [L | L]; [lia|].
  apply find_username_or_email_None in Hnew. now rewrite Hnew.
Qed.

Lemma register_cases h cu method form salt users :
  snd (register h cu method form salt users) = users \/
  (cu = None /\ method = POST /\
   exists name mail password,
     acceptable form name mail password /\ is_new name mail users).
Proof.
  unfold register.
  destruct cu as [a|]; [left; reflexivity|].
  destruct method; [left; reflexivity|].
  destruct (truthy_opt (form_username form)) eqn:Tn; [|left; reflexivity].
  destruct (truthy_opt (form_email form)) eqn:Tm; [|left; reflexivity].
  destruct (truthy_opt (form_password form)) eqn:Tp; [|left; reflexivity].
  destruct (truthy_opt (form_confirm_password form)) eqn:Tc; [|left; reflexivity].
  apply truthy_opt_Some in Tn as (name & Hn & Nn), Tm as (mail & Hm & Nm),
    Tp as (password & Hp & Np), Tc as (confirm & Hc & Nc).
  rewrite Hn, Hm, Hp, Hc. cbn [negb andb].
  destruct (String.eqb_spec password confirm) as [<- | E]; [|left; reflexivity].
  cbn [negb].
  destruct (Nat.ltb_spec (PyStr.len password) 6) as [L | L]; [left; reflexivity|].
  destruct (List.find _ users) as [a|] eqn:F; [left; reflexivity|].
  right. split; [reflexivity|]. split; [reflexivity|].
  exists name, mail, password. split.
  - repeat split; assumption.
  - apply find_username_or_email_None, F.
Qed.

Lemma next_user_id_above users b :
  In b users -> user_pk (account_user b) < next_user_id users.
Proof.
  intros Hb. unfold next_user_id.
  assert (forall l : list Z, forall x, In x l -> x <= fold_right Z.max 0 l) as M.
  { induction l as [|y l IH]; simpl; [tauto|]. intros x [-> | Hx]; [lia|].
    specialize (IH x Hx). lia. }
  specialize (M ((fun a => user_pk (account_user a)) <$> users)
                (user_pk (account_user b))).
  assert (In (user_pk (account_user b))
            ((fun a => user_pk (account_user a)) <$> users)) as Hin.
  { apply List.in_map_iff. exists b. auto. }
  specialize (M Hin). lia.
Qed.

(** The length that [register] tests counts characters, not bytes: a
    password of five Greek letters, ten bytes in UTF-8, is refused, and one
    of six letters is accepted. *)
Example register_counts_characters :
  let form password :=
    {| form_username := Some "carol"; form_email := Some "carol@example.org";
       form_password := Some password; form_confirm_password := Some password |} in
  String.length "πασσω" = 10%nat /\ PyStr.len "πασσω" = 5%nat /\
  fst (register Scenario.example_hasher None POST (form "πασσω") 5 [])
    = (Redirect to_register, [PasswordTooShort]) /\
  fst (register Scenario.example_hasher None POST (form "πασσωρ") 5 [])
    = (Redirect to_login, [RegistrationSuccessful]).
Proof. vm_compute. repeat split. Qed.

(** X24. Registration adds a user exactly when nobody is logged in, the form
    is posted with its four fields filled in, the two passwords agree and
    have six characters (code points) or more, and no row has the user name
    or the address.  The table then gains one row, at its end, with a fresh key,
    the given name and address and a hash that checks against the password;
    in every other case the table is left as it was. *)
Theorem register_effect h cu method form salt users :
  let users' := snd (register h cu method form salt users) in
  (users' <> users <->
   cu = None /\ method = POST /\
   exists name mail password,
     acceptable form name mail password /\ is_new name mail users) /\
  (users' = users \/
   exists a pwhash,
     users' = users ++ [a] /\
     form_username form = Some (username (account_user a)) /\
     form_email form = email (account_user a) /\
     (forall b, In b users -> user_pk (account_user b) < user_pk (account_user a)) /\
     password_hash a = Some pwhash /\
     exists password, form_password form = Some password /\
                      check_password_hash h pwhash password = true).
Proof.
  cbv zeta. split; [split|].
  - intros Hne.
    destruct (register_cases h cu method form salt users) as [E | H];
      [contradiction | exact H].
  - intros (-> & -> & name & mail & password & Hacc & Hnew).
    rewrite (register_post_accepted h form salt users name mail password Hacc Hnew).
    simpl. intros E. apply (f_equal (@length _)) in E.
    rewrite length_app in E. simpl in E. lia.
  - destruct (register_cases h cu method form salt users)
      as [E | (-> & -> & name & mail & password & Hacc & Hnew)];
      [left; exact E | right].
    rewrite (register_post_accepted h form salt users name mail password Hacc Hnew).
    destruct Hacc as (Hn & Hm & Hp & _).
    eexists _, _. simpl. split; [reflexivity|]. repeat split; auto.
    + intros b Hb. apply next_user_id_above, Hb.
    + exists password. split; [exact Hp | apply check_generated].
Qed.

Lemma unique_accounts_insert users name mail pwhash :
  unique_accounts users -> is_new name mail users ->
  unique_accounts (users ++ [new_User users name mail pwhash]).
Proof.
  intros (Hk & Hn & He) Hnew. unfold unique_accounts.
  rewrite !List.map_app, omap_app. simpl.
  split; [|split]; (apply NoDup_app; split; [assumption|]; split;
                    [|apply NoDup_singleton]);
    intros x Hx Hx'; apply list_elem_of_singleton in Hx'; subst x.
  - apply list_elem_of_In, List.in_map_iff in Hx as (b & E & Hb).
    pose proof (next_user_id_above users b Hb). lia.
  - apply list_elem_of_In, List.in_map_iff in Hx as (b & E & Hb).
    destruct (Hnew b Hb) as [H _]. contradiction.
  - apply list_elem_of_omap in Hx as (b & Hb & E).
    apply list_elem_of_In in Hb. destruct (Hnew b Hb) as [_ H]. contradiction.
Qed.

(** X25. Registration keeps the user table within its unique constraints:
    keys, user names and addresses stay pairwise different, so the commit of
    a new user never meets a duplicate. *)
Theorem register_keeps_accounts_unique h cu method form salt users :
  unique_accounts users ->
  unique_accounts (snd (register h cu method form salt users)).
Proof.
  intros U.
  destruct (register_cases h cu method form salt users)
    as [-> | (-> & -> & name & mail & password & Hacc & Hnew)]; [exact U|].
  rewrite (register_post_accepted h form salt users name mail password Hacc Hnew).
  apply unique_accounts_insert; assumption.
Qed.

Lemma register_keeps_accounts_unique_witness :
  unique_accounts [Scenario.alice_account] /\
  unique_accounts (snd (register Scenario.example_hasher None POST Scenario.carol_form 5
                          [Scenario.alice_account])) /\
  length (snd (register Scenario.example_hasher None POST Scenario.carol_form 5
                 [Scenario.alice_account])) = 2%nat.
Proof.
  assert (U : unique_accounts [Scenario.alice_account]).
  { repeat split; simpl; repeat constructor; simpl; tauto || set_solver. }
  split; [exact U|]. split; [|reflexivity].
  exact (register_keeps_accounts_unique Scenario.example_hasher None POST
           Scenario.carol_form 5 [Scenario.alice_account] U).
Defined.

Lemma find_app_none {A} (f : A -> bool) l k :
  (forall a, In a l -> f a = false) -> List.find f (l ++ k) = List.find f k.
Proof.
  induction l as [|x l IH]; intros H; [reflexivity|].
  simpl. rewrite (H x (or_introl eq_refl)). apply IH.
  intros a Ha. apply H. right. exact Ha.
Qed.

(** X26. Round trip of an account: once a registration is accepted, logging
    in with the same user name and password succeeds, as the user just
    created and whatever the salt of the hash was. *)
Theorem register_then_login h form salt users name mail password remember next_page :
  acceptable form name mail password -> is_new name mail users ->
  exists target,
    login h None POST (Some name) (Some password) remember next_page
      (snd (register h None POST form salt users)) =
    (Redirect target, [WelcomeBack name],
     Some (new_User users name mail (generate_password_hash h password salt),
           truthy_opt remember)).
Proof.
  intros Hacc Hnew.
  rewrite (register_post_accepted h form salt users name mail password Hacc Hnew).
  destruct Hacc as (_ & _ & _ & _ & Nn & _ & Len).
  assert (Np : password <> "") by (intros ->; simpl in Len; lia).
  assert (Tn : PyStr.truthy name = true) by (destruct name; [congruence | reflexivity]).
  assert (Tp : PyStr.truthy password = true)
    by (destruct password; [congruence | reflexivity]).
  unfold login. cbn [snd]. rewrite Tn, Tp. cbn [negb orb].
  rewrite find_app_none.
  - unfold new_User. cbn [List.find account_user username].
    rewrite String.eqb_refl. cbn [password_hash account_user username].
    rewrite check_generated. cbn [negb]. eexists. reflexivity.
  - intros a Ha. apply String.eqb_neq. apply (Hnew a Ha).
Qed.

Lemma register_then_login_witness :
  exists target a,
    login Scenario.example_hasher None POST (Some "carol") (Some "s3cret!") None None
      (snd (register Scenario.example_hasher None POST Scenario.carol_form 5
              [Scenario.alice_account])) =
    (Redirect target, [WelcomeBack "carol"], Some (a, false)) /\
    user_pk (account_user a) = 8.
Proof.
  assert (A : acceptable Scenario.carol_form "carol" "carol@example.org" "s3cret!").
  { repeat split; simpl; try discriminate; lia. }
  assert (N : is_new "carol" "carol@example.org" [Scenario.alice_account]).
  { intros a [<- | []]. split; discriminate. }
  destruct (register_then_login Scenario.example_hasher Scenario.carol_form 5
              [Scenario.alice_account] "carol" "carol@example.org" "s3cret!"
              None None A N) as [target E].
  exists target. eexists. split; [exact E | reflexivity].
Defined.

(** X27. Nobody is logged in without the password: whenever [login] calls
    [login_user], the request is a POST from a visitor who is not logged in,
    the user is the first row of the table with the submitted name, and the
    submitted password checks against that row's hash. *)
Theorem login_is_sound h cu method form_name form_password remember next_page users a r :
  snd (login h cu method form_name form_password remember next_page users) = Some (a, r) ->
  cu = None /\ method = POST /\ r = truthy_opt remember /\
  exists name password pwhash,
    form_name = Some name /\ form_password = Some password /\
    List.find (fun b => String.eqb (username (account_user b)) name) users = Some a /\
    In a users /\ username (account_user a) = name /\
    password_hash a = Some pwhash /\
    check_password_hash h pwhash password = true.
Proof.
  unfold login.
  destruct cu; [discriminate|]. destruct method; [discriminate|].
  destruct form_name as [name|]; [|discriminate].
  destruct form_password as [password|]; [|discriminate].
  destruct (negb (PyStr.truthy name) || negb (PyStr.truthy password)); [discriminate|].
  destruct (List.find _ users) as [user|] eqn:F; [|discriminate].
  destruct (password_hash user) as [pwhash|] eqn:P; [|discriminate].
  destruct (check_password_hash h pwhash password) eqn:C; [|discriminate].
  cbn [negb snd]. intros [= <- <-].
  repeat split. exists name, password, pwhash.
  pose proof (List.find_some _ _ F) as [Hin Hb].
  apply String.eqb_eq in Hb. repeat split; auto.
Qed.

Lemma login_is_sound_witness :
  snd (login Scenario.example_hasher None POST (Some "alice") (Some "wonderland")
         (Some "on") None [Scenario.alice_account]) = Some (Scenario.alice_account, true) /\
  snd (login Scenario.example_hasher None POST (Some "alice") (Some "Wonderland")
         (Some "on") None [Scenario.alice_account]) = None /\
  check_password_hash Scenario.example_hasher "0wonderland" "wonderland" = true.
Proof.
  split; [reflexivity|]. split; [reflexivity|].
  destruct (login_is_sound Scenario.example_hasher None POST (Some "alice")
              (Some "wonderland") (Some "on") None [Scenario.alice_account]
              Scenario.alice_account true eq_refl)
    as (_ & _ & _ & name & password & pwhash & [= <-] & [= <-] & _ & _ & _ & [= <-] & C).
  exact C.
Defined.

(** X28. The [create-user] command applies the checks of the registration
    form but the one on the length of the password: on the same four
    non-missing fields it changes the table as [register] does when the
    password has six characters or more, and [register] changes nothing when
    it is shorter.  The command adds a user exactly when the four lines are
    non-empty, the passwords agree and no row has the name or the address. *)
Theorem create_user_and_register h name mail password confirm_password salt users :
  let form := {| form_username := Some name; form_email := Some mail;
                 form_password := Some password;
                 form_confirm_password := Some confirm_password |} in
  snd (register h None POST form salt users) =
    (if (PyStr.len password <? 6)%nat then users
     else snd (create_user h name mail password confirm_password salt users)) /\
  (snd (create_user h name mail password confirm_password salt users) <> users <->
   name <> "" /\ mail <> "" /\ password <> "" /\ confirm_password = password /\
   is_new name mail users).
Proof.
  cbv zeta. unfold register, create_user.
  cbn [form_username form_email form_password form_confirm_password truthy_opt].
  destruct (PyStr.truthy name) eqn:Tn.
  2:{ cbn [andb negb snd]. split; [now destruct (_ <? _)%nat|].
      split; [congruence|]. intros (N & _). destruct name; [congruence | discriminate]. }
  destruct (PyStr.truthy mail) eqn:Tm.
  2:{ cbn [andb negb snd]. split; [now destruct (_ <? _)%nat|].
      split; [congruence|]. intros (_ & N & _). destruct mail; [congruence | discriminate]. }
  destruct (PyStr.truthy password) eqn:Tp.
  2:{ cbn [andb negb snd]. split; [now destruct (_ <? _)%nat|].
      split; [congruence|]. intros (_ & _ & N & _).
      destruct password; [congruence | discriminate]. }
  destruct (PyStr.truthy confirm_password) eqn:Tc.
  2:{ cbn [andb negb snd]. split; [now destruct (_ <? _)%nat|].
      split; [congruence|]. intros (_ & _ & N & <- & _). congruence. }
  cbn [andb negb].
  destruct (String.eqb_spec password confirm_password) as [<- | E]; cbn [negb snd].
  2:{ split; [now destruct (_ <? _)%nat|]. split; [congruence|].
      intros (_ & _ & _ & <- & _). congruence. }
  split.
  - destruct (_ <? _)%nat; [reflexivity|].
    destruct (List.find _ users); reflexivity.
  - destruct (List.find _ users) as [a|] eqn:F; cbn [snd].
    + split; [congruence|]. intros (_ & _ & _ & _ & N).
      apply find_username_or_email_None in N. congruence.
    + split.
      * intros _.
        split; [intros ->; discriminate|]. split; [intros ->; discriminate|].
        split; [intros ->; discriminate|]. split; [reflexivity|].
        apply find_username_or_email_None, F.
      * intros _ Eq. apply (f_equal (@length _)) in Eq.
        rewrite length_app in Eq. simpl in Eq. lia.
Qed.
